(** * Stat-trader: event normalisation, deduplication, pricing and broadcast

    A shallow embedding of the pricing pipeline of the repository
    (app/pricing_engine.py, app/data_provider.py, app/api_football_client.py,
    app/simulator.py, app/main.py) and the properties of its specification.

    Python floats are IEEE-754 binary64 values; they are embedded as the
    standard library's [spec_float] with the operations [SFadd] and [SFmul]
    at precision 53 and maximal exponent 1024.  Python integers are [Z].
    Dictionaries keyed by strings are [gmap string _]; the insertion-ordered
    dictionary of the normaliser is an association list. *)

From Stdlib Require Import ZArith Lia Floats Ascii String.
From stdpp Require Import gmap strings list pretty.

Open Scope Z_scope.

#[local] Set Warnings "-register-all".

(** ** Exceptions raised by the embedded code *)

Inductive exn : Type :=
| OverflowError   (* int too large to convert to float *)
| AttributeError  (* e.g. 'int' object has no attribute 'lower' *)
| TypeError       (* e.g. 'int' object is not iterable *)
| KeyError
| ValueError      (* e.g. list.remove(x): x not in list *)
| HTTPError       (* a failed request to the provider *)
| RuntimeError.   (* e.g. sending on a closed WebSocket *)

(** ** Binary64 arithmetic *)

Module Float64.

Abbreviation float64 := spec_float.

Definition fadd : float64 -> float64 -> float64 := SFadd prec emax.
Definition fmul : float64 -> float64 -> float64 := SFmul prec emax.

(** The float literals of pricing_engine.py, as the kernel reads them. *)
Definition f100 : float64 := S754_finite false 7036874417766400 (-46).
Definition f50 : float64 := S754_finite false 7036874417766400 (-47).
Definition f0_1 : float64 := S754_finite false 7205759403792794 (-56).
Definition f0_7 : float64 := S754_finite false 6305039478318694 (-53).
Definition f1000 : float64 := S754_finite false 8796093022208000 (-43).
(** Prices of the specification's scenarios: 1100.0, 1200.0, 1009.0,
    700.0, 1204.5 and 1207.5. *)
Definition f1100 : float64 := S754_finite false 4837851162214400 (-42).
Definition f1200 : float64 := S754_finite false 5277655813324800 (-42).
Definition f1009 : float64 := S754_finite false 8875257859407872 (-43).
Definition f700 : float64 := S754_finite false 6157265115545600 (-43).
Definition f1204_5 : float64 := S754_finite false 5297447022624768 (-42).
Definition f1207_5 : float64 := S754_finite false 5310641162158080 (-42).
(** A base price that is not a two-decimal value, 0.125, and what
    [round(0.125, 2)] gives, 0.12. *)
Definition f0_125 : float64 := S754_finite false 4503599627370496 (-55).
Definition f0_12 : float64 := S754_finite false 8646911284551352 (-56).

(** [float(n)] for a Python int, as in [100.0 * goals]: the nearest
    binary64 (ties to even); OverflowError when that is out of range. *)
Definition of_int (n : Z) : exn + float64 :=
  match binary_normalize prec emax n 0 false with
  | S754_infinity _ => inl OverflowError
  | f => inr f
  end.

(** Nearest integer to [a / b], ties to the even one ([0 <= a], [0 < b]). *)
Definition rne_div (a b : Z) : Z :=
  let q := a / b in
  match 2 * (a mod b) ?= b with
  | Lt => q
  | Gt => q + 1
  | Eq => if Z.even q then q else q + 1
  end.

(** The binary64 nearest to the rational [a / b] (ties to even), with sign
    [s]: what C's strtod returns for a decimal numeral.  The quotient is
    scaled by [2 ^ 1127], so that the unit in the last place of a result is
    [2 ^ (k - 1127)] for a [k >= 53] (the smallest subnormal is
    [2 ^ (-1074)]); [k > 2098] overflows. *)
Definition nearest (s : bool) (a b : Z) : float64 :=
  if a =? 0 then S754_zero s else
  let A := a * 2 ^ 1127 in
  let k := Z.max (Z.log2 (A / b) - 52) 53 in
  let m := rne_div A (b * 2 ^ k) in
  let '(m, k) := if m =? 2 ^ 53 then (2 ^ 52, k + 1) else (m, k) in
  match m with
  | Zpos p => if k <=? 2098 then S754_finite s p (k - 1127) else S754_infinity s
  | _ => S754_zero s
  end.

(** The integer nearest to [100 * m * 2^e], ties to even: the digits of
    the two-decimal numeral that dtoa (mode 3) produces. *)
Definition hundredths (m : positive) (e : Z) : Z :=
  if 0 <=? e then 100 * Zpos m * 2 ^ e else rne_div (100 * Zpos m) (2 ^ (- e)).

(** Python's [round(x, 2)] on a float: infinities and NaN round to
    themselves; a finite value is printed with two decimals, correctly
    rounded half-to-even on its exact binary value, and read back. *)
Definition py_round2 (x : float64) : float64 :=
  match x with
  | S754_finite s m e => nearest s (hundredths m e) 100
  | _ => x
  end.

(** *** Samples for checking [nearest] against the standard library *)

(** The quotient of two positive integers, correctly rounded by the standard
    library's [SFdiv]. *)
Definition SFdiv_of_Z (a b : Z) : float64 :=
  match a, b with
  | Zpos p, Zpos q => SFdiv prec emax (S754_finite false p 0) (S754_finite false q 0)
  | _, _ => S754_zero false
  end.

(** Quotients from every range: normal, subnormal, carry, overflow. *)
Definition nearest_samples : list (Z * Z) :=
  [(1, 3); (2, 3); (120750, 100); (1, 100); (5, 1000); (2 ^ 53 + 1, 1);
   (2 ^ 53 + 3, 2); (2 ^ 54 - 1, 2); (3 * 2 ^ 1000 + 1, 5); (1, 3 * 2 ^ 1070);
   (1, 2 ^ 1074); (1, 2 ^ 1075); (3, 2 ^ 1075); (1, 2 ^ 1076);
   (2 ^ 1024 * 100 - 1, 100); (2 ^ 1024 * 100, 100);
   ((2 ^ 1024 - 2 ^ 970) * 100 - 1, 100); ((2 ^ 1024 - 2 ^ 970) * 100, 100);
   (123456789123456789123, 100); (2 ^ 52 * 100 - 1, 100);
   (2 ^ 53 * 100 - 1, 100); (2 ^ 53 * 100 - 51, 100); (7, 1); (2 ^ 60, 3)].

End Float64.

Import Float64.

(** ** Data model (app/models.py) *)

Record StatUpdate : Type := mkStat {
  player_id : string;
  goals : Z;
  assists : Z;
  minutes : Z;
  injury : bool
}.

(** ** The pricing engine (app/pricing_engine.py) *)

Module Pricing.

Record PricingEngine : Type := mkEngine {
  prices : gmap string float64;
  base_price : float64
}.

(** [PricingEngine(base_price)]. *)
Definition new (base : float64) : PricingEngine := mkEngine ∅ base.

Definition set_price (pid : string) (v : float64) (eng : PricingEngine)
  : PricingEngine :=
  mkEngine (<[pid := v]> (prices eng)) (base_price eng).

(** The PRICE_UPDATE line written by [print]. *)
Record log_line : Type := mkLine {
  log_player : string;
  log_price : float64;
  log_delta : float64
}.

(** A coroutine over the engine: dictionary reads and writes and [print]
    run synchronously; [Sleep0] is [await asyncio.sleep(0)], the only
    point where the event loop may run another task. *)
Inductive Coro (A : Type) : Type :=
| Ret (a : A)
| Raise (e : exn)
| Get (k : PricingEngine -> Coro A)
| Put (eng : PricingEngine) (k : Coro A)
| Print (line : log_line) (k : Coro A)
| Sleep0 (k : Coro A).
Arguments Ret {A} a.
Arguments Raise {A} e.
Arguments Get {A} k.
Arguments Put {A} eng k.
Arguments Print {A} line k.
Arguments Sleep0 {A} k.

Fixpoint bind {A B : Type} (c : Coro A) (f : A -> Coro B) : Coro B :=
  match c with
  | Ret a => f a
  | Raise e => Raise e
  | Get k => Get (fun eng => bind (k eng) f)
  | Put eng k => Put eng (bind k f)
  | Print line k => Print line (bind k f)
  | Sleep0 k => Sleep0 (bind k f)
  end.

#[export] Instance coro_ret : MRet Coro := @Ret.
#[export] Instance coro_bind : MBind Coro := fun A B f c => bind c f.

Definition get : Coro PricingEngine := Get Ret.
Definition put (eng : PricingEngine) : Coro unit := Put eng (Ret tt).
Definition print (line : log_line) : Coro unit := Print line (Ret tt).
Definition sleep0 : Coro unit := Sleep0 (Ret tt).

(** [self.prices[pid]]. *)
Definition getitem (pid : string) : Coro float64 :=
  eng ← get;
  match prices eng !! pid with
  | Some p => Ret p
  | None => Raise KeyError
  end.

(** [self.prices[pid] = v]. *)
Definition setitem (pid : string) (v : float64) : Coro unit :=
  eng ← get; put (set_price pid v eng).

(** [x * n] for a float [x] and an int [n]. *)
Definition fmul_int (x : float64) (n : Z) : Coro float64 :=
  match of_int n with
  | inl e => Raise e
  | inr f => Ret (fmul x f)
  end.

(** <<
    def _ensure(self, player_id):
        if player_id not in self.prices:
            self.prices[player_id] = self.base_price
        return self.prices[player_id]
    >> *)
Definition _ensure (pid : string) : Coro float64 :=
  eng ← get;
  (match prices eng !! pid with
   | None => setitem pid (base_price eng)
   | Some _ => Ret tt
   end) ;;
  getitem pid.

(** <<
    async def apply_stat(self, stat):
        pid = str(stat.player_id)
        price = self._ensure(pid)
        delta = 100.0 * getattr(stat, "goals", 0)
        delta += 50.0 * getattr(stat, "assists", 0)
        delta += 0.1 * getattr(stat, "minutes", 0)
        if getattr(stat, "injury", False):
            price = price * 0.7
        new_price = price + delta
        self.prices[pid] = round(new_price, 2)
        print(f"PRICE_UPDATE player={pid} price={self.prices[pid]} delta={delta}")
        await asyncio.sleep(0)
        return self.prices[pid]
    >> *)
Definition apply_stat (stat : StatUpdate) : Coro float64 :=
  let pid := player_id stat in
  price ← _ensure pid;
  delta ← fmul_int f100 (goals stat);
  d ← fmul_int f50 (assists stat);
  let delta := fadd delta d in
  d ← fmul_int f0_1 (minutes stat);
  let delta := fadd delta d in
  let price := if injury stat then fmul price f0_7 else price in
  let new_price := fadd price delta in
  setitem pid (py_round2 new_price) ;;
  stored ← getitem pid;
  print (mkLine pid stored delta) ;;
  sleep0 ;;
  getitem pid.

(** *** Running coroutines *)

Inductive outcome (A : Type) : Type :=
| Finished (a : A)
| Failed (e : exn)
| Suspended (k : Coro A).
Arguments Finished {A} a.
Arguments Failed {A} e.
Arguments Suspended {A} k.

(** One uninterrupted segment: run up to the next suspension point. *)
Fixpoint run_segment {A : Type} (c : Coro A) (eng : PricingEngine)
    (log : list log_line) : PricingEngine * list log_line * outcome A :=
  match c with
  | Ret a => (eng, log, Finished a)
  | Raise e => (eng, log, Failed e)
  | Get k => run_segment (k eng) eng log
  | Put eng' k => run_segment k eng' log
  | Print line k => run_segment k eng (log ++ [line])
  | Sleep0 k => (eng, log, Suspended k)
  end.

(** [await c] when no other task is ready: every suspension resumes at
    once. *)
Fixpoint run_alone {A : Type} (c : Coro A) (eng : PricingEngine)
    (log : list log_line) : PricingEngine * list log_line * (exn + A) :=
  match c with
  | Ret a => (eng, log, inr a)
  | Raise e => (eng, log, inl e)
  | Get k => run_alone (k eng) eng log
  | Put eng' k => run_alone k eng' log
  | Print line k => run_alone k eng (log ++ [line])
  | Sleep0 k => run_alone k eng log
  end.

(** The effects a coroutine performs, in order, when it runs to its end. *)
Inductive effect : Type :=
| EGet
| EPut (eng : PricingEngine)
| EPrint (line : log_line)
| ESleep.

Fixpoint effects {A : Type} (c : Coro A) (eng : PricingEngine) : list effect :=
  match c with
  | Ret _ => []
  | Raise _ => []
  | Get k => EGet :: effects (k eng) eng
  | Put eng' k => EPut eng' :: effects k eng'
  | Print line k => EPrint line :: effects k eng
  | Sleep0 k => ESleep :: effects k eng
  end.

(** A read or a write of the engine: neither I/O nor a suspension. *)
Definition synchronous (ev : effect) : bool :=
  match ev with
  | EGet | EPut _ => true
  | EPrint _ | ESleep => false
  end.

(** *** The pricing rule of the specification

    [delta = 100 * goals + 50 * assists + 0.1 * minutes], evaluated in
    binary64 as Python evaluates that expression. *)
Definition delta_of (stat : StatUpdate) : exn + float64 :=
  match of_int (goals stat), of_int (assists stat), of_int (minutes stat) with
  | inr g, inr a, inr m =>
      inr (fadd (fadd (fmul f100 g) (fmul f50 a)) (fmul f0_1 m))
  | inl e, _, _ | _, inl e, _ | _, _, inl e => inl e
  end.

(** [round((P*0.7 if injury else P) + delta, 2)]. *)
Definition price_rule (P : float64) (inj : bool) (delta : float64) : float64 :=
  py_round2 (fadd (if inj then fmul P f0_7 else P) delta).

(** The price on record for a player: the stored one, or the base price. *)
Definition current_price (eng : PricingEngine) (pid : string) : float64 :=
  default (base_price eng) (prices eng !! pid).

(** The engine after [_ensure pid]. *)
Definition ensured (pid : string) (eng : PricingEngine) : PricingEngine :=
  match prices eng !! pid with
  | None => set_price pid (base_price eng) eng
  | Some _ => eng
  end.

(** The engine after one complete update for [stat]: the final rounded
    price is stored; when [delta] cannot be evaluated nothing is priced and
    the player is only on record at the base price. *)
Definition committed (stat : StatUpdate) (eng : PricingEngine) : PricingEngine :=
  match delta_of stat with
  | inr delta =>
      set_price (player_id stat)
        (price_rule (current_price eng (player_id stat)) (injury stat) delta) eng
  | inl _ => ensured (player_id stat) eng
  end.

(** *** Cooperative scheduling

    The event loop runs one task at a time and switches tasks only at a
    suspension point.  A schedule names the task resumed at each turn; every
    order is allowed. *)
Inductive task : Type :=
| Ready (c : Coro float64)
| Done (r : exn + float64).

Definition resume (t : task) (eng : PricingEngine) (log : list log_line)
  : PricingEngine * list log_line * task :=
  match t with
  | Ready c =>
      match run_segment c eng log with
      | (eng', log', Finished a) => (eng', log', Done (inr a))
      | (eng', log', Failed e) => (eng', log', Done (inl e))
      | (eng', log', Suspended k) => (eng', log', Ready k)
      end
  | Done _ => (eng, log, t)
  end.

(** The engine states at the task switches of a schedule: what any task can
    observe. *)
Fixpoint run_schedule (sch : list nat) (eng : PricingEngine)
    (log : list log_line) (pool : list task) : list PricingEngine :=
  match sch with
  | [] => [eng]
  | i :: sch' =>
      eng ::
      match pool !! i with
      | Some t =>
          let '(eng', log', t') := resume t eng log in
          run_schedule sch' eng' log' (<[i := t']> pool)
      | None => run_schedule sch' eng log pool
      end
  end.

(** [R] holds between every two consecutive elements. *)
Fixpoint adjacent {A : Type} (R : A -> A -> Prop) (l : list A) : Prop :=
  match l with
  | a :: l' =>
      match l' with
      | b :: _ => R a b /\ adjacent R l'
      | [] => True
      end
  | [] => True
  end.

(** Between two task switches the engine is untouched or has gone through
    one complete update. *)
Definition observed_step (stats : list StatUpdate) (e e' : PricingEngine) : Prop :=
  e' = e \/ exists stat, stat ∈ stats /\ e' = committed stat e.

(** *** Reachable engine states *)

(** The engine states reached from a fresh engine by [apply_stat] calls,
    each awaited to its end, whether it returned or raised. *)
Inductive reachable : PricingEngine -> Prop :=
| reach_new (base : float64) : reachable (new base)
| reach_apply (eng : PricingEngine) (stat : StatUpdate) (log : list log_line)
    (eng' : PricingEngine) (log' : list log_line) (r : exn + float64) :
    reachable eng ->
    run_alone (apply_stat stat) eng log = (eng', log', r) ->
    reachable eng'.

(** A stat update that carries nothing. *)
Definition zero_stat (pid : string) : StatUpdate := mkStat pid 0 0 0 false.

(** The same price: the same float, except that a stored [-0.0] may come
    back as [0.0], which Python's [==] does not tell apart. *)
Definition same_price (old new : float64) : Prop :=
  new = old \/ (old = S754_zero true /\ new = S754_zero false).

(** An update whose goal count is too large for a float: [100.0 * goals]
    raises OverflowError. *)
Definition huge_goals (pid : string) : StatUpdate := mkStat pid (2 ^ 1024) 0 0 false.

(** A single-goal update, as in the specification's scenario 5. *)
Definition one_goal (pid : string) : StatUpdate := mkStat pid 1 0 0 false.

(** The tasks of a pool of updates: an update not yet started, the read
    that is left of it after its suspension, or a finished one. *)
Definition task_ok (stats : list StatUpdate) (t : task) : Prop :=
  (exists stat, stat ∈ stats /\ t = Ready (apply_stat stat)) \/
  (exists pid, t = Ready (getitem pid)) \/
  (exists r, t = Done r).

(** Every stored price is a value of [round(., 2)]. *)
Definition rounded (eng : PricingEngine) : Prop :=
  forall pid P, prices eng !! pid = Some P -> py_round2 P = P.

End Pricing.

(** ** The lightweight engine (app/pricing_engine_simple.py) *)

Module Simple.
Import Pricing.

(** <<
    async def apply_stat(self, stat):
        pid = str(stat.player_id)
        price = self._ensure(pid)
        delta = 100.0 * getattr(stat, "goals", 0) + 50.0 * getattr(stat, "assists", 0) + 0.1 * getattr(stat, "minutes", 0)
        if getattr(stat, "injury", False):
            price = price * 0.7
        price = price + delta
        self.prices[pid] = round(price, 2)
        print(f"PRICE_UPDATE player={pid} price={self.prices[pid]} delta={delta}")
        await asyncio.sleep(0)
        return self.prices[pid]
    >> *)
Definition apply_stat (stat : StatUpdate) : Coro float64 :=
  let pid := player_id stat in
  price ← _ensure pid;
  g ← fmul_int f100 (goals stat);
  a ← fmul_int f50 (assists stat);
  let sum := fadd g a in
  m ← fmul_int f0_1 (minutes stat);
  let delta := fadd sum m in
  let price := if injury stat then fmul price f0_7 else price in
  let price := fadd price delta in
  setitem pid (py_round2 price) ;;
  stored ← getitem pid;
  print (mkLine pid stored delta) ;;
  sleep0 ;;
  getitem pid.

End Simple.

(** ** Series of calls on one engine *)

Module Series.
Import Pricing.

(** The engine after a series of [apply_stat] calls, each awaited alone; a
    call that raises is left behind and the next one is made. *)
Definition after_calls (stats : list StatUpdate) (eng : PricingEngine) : PricingEngine :=
  fold_left (fun eng stat => (run_alone (apply_stat stat) eng []).1.1) stats eng.

(** The engine after the updates of [stats] made one after the other, in
    the order in which the schedule first names them; [started] lists the
    updates already made. *)
Fixpoint serial (stats : list StatUpdate) (sch : list nat) (started : list nat)
    (eng : PricingEngine) : PricingEngine :=
  match sch with
  | [] => eng
  | i :: sch' =>
      match stats !! i with
      | Some stat =>
          if decide (i ∈ started) then serial stats sch' started eng
          else serial stats sch' (i :: started) (committed stat eng)
      | None => serial stats sch' started eng
      end
  end.

(** The pool of a schedule under way: a task is untouched until the
    schedule names it, and from then on it only has a read left. *)
Definition Underway (stats : list StatUpdate) (started : list nat) (pool : list task)
  : Prop :=
  length pool = length stats /\
  forall i stat, stats !! i = Some stat ->
    exists t, pool !! i = Some t /\
      if decide (i ∈ started)
      then (exists pid, t = Ready (getitem pid)) \/ (exists r, t = Done r)
      else t = Ready (apply_stat stat).

End Series.


(** ** Python values and builtins

    The payloads are the values [json.load] produces.  Strings are taken
    to be ASCII: [lower], [repr] and [int] are modelled on ASCII text, and
    a string with other characters (which Python would lower, escape or
    read as digits and spaces by their Unicode properties) is not a value
    of this model. *)

Module Py.

(** Values as [json.load] produces them.  A dictionary is the list of its
    items in insertion order; keys are strings. *)
Inductive pyval : Type :=
| PNone
| PBool (b : bool)
| PInt (n : Z)
| PFloat (f : float64)
| PStr (s : string)
| PList (l : list pyval)
| PDict (d : list (string * pyval)).

(** [bool(v)]. *)
Definition truthy (v : pyval) : bool :=
  match v with
  | PNone => false
  | PBool b => b
  | PInt n => negb (n =? 0)
  | PFloat (S754_zero _) => false
  | PFloat _ => true
  | PStr s => negb (String.eqb s "")
  | PList l => match l with [] => false | _ => true end
  | PDict d => match d with [] => false | _ => true end
  end.

(** [a or b]. *)
Definition py_or (a b : pyval) : pyval := if truthy a then a else b.

(** [d.get(k)] on the items of a dictionary. *)
Fixpoint dict_get (d : list (string * pyval)) (k : string) : pyval :=
  match d with
  | [] => PNone
  | (k', v) :: d' => if String.eqb k' k then v else dict_get d' k
  end.

(** *** Strings (ASCII) *)

Definition is_upper (c : ascii) : bool :=
  let n := nat_of_ascii c in (65 <=? n)%nat && (n <=? 90)%nat.

Definition lower_ascii (c : ascii) : ascii :=
  if is_upper c then ascii_of_nat (nat_of_ascii c + 32) else c.

(** [s.lower()]. *)
Fixpoint lower (s : string) : string :=
  match s with
  | EmptyString => EmptyString
  | String c s' => String (lower_ascii c) (lower s')
  end.

(** [s.startswith(p)]. *)
Fixpoint startswith (p s : string) : bool :=
  match p, s with
  | EmptyString, _ => true
  | String a p', String b s' => Ascii.eqb a b && startswith p' s'
  | String _ _, EmptyString => false
  end.

(** [p in s]. *)
Fixpoint contains (p s : string) : bool :=
  startswith p s ||
  match s with
  | EmptyString => false
  | String _ s' => contains p s'
  end.

(** *** [int(v)]; [None] stands for the exception it raises. *)

Definition is_space (c : ascii) : bool :=
  let n := nat_of_ascii c in
  (n =? 32)%nat || ((9 <=? n)%nat && (n <=? 13)%nat).

Definition digit_of (c : ascii) : option Z :=
  let n := nat_of_ascii c in
  if (48 <=? n)%nat && (n <=? 57)%nat then Some (Z.of_nat n - 48) else None.

Fixpoint lstrip (s : string) : string :=
  match s with
  | String c s' => if is_space c then lstrip s' else s
  | EmptyString => s
  end.

(** Digits with single underscores between them, then optional spaces;
    [acc] is the value so far, [n] the number of digits read and [sep]
    tells whether the previous character was an underscore. *)
Fixpoint parse_digits (s : string) (acc : Z) (n : nat) (sep : bool) : option Z :=
  match s with
  | EmptyString => if sep || (4300 <? n)%nat then None else Some acc
  | String c s' =>
      match digit_of c with
      | Some d => parse_digits s' (10 * acc + d) (S n) false
      | None =>
          if Ascii.eqb c "_" then
            if sep then None else parse_digits s' acc n true
          else if sep then None
          else if (4300 <? n)%nat then None
          else match lstrip s with EmptyString => Some acc | _ => None end
      end
  end.

Definition starts_with_digit (s : string) : bool :=
  match s with
  | String c _ => match digit_of c with Some _ => true | None => false end
  | EmptyString => false
  end.

Definition parse_unsigned (s : string) : option Z :=
  if starts_with_digit s then parse_digits s 0 0 false else None.

Definition int_of_str (s : string) : option Z :=
  match lstrip s with
  | String "-" s' => Z.opp <$> parse_unsigned s'
  | String "+" s' => parse_unsigned s'
  | s' => parse_unsigned s'
  end.

(** Truncation toward zero of a finite float. *)
Definition trunc (f : float64) : option Z :=
  match f with
  | S754_zero _ => Some 0
  | S754_finite s m e =>
      let a := if 0 <=? e then Zpos m * 2 ^ e else Zpos m / 2 ^ (- e) in
      Some (if s then - a else a)
  | _ => None
  end.

Definition py_int (v : pyval) : option Z :=
  match v with
  | PInt n => Some n
  | PBool b => Some (if b then 1 else 0)
  | PFloat f => trunc f
  | PStr s => int_of_str s
  | _ => None
  end.

(** *** [repr(v)] and [str(v)] *)

Definition dquote : ascii := ascii_of_nat 34.
Definition squote : ascii := ascii_of_nat 39.
Definition backslash : ascii := ascii_of_nat 92.

Definition hex_digit (n : nat) : ascii :=
  if (n <? 10)%nat then ascii_of_nat (48 + n) else ascii_of_nat (87 + n).

Definition has_char (c : ascii) (s : string) : bool :=
  contains (String c EmptyString) s.

Definition escape_char (q : ascii) (c : ascii) : string :=
  let n := nat_of_ascii c in
  if Ascii.eqb c backslash then String backslash (String backslash EmptyString)
  else if Ascii.eqb c q then String backslash (String q EmptyString)
  else if (n =? 10)%nat then String backslash "n"
  else if (n =? 13)%nat then String backslash "r"
  else if (n =? 9)%nat then String backslash "t"
  else if (n <? 32)%nat || (n =? 127)%nat then
    String backslash (String "x" (String (hex_digit (n / 16)) (String (hex_digit (n mod 16)) EmptyString)))
  else String c EmptyString.

Fixpoint escape (q : ascii) (s : string) : string :=
  match s with
  | EmptyString => EmptyString
  | String c s' => escape_char q c +:+ escape q s'
  end.

(** [repr(s)] of a string: single quotes unless the string has a single
    quote and no double quote. *)
Definition str_repr (s : string) : string :=
  let q := if has_char squote s && negb (has_char dquote s) then dquote else squote in
  String q (escape q s +:+ String q EmptyString).

Definition same_float (x y : float64) : bool :=
  match x, y with
  | S754_zero s, S754_zero s' => Bool.eqb s s'
  | S754_infinity s, S754_infinity s' => Bool.eqb s s'
  | S754_nan, S754_nan => true
  | S754_finite s m e, S754_finite s' m' e' =>
      Bool.eqb s s' && (Zpos m =? Zpos m') && (e =? e')
  | _, _ => false
  end.

(** [a / b < 10 ^ k]. *)
Definition lt_pow10 (a b k : Z) : bool :=
  if 0 <=? k then a <? b * 10 ^ k else a * 10 ^ (- k) <? b.

(** The [k] with [10 ^ (k - 1) <= a / b < 10 ^ k]. *)
Fixpoint find_decpt (fuel : nat) (a b k : Z) : Z :=
  match fuel with
  | O => k
  | S fuel' => if lt_pow10 a b k then k else find_decpt fuel' a b (k + 1)
  end.

(** The [p]-digit decimal nearest to [a / b]. *)
Definition digits_at (a b k p : Z) : Z :=
  if 0 <=? p - k then rne_div (a * 10 ^ (p - k)) b else rne_div a (b * 10 ^ (k - p)).

Definition round_trips (m : positive) (e : Z) (d k p : Z) : bool :=
  same_float (S754_finite false m e)
    (if 0 <=? k - p then nearest false (d * 10 ^ (k - p)) 1
     else nearest false d (10 ^ (p - k))).

(** The [p]-digit decimal just below [a / b], or [a / b] itself. *)
Definition digits_below (a b k p : Z) : Z :=
  if 0 <=? p - k then (a * 10 ^ (p - k)) / b else a / (b * 10 ^ (k - p)).

(** The shortest decimal that reads back as the float, at most 17 digits:
    with [p] digits, the nearest decimal if it reads back, else the decimal
    on the other side of the float if that one does. *)
Fixpoint shortest (fuel : nat) (m : positive) (e : Z) (a b k p : Z) : Z * Z :=
  let d := digits_at a b k p in
  match fuel with
  | O => (d, p)
  | S fuel' =>
      let below := digits_below a b k p in
      let d' := if d =? below then below + 1 else below in
      if round_trips m e d k p then (d, p)
      else if round_trips m e d' k p then (d', p)
      else shortest fuel' m e a b k (p + 1)
  end.

Fixpoint rstrip0 (rev_digits : list ascii) : list ascii :=
  match rev_digits with
  | c :: l => if Ascii.eqb c "0" then rstrip0 l else rev_digits
  | [] => []
  end.

Fixpoint zeros (n : nat) : string :=
  match n with O => EmptyString | S n' => String "0" (zeros n') end.

Definition string_of_list (l : list ascii) : string :=
  fold_right String EmptyString l.

Definition exponent_str (x : Z) : string :=
  let a := pretty (Z.abs x) in
  (if x <? 0 then "-" else "+") +:+ (if Z.abs x <? 10 then "0" +:+ a else a).

(** [repr(f)] of a float: the shortest digits that round-trip, in fixed
    notation when the decimal point falls within [-4 < decpt <= 16]. *)
Definition float_repr (f : float64) : string :=
  match f with
  | S754_nan => "nan"
  | S754_infinity s => if s then "-inf" else "inf"
  | S754_zero s => if s then "-0.0" else "0.0"
  | S754_finite s m e =>
      let a := if 0 <=? e then Zpos m * 2 ^ e else Zpos m in
      let b := if 0 <=? e then 1 else 2 ^ (- e) in
      let k := find_decpt 640 a b (-323) in
      let '(d, p) := shortest 16 m e a b k 1 in
      let all := list_ascii_of_string (pretty d) in
      let ds := rev (rstrip0 (rev all)) in
      let decpt := k + (Z.of_nat (length all) - p) in
      let n := Z.of_nat (length ds) in
      let body :=
        if (decpt <=? -4) || (16 <? decpt) then
          match ds with
          | c :: rest =>
              String c
                (match rest with
                 | [] => EmptyString
                 | _ => String "." (string_of_list rest)
                 end) +:+ "e" +:+ exponent_str (decpt - 1)
          | [] => EmptyString
          end
        else if decpt <=? 0 then
          "0." +:+ zeros (Z.to_nat (- decpt)) +:+ string_of_list ds
        else if n <=? decpt then
          string_of_list ds +:+ zeros (Z.to_nat (decpt - n)) +:+ ".0"
        else
          string_of_list (take (Z.to_nat decpt) ds) +:+ "." +:+
          string_of_list (drop (Z.to_nat decpt) ds)
      in
      if s then "-" +:+ body else body
  end.

Fixpoint py_repr (v : pyval) : string :=
  match v with
  | PNone => "None"
  | PBool b => if b then "True" else "False"
  | PInt n => pretty n
  | PFloat f => float_repr f
  | PStr s => str_repr s
  | PList l =>
      "[" +:+
      (fix items (l : list pyval) : string :=
         match l with
         | [] => EmptyString
         | x :: l' =>
             py_repr x +:+
             match l' with [] => EmptyString | _ => ", " +:+ items l' end
         end) l +:+ "]"
  | PDict d =>
      "{" +:+
      (fix items (d : list (string * pyval)) : string :=
         match d with
         | [] => EmptyString
         | (k, x) :: d' =>
             str_repr k +:+ ": " +:+ py_repr x +:+
             match d' with [] => EmptyString | _ => ", " +:+ items d' end
         end) d +:+ "}"
  end.

(** [str(v)]. *)
Definition py_str (v : pyval) : string :=
  match v with
  | PStr s => s
  | _ => py_repr v
  end.

End Py.

(** ** The event normaliser (app/data_provider.py) *)

Module Normalizer.
Import Py.

#[export] Instance exn_ret : MRet (sum exn) := fun A a => inr a.
#[export] Instance exn_bind : MBind (sum exn) := fun A B f c =>
  match c with
  | inl e => inl e
  | inr a => f a
  end.

(** The per-player record
    [{"goals": 0, "assists": 0, "minutes": 0, "injury": False}]. *)
Record stats : Type := mkStats {
  s_goals : Z;
  s_assists : Z;
  s_minutes : Z;
  s_injury : bool
}.

Definition fresh : stats := mkStats 0 0 0 false.

(** [by_player]: a dictionary in insertion order. *)
Definition by_player : Type := list (string * stats).

(** [by_player.setdefault(k, fresh)], for its effect on the dictionary. *)
Fixpoint setdefault (k : string) (bp : by_player) : by_player :=
  match bp with
  | [] => [(k, fresh)]
  | (k', s) :: bp' =>
      if String.eqb k' k then bp else (k', s) :: setdefault k bp'
  end.

(** In-place update of the record stored under [k]. *)
Fixpoint update (k : string) (f : stats -> stats) (bp : by_player) : by_player :=
  match bp with
  | [] => []
  | (k', s) :: bp' =>
      if String.eqb k' k then (k', f s) :: bp' else (k', s) :: update k f bp'
  end.

(** <<
    def _ensure(pid):
        if pid is None:
            return None
        pid_s = str(pid)
        return by_player.setdefault(pid_s, {...})
    >>
    The record returned is the one stored under the key, so it is named by
    that key. *)
Definition key_of (pid : pyval) : option string :=
  match pid with
  | PNone => None
  | _ => Some (py_str pid)
  end.

Definition _ensure (pid : pyval) (bp : by_player) : by_player * option string :=
  match key_of pid with
  | None => (bp, None)
  | Some k => (setdefault k bp, Some k)
  end.

(** <<
    try:
        minute = int(ev.get("minute") or ev.get("min") or 0)
    except Exception:
        minute = 0
    >> *)
Definition minute_of (ev : list (string * pyval)) : Z :=
  match py_int (py_or (py_or (dict_get ev "minute") (dict_get ev "min")) (PInt 0)) with
  | Some n => n
  | None => 0
  end.

(** [(v or "").lower()]: only a string has [lower]. *)
Definition lower_or_empty (v : pyval) : exn + string :=
  match py_or v (PStr "") with
  | PStr s => inr (lower s)
  | _ => inl AttributeError
  end.

(** <<
    t = ev.get("type") or {}
    tname = ""
    if isinstance(t, dict):
        tname = (t.get("name") or "").lower()
    else:
        tname = str(t).lower() if t else ""
    >> *)
Definition type_name (ev : list (string * pyval)) : exn + string :=
  match py_or (dict_get ev "type") (PDict []) with
  | PDict t => lower_or_empty (dict_get t "name")
  | t => inr (if truthy t then lower (py_str t) else "")
  end.

(** <<
    if isinstance(player_obj, dict):
        pid = player_obj.get("id") or player_obj.get("player_id")
    else:
        pid = player_obj
    >> *)
Definition resolve_id (player_obj : pyval) : pyval :=
  match player_obj with
  | PDict p => py_or (dict_get p "id") (dict_get p "player_id")
  | _ => player_obj
  end.

(** [ev.get("player") or ev.get("player_id") or ev.get("playerId")]. *)
Definition main_player (ev : list (string * pyval)) : pyval :=
  py_or (py_or (dict_get ev "player") (dict_get ev "player_id")) (dict_get ev "playerId").

(** [r.get("player") or r.get("player_id") or r.get("id")]. *)
Definition related_player (r : list (string * pyval)) : pyval :=
  py_or (py_or (dict_get r "player") (dict_get r "player_id")) (dict_get r "id").

Definition is_goal (tname : string) : bool :=
  contains "goal" tname || contains "shot - goal" tname || startswith "goal" tname.

Definition is_injury (tname : string) : bool :=
  contains "injur" tname || contains "injury" tname || contains "injured" tname.

Definition is_assist (role : string) : bool :=
  contains "assist" role || contains "assister" role.

(** [rec["goals"] += 1; rec["minutes"] = max(rec["minutes"], minute)]. *)
Definition add_goal (minute : Z) (s : stats) : stats :=
  mkStats (s_goals s + 1) (s_assists s) (Z.max (s_minutes s) minute) (s_injury s).

(** [rec["injury"] = True]. *)
Definition set_injury (s : stats) : stats :=
  mkStats (s_goals s) (s_assists s) (s_minutes s) true.

(** [rrec["assists"] += 1; rrec["minutes"] = max(rrec["minutes"], minute)]. *)
Definition add_assist (minute : Z) (s : stats) : stats :=
  mkStats (s_goals s) (s_assists s + 1) (Z.max (s_minutes s) minute) (s_injury s).

(** The body of [for r in related]. *)
Definition process_related (minute : Z) (r : pyval) (bp : by_player)
  : exn + by_player :=
  match r with
  | PDict r =>
      role ← lower_or_empty (py_or (dict_get r "role") (dict_get r "type"));
      let rid := resolve_id (related_player r) in
      let '(bp, rrec) := _ensure rid bp in
      match rrec with
      | None => mret bp
      | Some k =>
          mret (if is_assist role then update k (add_assist minute) bp else bp)
      end
  | _ => mret bp
  end.

(** A [for] loop whose body may raise. *)
Fixpoint for_each {A S : Type} (body : A -> S -> exn + S) (l : list A) (s : S)
  : exn + S :=
  match l with
  | [] => mret s
  | a :: l' => s' ← body a s; for_each body l' s'
  end.

(** <<
    if "goal" in tname or "shot - goal" in tname or tname.startswith("goal"):
        if rec is not None:
            rec["goals"] += 1
            rec["minutes"] = max(rec["minutes"], minute)
    if "injur" in tname or "injury" in tname or "injured" in tname:
        if rec is not None:
            rec["injury"] = True
    >> *)
Definition credit_main (tname : string) (minute : Z) (rec : option string)
    (bp : by_player) : by_player :=
  let bp :=
    if is_goal tname then
      match rec with
      | Some k => update k (add_goal minute) bp
      | None => bp
      end
    else bp in
  if is_injury tname then
    match rec with
    | Some k => update k set_injury bp
    | None => bp
    end
  else bp.

(** [ev.get("related_players") or ev.get("relatedPlayers")
     or ev.get("related") or []]. *)
Definition related_of (ev : list (string * pyval)) : pyval :=
  py_or (py_or (py_or (dict_get ev "related_players") (dict_get ev "relatedPlayers"))
           (dict_get ev "related")) (PList []).

(** The body of [for ev in events]. *)
Definition process_event (ev : pyval) (bp : by_player) : exn + by_player :=
  match ev with
  | PDict ev =>
      let minute := minute_of ev in
      tname ← type_name ev;
      let pid := resolve_id (main_player ev) in
      let '(bp, rec) := _ensure pid bp in
      let bp := credit_main tname minute rec bp in
      match related_of ev with
      | PList related => for_each (process_related minute) related bp
      | _ => mret bp
      end
  | _ => mret bp
  end.

(** What [for x in v] iterates over. *)
Definition py_iter (v : pyval) : exn + list pyval :=
  match v with
  | PList l => inr l
  | PDict d => inr (map (fun kv => PStr kv.1) d)
  | PStr s => inr (map (fun c => PStr (String c EmptyString)) (list_ascii_of_string s))
  | _ => inl TypeError
  end.

(** <<
    events = []
    if isinstance(data, dict):
        events = data.get("events") or data.get("event") or []
    elif isinstance(data, list):
        events = data
    >> *)
Definition events_of (data : pyval) : pyval :=
  match data with
  | PDict d => py_or (py_or (dict_get d "events") (dict_get d "event")) (PList [])
  | PList _ => data
  | _ => PList []
  end.

(** The [StatUpdate] built from one item of [by_player]. *)
Definition emit (item : string * stats) : StatUpdate :=
  mkStat item.1 (s_goals item.2) (s_assists item.2) (s_minutes item.2)
    (s_injury item.2).

(** [process_statsbomb(data, callback)]: the updates handed to [callback],
    in order, or the exception the normaliser raises. *)
Definition process_statsbomb (data : pyval) : exn + list StatUpdate :=
  evs ← py_iter (events_of data);
  bp ← for_each process_event evs [];
  mret (map emit bp).

(** *** Minutes credited to a player

    The minute marks that the classification rules credit to the player
    stored under [key]: one for each goal event of which the player is the
    primary athlete and one for each related entry that credits the player
    with an assist. *)
Definition credits_related (key : string) (minute : Z) (r : pyval) : list Z :=
  match r with
  | PDict r =>
      match lower_or_empty (py_or (dict_get r "role") (dict_get r "type")),
            key_of (resolve_id (related_player r)) with
      | inr role, Some k =>
          if is_assist role && String.eqb k key then [minute] else []
      | _, _ => []
      end
  | _ => []
  end.

Definition credits_main (key : string) (ev : list (string * pyval)) : list Z :=
  match type_name ev, key_of (resolve_id (main_player ev)) with
  | inr tname, Some k =>
      if is_goal tname && String.eqb k key then [minute_of ev] else []
  | _, _ => []
  end.

Definition credits_event (key : string) (ev : pyval) : list Z :=
  match ev with
  | PDict ev =>
      credits_main key ev ++
      match related_of ev with
      | PList related => flat_map (credits_related key (minute_of ev)) related
      | _ => []
      end
  | _ => []
  end.

Definition credited_minutes (key : string) (data : pyval) : list Z :=
  match py_iter (events_of data) with
  | inr evs => flat_map (credits_event key) evs
  | inl _ => []
  end.

(** [max] over the marks, starting from the record's initial 0. *)
Definition max_minute (marks : list Z) : Z := fold_right Z.max 0 marks.

(** The minute marks of all the events of which the player stored under
    [key] is the primary athlete. *)
Definition event_minutes (key : string) (data : pyval) : list Z :=
  match py_iter (events_of data) with
  | inr evs =>
      flat_map (fun ev =>
        match ev with
        | PDict ev =>
            match key_of (resolve_id (main_player ev)) with
            | Some k => if String.eqb k key then [minute_of ev] else []
            | None => []
            end
        | _ => []
        end) evs
  | inl _ => []
  end.

(** *** Payloads of the test-suite and of the scenarios *)

(** The event [{"type": {"name": tname}, "player": {"id": pid},
    "minute": minute}]. *)
Definition event (tname : string) (pid minute : Z) : pyval :=
  PDict [("type", PDict [("name", PStr tname)]);
         ("player", PDict [("id", PInt pid)]);
         ("minute", PInt minute)].

(** The payload [{"events": evs}]. *)
Definition events (evs : list pyval) : pyval := PDict [("events", PList evs)].

(** Goals at minutes 20 and 75 for player 999. *)
Definition two_goals : pyval := events [event "Goal" 999 20; event "Goal" 999 75].

(** A goal at minute 20 and an injury at minute 75 for player 999. *)
Definition goal_then_injury : pyval :=
  events [event "Goal" 999 20; event "Injury" 999 75].

(** The type name of the event is a number. *)
Definition numeric_type_name : pyval :=
  events [PDict [("type", PDict [("name", PInt 5)]);
                 ("player", PDict [("id", PInt 1)]);
                 ("minute", PInt 10)]].

(** The role of the related entry is a number. *)
Definition numeric_role : pyval :=
  events [PDict [("type", PDict [("name", PStr "Goal")]);
                 ("player", PDict [("id", PInt 1)]);
                 ("minute", PInt 10);
                 ("related_players",
                  PList [PDict [("player", PDict [("id", PInt 2)]);
                                ("role", PInt 7)]])]].

(** [{"events": 5}]. *)
Definition numeric_events : pyval := PDict [("events", PInt 5)].

(** The player object carries id 0 twice: [{"id": 0, "player_id": 0}]. *)
Definition zero_player_object : pyval :=
  events [PDict [("type", PDict [("name", PStr "Goal")]);
                 ("player", PDict [("id", PInt 0); ("player_id", PInt 0)]);
                 ("minute", PInt 10)]].

(** The related entry carries id 0: [{"id": 0, "role": "assist"}]. *)
Definition zero_related_entry : pyval :=
  events [PDict [("type", PDict [("name", PStr "Pass")]);
                 ("minute", PInt 10);
                 ("related_players",
                  PList [PDict [("id", PInt 0); ("role", PStr "assist")]])]].

(** The player object carries only [{"id": 0}], for the event and for its
    related entry. *)
Definition zero_id_only : pyval :=
  events [PDict [("type", PDict [("name", PStr "Goal")]);
                 ("player", PDict [("id", PInt 0)]);
                 ("minute", PInt 10);
                 ("related_players",
                  PList [PDict [("player", PDict [("id", PInt 0)]);
                                ("role", PStr "assist")]])]].

(** The records of [by_player] against the marks [c k] credited so far to
    each key. *)
Definition Inv (c : string -> list Z) (bp : by_player) : Prop :=
  NoDup bp.*1 /\
  (forall k s, (k, s) ∈ bp -> s_minutes s = max_minute (c k)) /\
  (forall k, k ∉ bp.*1 -> c k = []).

End Normalizer.
(** ** What the normaliser computes, player by player *)

Module Summary.
Import Py Normalizer.

(** *** What the events of a payload give to a player *)

(** What one event, or one related entry, gives to a player: a mention
    (which creates the player's record), a goal or an assist at a minute
    mark, an injury. *)
Inductive credit : Type :=
| Mentioned
| Scored (minute : Z)
| Hurt
| Assisted (minute : Z).

(** What an event gives to the player stored under [key] as its primary
    athlete. *)
Definition main_credits (key : string) (ev : list (string * pyval)) : list credit :=
  match type_name ev, key_of (resolve_id (main_player ev)) with
  | inr tname, Some k =>
      if String.eqb k key then
        Mentioned :: (if is_goal tname then [Scored (minute_of ev)] else [])
                  ++ (if is_injury tname then [Hurt] else [])
      else []
  | _, _ => []
  end.

(** What a related entry of an event at [minute] gives to the player. *)
Definition related_credits (key : string) (minute : Z) (r : pyval) : list credit :=
  match r with
  | PDict r =>
      match lower_or_empty (py_or (dict_get r "role") (dict_get r "type")),
            key_of (resolve_id (related_player r)) with
      | inr role, Some k =>
          if String.eqb k key then
            Mentioned :: (if is_assist role then [Assisted minute] else [])
          else []
      | _, _ => []
      end
  | _ => []
  end.

(** What an event gives to the player, its related entries included. *)
Definition event_credits (key : string) (ev : pyval) : list credit :=
  match ev with
  | PDict ev =>
      main_credits key ev ++
      match related_of ev with
      | PList related => flat_map (related_credits key (minute_of ev)) related
      | _ => []
      end
  | _ => []
  end.

(** What a series of events gives to the player, in order. *)
Definition credits (key : string) (evs : list pyval) : list credit :=
  flat_map (event_credits key) evs.

Definition is_scored (c : credit) : bool :=
  match c with Scored _ => true | _ => false end.

Definition is_assisted (c : credit) : bool :=
  match c with Assisted _ => true | _ => false end.

Definition is_hurt (c : credit) : bool :=
  match c with Hurt => true | _ => false end.

(** The number of goals among the credits. *)
Definition goals_of (l : list credit) : Z :=
  Z.of_nat (length (List.filter is_scored l)).

(** The number of assists among the credits. *)
Definition assists_of (l : list credit) : Z :=
  Z.of_nat (length (List.filter is_assisted l)).

(** The minute marks of the goals and assists among the credits. *)
Definition marks_of (l : list credit) : list Z :=
  flat_map (fun c => match c with Scored m | Assisted m => [m] | _ => [] end) l.

(** Whether an injury is among the credits. *)
Definition hurt_in (l : list credit) : bool :=
  existsb is_hurt l.

(** The update that sums up the credits of a player. *)
Definition summary (key : string) (l : list credit) : StatUpdate :=
  mkStat key (goals_of l) (assists_of l) (max_minute (marks_of l)) (hurt_in l).

(** The record after one more credit, as the code updates it. *)
Definition give (s : stats) (c : credit) : stats :=
  match c with
  | Mentioned => s
  | Scored m => add_goal m s
  | Hurt => set_injury s
  | Assisted m => add_assist m s
  end.

(** The record after a series of credits, from the initial record. *)
Definition tally (l : list credit) : stats := fold_left give l fresh.

(** The records of [by_player] against the credits [c k] given so far:
    every record is the tally of its key's credits, and the keys on record
    are those that have a credit. *)
Definition Tallied (c : string -> list credit) (bp : by_player) : Prop :=
  NoDup bp.*1 /\
  (forall k s, (k, s) ∈ bp -> s = tally (c k)) /\
  (forall k, k ∈ bp.*1 <-> c k <> []).

(** The credits of a player in a payload. *)
Definition credits_in (key : string) (data : pyval) : list credit :=
  match py_iter (events_of data) with
  | inr evs => credits key evs
  | inl _ => []
  end.

(** *** Payloads on which the normaliser returns *)

(** A string, or a value that [or] replaces by its alternative. *)
Definition str_or_falsy (v : pyval) : bool :=
  match v with
  | PStr _ => true
  | _ => negb (truthy v)
  end.

(** The role of a related entry can be lowered. *)
Definition role_ok (r : pyval) : bool :=
  match r with
  | PDict r => str_or_falsy (py_or (dict_get r "role") (dict_get r "type"))
  | _ => true
  end.

(** The type name of an event and the roles of its related entries can be
    lowered. *)
Definition event_ok (ev : pyval) : bool :=
  match ev with
  | PDict ev =>
      match py_or (dict_get ev "type") (PDict []) with
      | PDict t => str_or_falsy (dict_get t "name")
      | _ => true
      end &&
      match related_of ev with
      | PList related => forallb role_ok related
      | _ => true
      end
  | _ => true
  end.

(** [isinstance(v, dict)]. *)
Definition is_dict (v : pyval) : bool :=
  match v with PDict _ => true | _ => false end.

(** *** The players a payload names *)

(** The event names the player stored under [key] as its primary athlete:
    the identifier that [_ensure] is given is not None and its [str] is
    [key]. *)
Definition names_main (key : string) (ev : list (string * pyval)) : bool :=
  bool_decide (key_of (resolve_id (main_player ev)) = Some key).

(** The related entry names the player. *)
Definition names_related (key : string) (r : pyval) : bool :=
  match r with
  | PDict r => bool_decide (key_of (resolve_id (related_player r)) = Some key)
  | _ => false
  end.

(** The event names the player, as its primary athlete or in one of its
    related entries. *)
Definition names (key : string) (ev : pyval) : bool :=
  match ev with
  | PDict ev =>
      names_main key ev ||
      match related_of ev with
      | PList related => existsb (names_related key) related
      | _ => false
      end
  | _ => false
  end.

(** Some event of the payload names the player. *)
Definition named_in (key : string) (data : pyval) : bool :=
  match py_iter (events_of data) with
  | inr evs => existsb (names key) evs
  | inl _ => false
  end.

(** A goal whose only identifier is the event's own ["playerId": 0]. *)
Definition zero_playerId : pyval :=
  events [PDict [("type", PDict [("name", PStr "Goal")]);
                 ("playerId", PInt 0);
                 ("minute", PInt 10)]].

End Summary.

(** ** Pricing a payload (app/integrate_statsbomb_pricing.py) *)

Module Integrate.
Import Pricing Py Normalizer.

(** The emission loop of [process_statsbomb] with [_cb_apply] as its
    callback: <<
    for pid, stats in by_player.items():
        stat = StatUpdate(...)
        await callback(stat)        # await engine.apply_stat(stat)
    >> *)
Fixpoint apply_all (out : list StatUpdate) (eng : PricingEngine)
    (log : list log_line) : PricingEngine * list log_line * (exn + unit) :=
  match out with
  | [] => (eng, log, inr tt)
  | stat :: out' =>
      match run_alone (Simple.apply_stat stat) eng log with
      | (eng', log', inr _) => apply_all out' eng' log'
      | (eng', log', inl e) => (eng', log', inl e)
      end
  end.

(** <<
    async def run(path):
        payload = json.load(f)
        engine = PricingEngine()
        await process_statsbomb(payload, lambda s: _cb_apply(engine, s))
    >>
    The engine and the lines printed when [run] ends, and how it ends. *)
Definition run (payload : pyval) : PricingEngine * list log_line * (exn + unit) :=
  let engine := new f1000 in
  match process_statsbomb payload with
  | inl e => (engine, [], inl e)
  | inr out => apply_all out engine []
  end.

End Integrate.

(** ** The pricing callback (app/main.py, app/main_production.py) *)

Module App.
Import Pricing Py.

(** The message of app/main.py:
    [{"type": "price_update", "player_id": ..., "price": ...}]. *)
Definition price_update (stat : StatUpdate) (price : float64) : pyval :=
  PDict [("type", PStr "price_update");
         ("player_id", PStr (player_id stat));
         ("price", PFloat price)].

(** The message of app/main_production.py, which adds the stat's fields. *)
Definition price_update_production (stat : StatUpdate) (price : float64) : pyval :=
  PDict [("type", PStr "price_update");
         ("player_id", PStr (player_id stat));
         ("price", PFloat price);
         ("goals", PInt (goals stat));
         ("assists", PInt (assists stat));
         ("minutes", PInt (minutes stat));
         ("injury", PBool (injury stat))].

Section Callback.

(** The message built for a stat and a price, and [broadcast] as a
    procedure on the state of the hub that returns or raises. *)
Context {World : Type}.
Variable message : StatUpdate -> float64 -> pyval.
Variable broadcast : pyval -> World -> (exn + unit) * World.

(** <<
    async def pricing_callback(stat):
        global pricing_engine
        if pricing_engine:
            await pricing_engine.apply_stat(stat)
            await broadcast({
                "type": "price_update",
                "player_id": stat.player_id,
                "price": pricing_engine.prices.get(str(stat.player_id), 1000.0)
            })
    >> *)
Definition pricing_callback (stat : StatUpdate) (pricing_engine : option PricingEngine)
    (log : list log_line) (w : World)
  : option PricingEngine * list log_line * World * (exn + unit) :=
  match pricing_engine with
  | None => (None, log, w, inr tt)
  | Some eng =>
      match run_alone (apply_stat stat) eng log with
      | (eng', log', inl e) => (Some eng', log', w, inl e)
      | (eng', log', inr _) =>
          let price := default f1000 (prices eng' !! player_id stat) in
          let '(r, w') := broadcast (message stat price) w in
          (Some eng', log', w', r)
      end
  end.

End Callback.

End App.


(** ** The live match feed (app/api_football_client.py) *)

Module Feed.

Record PlayerEvent : Type := mkEvent {
  player_id : Z;
  player_name : string;
  team : string;
  event_type : string;
  minute : Z;
  detail : string
}.

(** The client of the feed: the keys read from the environment, where the
    provider is polled and what it answers for a fixture
    ([get_fixture_events]). *)
Record APIFootballClient : Type := mkClient {
  api_key : option string;
  rapid_key : option string;
  base_url : string;
  get_fixture_events : Z -> exn + list PlayerEvent
}.

Definition API_HOST_DIRECT : string := "v3.football.api-sports.io".

(** [if key:] for what [os.getenv] returned: a string that is not empty. *)
Definition configured (key : option string) : bool :=
  match key with
  | Some s => negb (String.eqb s "")
  | None => false
  end.

(** <<
    def __init__(self):
        self.api_key = os.getenv('API_FOOTBALL_KEY')
        self.rapid_key = os.getenv('RAPIDAPI_KEY')
        if self.api_key:
            self.base_url = f'https://{API_HOST_DIRECT}'
            ...
        elif self.rapid_key:
            self.base_url = f'https://{API_HOST_DIRECT}'
            ...
        else:
            raise RuntimeError('No API-Football key configured')
    >>
    [API_FOOTBALL_KEY] and [RAPIDAPI_KEY] are the values of the environment
    variables; [answers] is the provider that the requests reach. *)
Definition APIFootballClient_init (API_FOOTBALL_KEY RAPIDAPI_KEY : option string)
    (answers : Z -> exn + list PlayerEvent) : exn + APIFootballClient :=
  if configured API_FOOTBALL_KEY then
    inr (mkClient API_FOOTBALL_KEY RAPIDAPI_KEY ("https://" +:+ API_HOST_DIRECT) answers)
  else if configured RAPIDAPI_KEY then
    inr (mkClient API_FOOTBALL_KEY RAPIDAPI_KEY ("https://" +:+ API_HOST_DIRECT) answers)
  else inl RuntimeError.

(** A price read from the engine (a float) or the default [1000] (an int). *)
Inductive number : Type :=
| Int (n : Z)
| Float (f : float64).

(** The ["live_event"] message handed to the broadcast callback. *)
Record live_event : Type := mkLive {
  le_fixture_id : Z;
  le_player_id : string;
  le_player_name : string;
  le_event : string;
  le_detail : string;
  le_minute : Z;
  le_price : number
}.

Record LiveMatchFeed : Type := mkFeed {
  client : APIFootballClient;
  pricing_engine : option Pricing.PricingEngine;
  processed_events : gset string;
  player_mapping : gmap Z string
}.

(** [f"{fixture_id}_{event.player_id}_{event.event_type}_{event.minute}"]. *)
Definition event_key (fixture_id : Z) (event : PlayerEvent) : string :=
  pretty fixture_id +:+ "_" +:+ pretty (player_id event) +:+ "_" +:+
  event_type event +:+ "_" +:+ pretty (minute event).

(** [self.processed_events.add(event_key)]. *)
Definition add_key (key : string) (feed : LiveMatchFeed) : LiveMatchFeed :=
  mkFeed (client feed) (pricing_engine feed) ({[key]} ∪ processed_events feed)
    (player_mapping feed).

(** [self.player_mapping.get(event.player_id, str(event.player_id))]. *)
Definition our_player_id (feed : LiveMatchFeed) (event : PlayerEvent) : string :=
  default (pretty (player_id event)) (player_mapping feed !! player_id event).

(** [self.pricing_engine.prices.get(our_player_id, 1000)
     if self.pricing_engine else 1000]. *)
Definition price_of (feed : LiveMatchFeed) (pid : string) : number :=
  match pricing_engine feed with
  | Some eng =>
      match Pricing.prices eng !! pid with
      | Some p => Float p
      | None => Int 1000
      end
  | None => Int 1000
  end.

Definition message (feed : LiveMatchFeed) (fixture_id : Z) (event : PlayerEvent)
  : live_event :=
  mkLive fixture_id (our_player_id feed event) (player_name event)
    (event_type event) (detail event) (minute event)
    (price_of feed (our_player_id feed event)).

Section WithCallback.

(** The broadcast callback given to the feed: any stateful procedure that
    returns or raises. *)
Variable World : Type.
Variable broadcast : live_event -> World -> (exn + unit) * World.

(** <<
    for event in events:
        event_key = f"..."
        if event_key in self.processed_events:
            continue
        self.processed_events.add(event_key)
        our_player_id = ...
        await self.broadcast({...})
    >>
    The result carries the events handed to [broadcast], in order, and the
    exception that ended the loop, if any. *)
Fixpoint process_events (fixture_id : Z) (events : list PlayerEvent)
    (feed : LiveMatchFeed) (w : World)
  : LiveMatchFeed * World * list PlayerEvent * option exn :=
  match events with
  | [] => (feed, w, [], None)
  | event :: events' =>
      let key := event_key fixture_id event in
      if decide (key ∈ processed_events feed) then
        process_events fixture_id events' feed w
      else
        let feed := add_key key feed in
        match broadcast (message feed fixture_id event) w with
        | (inr _, w) =>
            let '(feed', w', passed, err) :=
              process_events fixture_id events' feed w in
            (feed', w', event :: passed, err)
        | (inl e, w) => (feed, w, [event], Some e)
        end
  end.

(** <<
    async def _process_fixture(self, fixture_id):
        try:
            events = await self.client.get_fixture_events(fixture_id)
            for event in events: ...
        except Exception as e:
            print(f"Error processing fixture {fixture_id}: {e}")
    >>
    The exception, if any, is caught and printed. *)
Definition _process_fixture (fixture_id : Z) (feed : LiveMatchFeed) (w : World)
  : LiveMatchFeed * World * list PlayerEvent * option exn :=
  match get_fixture_events (client feed) fixture_id with
  | inl e => (feed, w, [], Some e)
  | inr events => process_events fixture_id events feed w
  end.

End WithCallback.

(** A callback that records the messages it is given and never raises. *)
Definition record_message (msg : live_event) (w : list live_event)
  : (exn + unit) * list live_event :=
  (inr tt, w ++ [msg]).

(** *** Scenarios *)

(** No underscore occurs in [s]. *)
Fixpoint plain (s : string) : bool :=
  match s with
  | EmptyString => true
  | String c s' => negb (Ascii.eqb c "_") && plain s'
  end.

(** A goal of player 10 at minute 23. *)
Definition goal_event : PlayerEvent :=
  mkEvent 10 "A. Striker" "Home" "Goal" 23 "Normal Goal".

(** The same goal with another detail text. *)
Definition goal_event_var : PlayerEvent :=
  mkEvent 10 "A. Striker" "Home" "Goal" 23 "Penalty".

Definition other_event : PlayerEvent :=
  mkEvent 11 "B. Winger" "Away" "Card" 40 "Yellow Card".

(** A provider that reports the goal for every fixture. *)
Definition goal_provider (fixture_id : Z) : exn + list PlayerEvent :=
  inr [goal_event].

(** The client constructed when [API_FOOTBALL_KEY] is set. *)
Definition provider_direct : APIFootballClient :=
  mkClient (Some "direct-key") None "https://v3.football.api-sports.io" goal_provider.

(** The client constructed when only [RAPIDAPI_KEY] is set. *)
Definition provider_rapid : APIFootballClient :=
  mkClient None (Some "rapid-key") "https://v3.football.api-sports.io" goal_provider.

(** A provider that returns one goal twice in a batch. *)
Definition provider_repeating : APIFootballClient :=
  mkClient (Some "direct-key") None "https://v3.football.api-sports.io"
    (fun _ => inr [goal_event; other_event; goal_event]).

(** [LiveMatchFeed(client, None, broadcast)]: the seen-set and the player
    mapping are created empty. *)
Definition fresh_feed (c : APIFootballClient) : LiveMatchFeed := mkFeed c None ∅ ∅.

End Feed.
(** ** The polling loop of the live match feed (app/api_football_client.py) *)

Module Poll.
Import Feed.
Section WithCallback.

Variable World : Type.
Variable broadcast : live_event -> World -> (exn + unit) * World.

(** <<
    for fid in fixture_ids:
        await self._process_fixture(fid)
    >>
    [_process_fixture] catches what it raises, so the loop reaches every
    fixture.  The result carries the events handed to [broadcast], each with
    its fixture, and the exception caught for each fixture, if any. *)
Fixpoint process_fixtures (fixture_ids : list Z) (feed : LiveMatchFeed) (w : World)
  : LiveMatchFeed * World * list (Z * PlayerEvent) * list (option exn) :=
  match fixture_ids with
  | [] => (feed, w, [], [])
  | fid :: rest =>
      let '(feed1, w1, passed, err) := _process_fixture World broadcast fid feed w in
      let '(feed2, w2, passed', errs) := process_fixtures rest feed1 w1 in
      (feed2, w2, ((fun ev => (fid, ev)) <$> passed) ++ passed', err :: errs)
  end.

(** One turn of [_poll_loop]: <<
    try:
        if fixture_ids:
            for fid in fixture_ids:
                await self._process_fixture(fid)
        else:
            live_matches = await self.client.get_live_fixtures()
            for match in live_matches:
                await self._process_fixture(match.fixture_id)
        await asyncio.sleep(self.poll_interval)
    except Exception as e:
        print(f"Error in live feed: {e}")
        await asyncio.sleep(self.poll_interval)
    >>
    [live] is what [get_live_fixtures] answers: the fixture ids of the live
    matches, or an exception. *)
Definition poll_once (fixture_ids : list Z) (live : exn + list Z)
    (feed : LiveMatchFeed) (w : World)
  : LiveMatchFeed * World * list (Z * PlayerEvent) * list (option exn) :=
  match fixture_ids with
  | _ :: _ => process_fixtures fixture_ids feed w
  | [] =>
      match live with
      | inr fids => process_fixtures fids feed w
      | inl e => (feed, w, [], [Some e])
      end
  end.

End WithCallback.

(** The key of an event handed on for a fixture. *)
Definition key_of_passed (p : Z * PlayerEvent) : string := event_key p.1 p.2.

End Poll.


(** ** The broadcast hub (app/main.py, app/main_production.py) *)

Module Hub.

(** A WebSocket connection: whether it is still open and what it has been
    sent.  [send_json] on a closed connection raises. *)
Record WebSocket (M : Type) : Type := mkSocket {
  is_open : bool;
  sent : list M
}.
Arguments mkSocket {M} is_open sent.
Arguments is_open {M} w.
Arguments sent {M} w.

(** The module state: the list [clients] of connection handles, and the
    connections behind the handles. *)
Record State (M : Type) : Type := mkState {
  clients : list nat;
  sockets : gmap nat (WebSocket M)
}.
Arguments mkState {M} clients sockets.
Arguments clients {M} s.
Arguments sockets {M} s.

Section Broadcast.
Context {M : Type}.

(** [await ws.send_json(message)]. *)
Definition send_json (ws : nat) (message : M) (st : State M) : (exn + unit) * State M :=
  match sockets st !! ws with
  | Some sock =>
      if is_open sock then
        (inr tt,
         mkState (clients st)
           (<[ws := mkSocket true (sent sock ++ [message])]> (sockets st)))
      else (inl RuntimeError, st)
  | None => (inl RuntimeError, st)
  end.

(** <<
    for ws in clients:
        try:
            await ws.send_json(message)
        except Exception:
            to_remove.append(ws)
    >>
    The loop reads the live list [clients] at index [i] on every turn and
    ends when the index passes its end.  [None]: out of fuel. *)
Fixpoint deliver (fuel : nat) (message : M) (i : nat) (st : State M)
    (to_remove : list nat) : option (State M * list nat) :=
  match clients st !! i with
  | None => Some (st, to_remove)
  | Some ws =>
      match fuel with
      | O => None
      | S fuel' =>
          match send_json ws message st with
          | (inr _, st') => deliver fuel' message (S i) st' to_remove
          | (inl _, st') => deliver fuel' message (S i) st' (to_remove ++ [ws])
          end
      end
  end.

(** [clients.remove(ws)]: drops the first occurrence; ValueError when there
    is none. *)
Fixpoint remove (ws : nat) (l : list nat) : exn + list nat :=
  match l with
  | [] => inl ValueError
  | x :: l' =>
      if decide (x = ws) then inr l'
      else match remove ws l' with
           | inr l'' => inr (x :: l'')
           | inl e => inl e
           end
  end.

(** <<
    for ws in to_remove:
        clients.remove(ws)
    >> *)
Fixpoint evict (to_remove : list nat) (st : State M) : exn + State M :=
  match to_remove with
  | [] => inr st
  | ws :: rest =>
      match remove ws (clients st) with
      | inr l => evict rest (mkState l (sockets st))
      | inl e => inl e
      end
  end.

(** [broadcast(message)]. *)
Definition broadcast (fuel : nat) (message : M) (st : State M)
  : option (exn + State M) :=
  match deliver fuel message 0 st [] with
  | Some (st', to_remove) => Some (evict to_remove st')
  | None => None
  end.

(** Delivery to [ws] does not fail. *)
Definition alive (st : State M) (ws : nat) : bool :=
  match sockets st !! ws with
  | Some sock => is_open sock
  | None => false
  end.

(** What [ws] has been sent. *)
Definition inbox (st : State M) (ws : nat) : list M :=
  match sockets st !! ws with
  | Some sock => sent sock
  | None => []
  end.

(** The handles whose delivery fails, in order. *)
Definition failing (st : State M) (l : list nat) : list nat :=
  filter (fun ws => alive st ws = false) l.

(** The handles whose delivery succeeds, in order. *)
Definition surviving (st : State M) (l : list nat) : list nat :=
  filter (fun ws => alive st ws = true) l.

End Broadcast.

(** The number of times [ws] occurs in [l]. *)
Definition occurrences (ws : nat) (l : list nat) : nat :=
  length (filter (fun x => x = ws) l).

(** The state after sending to each handle of [l] in turn. *)
Definition send_all {M : Type} (message : M) (l : list nat) (st : State M)
  : State M :=
  fold_left (fun st ws => (send_json ws message st).2) l st.

(** Three subscribers; the connection of the second one is closed. *)
Definition three_clients : State string :=
  mkState [1%nat; 2%nat; 3%nat]
    (<[1%nat := mkSocket true []]>
       (<[2%nat := mkSocket false []]>
          (<[3%nat := mkSocket true ["snapshot"]]> ∅))).

End Hub.
(** ** Subscribers over time (app/main.py, app/main_production.py) *)

Module Subscribers.
Import Hub.

(** Successive broadcasts, each awaited before the next one is made. *)
Fixpoint broadcast_all {M : Type} (messages : list M) (st : State M)
  : option (exn + State M) :=
  match messages with
  | [] => Some (inr st)
  | message :: rest =>
      match broadcast (length (clients st)) message st with
      | Some (inr st') => broadcast_all rest st'
      | r => r
      end
  end.

(** <<
    @app.websocket("/ws/prices")
    async def ws_prices(ws):
        await ws.accept()
        clients.append(ws)
        try:
            await ws.send_json({"type": "snapshot", ...})
            ...
    >>
    up to the end of the snapshot: [ws] names the connection just accepted. *)
Definition ws_prices {M : Type} (ws : nat) (snapshot : M) (st : State M)
  : (exn + unit) * State M :=
  let accepted := mkState (clients st) (<[ws := mkSocket true []]> (sockets st)) in
  let appended := mkState (clients accepted ++ [ws]) (sockets accepted) in
  send_json ws snapshot appended.

End Subscribers.


(** ** Event sources: start (app/simulator.py, app/data_provider.py,
    app/api_football_client.py) *)

Module Sources.

(** The event loop, as far as [start] is concerned: the tasks created so
    far, named by their number. *)
Record EventLoop : Type := mkLoop {
  tasks : list nat
}.

(** [asyncio.create_task(coro)]: a new task is scheduled; its handle is
    returned. *)
Definition create_task (loop : EventLoop) : nat * EventLoop :=
  (length (tasks loop), mkLoop (tasks loop ++ [length (tasks loop)])).

(** The lifecycle fields of a source: [_running] and [_task]
    ([running] and [task] in LiveDataProvider). *)
Record Source : Type := mkSource {
  _running : bool;
  _task : option nat
}.

(** A source as constructed: idle, no task. *)
Definition idle : Source := mkSource false None.

(** <<
    class Simulator:
        async def start(self):
            if self._running:
                return
            self._running = True
            self._task = asyncio.create_task(self._run())
    >> *)
Definition Simulator_start (s : Source) (loop : EventLoop) : Source * EventLoop :=
  if _running s then (s, loop)
  else
    let '(t, loop') := create_task loop in
    (mkSource true (Some t), loop').

(** <<
    class LiveDataProvider:
        async def start(self):
            self.running = True
            self.task = asyncio.create_task(self._poll_loop())
    >> *)
Definition LiveDataProvider_start (s : Source) (loop : EventLoop)
  : Source * EventLoop :=
  let '(t, loop') := create_task loop in
  (mkSource true (Some t), loop').

(** <<
    class LiveMatchFeed:
        async def start(self, fixture_ids=None):
            self._running = True
            self._task = asyncio.create_task(self._poll_loop(fixture_ids))
    >> *)
Definition LiveMatchFeed_start (s : Source) (loop : EventLoop)
  : Source * EventLoop :=
  let '(t, loop') := create_task loop in
  (mkSource true (Some t), loop').

End Sources.
(** ** Event sources: stop, and series of calls *)

Module Lifecycle.
Import Sources.

(** The event loop together with the tasks on which [cancel()] has been
    called, in the order of the calls. *)
Record Runtime : Type := mkRuntime {
  loop : EventLoop;
  cancelled : list nat
}.

(** No task has been created. *)
Definition boot : Runtime := mkRuntime (mkLoop []) [].

(** [Simulator.stop] and [LiveMatchFeed.stop]: <<
    async def stop(self):
        self._running = False
        if self._task:
            self._task.cancel()
    >>
    [LiveDataProvider.stop] then awaits the cancelled task: <<
        if self.task:
            self.task.cancel()
            try:
                await self.task
            except asyncio.CancelledError:
                pass
    >> *)
Definition stop (s : Source) (rt : Runtime) : Source * Runtime :=
  (mkSource false (_task s),
   match _task s with
   | Some t => mkRuntime (loop rt) (cancelled rt ++ [t])
   | None => rt
   end).

(** A call of [start()] or of [stop()]. *)
Inductive call : Type := Start | Stop.

(** One call on a source whose [start] is [start]. *)
Definition step (start : Source -> EventLoop -> Source * EventLoop) (c : call)
    (st : Source * Runtime) : Source * Runtime :=
  match c with
  | Start =>
      let '(s', loop') := start st.1 (loop st.2) in
      (s', mkRuntime loop' (cancelled st.2))
  | Stop => stop st.1 st.2
  end.

(** A series of calls on a source just constructed. *)
Definition run (start : Source -> EventLoop -> Source * EventLoop)
    (calls : list call) : Source * Runtime :=
  fold_left (fun st c => step start c st) calls (idle, boot).

(** The tasks created and never cancelled. *)
Definition pending (rt : Runtime) : list nat :=
  filter (fun t => t ∉ cancelled rt) (tasks (loop rt)).

(** What a simulator keeps true: only tasks that exist are cancelled or
    held, and the only task not cancelled is the one of a running
    simulator. *)
Definition Tidy (st : Source * Runtime) : Prop :=
  (forall t, t ∈ cancelled st.2 -> (t < length (tasks (loop st.2)))%nat) /\
  (forall t, _task st.1 = Some t -> (t < length (tasks (loop st.2)))%nat) /\
  pending st.2 = match _task st.1 with
                 | Some t => if _running st.1 then [t] else []
                 | None => []
                 end /\
  (_running st.1 = true -> is_Some (_task st.1)).

End Lifecycle.


(** * Properties of binary64 rounding *)

Module Float64Facts.

(** The literals are the binary64 values of the decimal numerals. *)
Example literals_are_binary64 :
  Prim2SF 100%float = f100 /\ Prim2SF 50%float = f50 /\
  Prim2SF 0x1.999999999999ap-4%float = f0_1 /\
  Prim2SF 0x1.6666666666666p-1%float = f0_7 /\
  Prim2SF 1000%float = f1000 /\ Prim2SF 1100%float = f1100 /\
  Prim2SF 1200%float = f1200 /\ Prim2SF 1009%float = f1009 /\
  Prim2SF 700%float = f700 /\ Prim2SF 1204.5%float = f1204_5 /\
  Prim2SF 1207.5%float = f1207_5.
Proof. vm_compute. repeat split; reflexivity. Qed.

Example more_literals_are_binary64 :
  Prim2SF 0.125%float = f0_125 /\ Prim2SF 0x1.eb851eb851eb8p-4%float = f0_12.
Proof. vm_compute. split; reflexivity. Qed.

(** [nearest] agrees with the standard library's correctly rounded division
    on the samples. *)
Example nearest_agrees_with_SFdiv :
  map (fun ab => nearest false ab.1 ab.2) nearest_samples
  = map (fun ab => SFdiv_of_Z ab.1 ab.2) nearest_samples.
Proof. vm_compute. reflexivity. Qed.

(** Known values of Python's [round(x, 2)]:
    round(2.675, 2) = 2.67, round(0.125, 2) = 0.12, round(0.375, 2) = 0.38,
    round(1207.5, 2) = 1207.5, round(-0.001, 2) = -0.0. *)
Example py_round2_samples :
  py_round2 (Prim2SF 0x1.5666666666666p+1%float) = Prim2SF 0x1.55c28f5c28f5cp+1%float /\
  py_round2 (Prim2SF 0.125%float) = Prim2SF 0x1.eb851eb851eb8p-4%float /\
  py_round2 (Prim2SF 0.375%float) = Prim2SF 0x1.851eb851eb852p-2%float /\
  py_round2 (Prim2SF 1207.5%float) = Prim2SF 1207.5%float /\
  py_round2 (Prim2SF (-0x1.0624dd2f1a9fcp-10)%float) = S754_zero true.
Proof. vm_compute. repeat split; reflexivity. Qed.


Lemma rne_div_bounds a b :
  0 < b -> 2 * b * rne_div a b - b <= 2 * a <= 2 * b * rne_div a b + b.
Proof.
  intros Hb. unfold rne_div.
  set (q := a / b). set (r := a mod b).
  assert (Ha : a = b * q + r) by (apply Z.div_mod; lia).
  assert (Hr : 0 <= r < b) by (apply Z.mod_pos_bound; lia).
  clearbody q r. subst a.
  destruct (Z.compare_spec (2 * r) b) as [C|C|C];
    [destruct (Z.even q)| |]; lia.
Qed.

Lemma rne_div_unique a b k :
  0 < b -> 2 * b * k - b < 2 * a < 2 * b * k + b -> rne_div a b = k.
Proof.
  intros Hb H. pose proof (rne_div_bounds a b Hb) as Hq.
  assert (H1 : 2 * b * (rne_div a b - k) < 2 * b * 1) by lia.
  assert (H2 : 2 * b * (-1) < 2 * b * (rne_div a b - k)) by lia.
  apply Z.mul_lt_mono_pos_l in H1; [|lia].
  apply Z.mul_lt_mono_pos_l in H2; [|lia]. lia.
Qed.

Lemma rne_div_nonneg a b : 0 <= a -> 0 < b -> 0 <= rne_div a b.
Proof.
  intros Ha Hb. pose proof (rne_div_bounds a b Hb). nia.
Qed.

(** A positive integer is a [Zpos]. *)
Lemma Zpos_of_pos (z : Z) : 0 < z -> exists p, z = Zpos p.
Proof. destruct z as [|p|p]; intros H; try lia. eauto. Qed.

(** [nearest] returns the float [p * 2 ^ (k - 1127)] as soon as the scaled
    quotient lies in the binade of [p * 2 ^ k] and strictly within half a
    unit in the last place of it. *)
Lemma nearest_char (s : bool) (a b : Z) (p : positive) (k : Z) :
  0 < a -> 0 < b -> 53 <= k <= 2098 -> 2 ^ 52 <= Zpos p < 2 ^ 53 ->
  b * 2 ^ k * 2 ^ 52 <= a * 2 ^ 1127 ->
  2 * (b * 2 ^ k) * Zpos p - b * 2 ^ k < 2 * (a * 2 ^ 1127)
    < 2 * (b * 2 ^ k) * Zpos p + b * 2 ^ k ->
  nearest s a b = S754_finite s p (k - 1127).
Proof.
  intros Ha Hb Hk Hp Hlow Hnear. unfold nearest.
  destruct (Z.eqb_spec a 0) as [->|_]; [lia|].
  assert (HT : 0 < 2 ^ k) by (apply Z.pow_pos_nonneg; lia).
  set (A := a * 2 ^ 1127) in *. set (T := 2 ^ k) in *.
  assert (HX : 0 < b * T) by lia.
  assert (Hlog : Z.log2 (A / b) = 52 + k).
  { apply Z.log2_unique; [lia|]. split.
    - apply Z.div_le_lower_bound; [lia|].
      rewrite Z.pow_add_r; [|lia|lia]. fold T. lia.
    - apply Z.div_lt_upper_bound; [lia|].
      replace (Z.succ (52 + k)) with (53 + k) by lia.
      rewrite Z.pow_add_r; [|lia|lia]. fold T.
      assert (b * T * Zpos p <= b * T * (2 ^ 53 - 1)).
      { apply Z.mul_le_mono_nonneg_l; lia. }
      lia. }
  rewrite Hlog. replace (Z.max (52 + k - 52) 53) with k by lia. fold T.
  rewrite (rne_div_unique A (b * T) (Zpos p)) by lia.
  destruct (Z.eqb_spec (Zpos p) (2 ^ 53)) as [E|_]; [lia|].
  destruct (Z.leb_spec k 2098); [reflexivity|lia].
Qed.

(** What a finite result of [nearest] for hundredths says about them. *)
Lemma nearest_finite_inv (s s' : bool) (n : Z) (p : positive) (e : Z) :
  0 < n ->
  nearest s n 100 = S754_finite s' p e ->
  s' = s /\ 1068 <= e + 1127 <= 2098 /\ 2 ^ 52 <= Zpos p < 2 ^ 53 /\
  2 * (100 * 2 ^ (e + 1127)) * Zpos p - 100 * 2 ^ (e + 1127)
    <= 2 * (n * 2 ^ 1127)
    <= 2 * (100 * 2 ^ (e + 1127)) * Zpos p + 100 * 2 ^ (e + 1127).
Proof.
  intros Hn. unfold nearest.
  destruct (Z.eqb_spec n 0) as [->|_]; [lia|].
  set (A := n * 2 ^ 1127).
  assert (HA : 2 ^ 1127 <= A) by (unfold A; lia).
  set (L := Z.log2 (A / 100)).
  assert (HQ : 2 ^ 1120 <= A / 100).
  { apply Z.div_le_lower_bound; lia. }
  assert (HL : 2 ^ L <= A / 100 < 2 ^ (L + 1)).
  { replace (L + 1) with (Z.succ L) by lia. apply Z.log2_spec. lia. }
  assert (HL0 : 1120 <= L).
  { unfold L. change 1120 with (Z.log2 (2 ^ 1120)). apply Z.log2_le_mono. exact HQ. }
  replace (Z.max (L - 52) 53) with (L - 52) by lia.
  set (k0 := L - 52).
  assert (HT : 0 < 2 ^ k0) by (apply Z.pow_pos_nonneg; lia).
  assert (HLk : 2 ^ L = 2 ^ k0 * 2 ^ 52).
  { rewrite <- Z.pow_add_r; [|lia|lia]. f_equal. lia. }
  assert (HLk1 : 2 ^ (L + 1) = 2 ^ k0 * 2 ^ 53).
  { rewrite <- Z.pow_add_r; [|lia|lia]. f_equal. lia. }
  assert (Hk1 : 2 ^ (k0 + 1) = 2 * 2 ^ k0).
  { rewrite Z.pow_add_r; [|lia|lia]. lia. }
  set (T := 2 ^ k0) in *.
  assert (HAl : 100 * T * 2 ^ 52 <= A).
  { pose proof (Z.mul_div_le A 100 ltac:(lia)). lia. }
  assert (HAu : A < 100 * T * 2 ^ 53).
  { pose proof (Z.mod_pos_bound A 100 ltac:(lia)).
    pose proof (Z.div_mod A 100 ltac:(lia)). lia. }
  pose proof (rne_div_bounds A (100 * T) ltac:(lia)) as HM.
  set (M := rne_div A (100 * T)) in *.
  assert (HM1 : 2 ^ 52 <= M).
  { assert (100 * T * (2 * 2 ^ 52 - 1) <= 100 * T * (2 * M)) by lia.
    apply Z.mul_le_mono_pos_l in H; lia. }
  assert (HM2 : M <= 2 ^ 53).
  { assert (100 * T * (2 * M) < 100 * T * (2 * 2 ^ 53 + 1)) by lia.
    apply Z.mul_lt_mono_pos_l in H; lia. }
  destruct (Z.eqb_spec M (2 ^ 53)) as [E|NE].
  - change (2 ^ 52) with (Zpos (4503599627370496)) at 1.
    destruct (Z.leb_spec (k0 + 1) 2098); [|discriminate].
    intros Heq. injection Heq as <- <- <-.
    replace (k0 + 1 - 1127 + 1127) with (k0 + 1) by lia.
    rewrite Hk1. fold T. split; [reflexivity|]. split; [lia|]. split; [lia|].
    rewrite E in HM. lia.
  - destruct (Zpos_of_pos M ltac:(lia)) as [pm Epm]. rewrite Epm.
    destruct (Z.leb_spec k0 2098); [|discriminate].
    intros Heq. injection Heq as <- <- <-.
    replace (k0 - 1127 + 1127) with k0 by lia.
    fold T. rewrite <- Epm. split; [reflexivity|]. split; [lia|]. split; [lia|].
    lia.
Qed.

(** Rounding the hundredths of a float that is itself the float nearest to
    some hundredths gives the float back. *)
Lemma nearest_hundredths_fixed (s : bool) (n : Z) (p : positive) (e : Z) :
  0 < n ->
  nearest s n 100 = S754_finite s p e ->
  nearest s (hundredths p e) 100 = S754_finite s p e.
Proof.
  intros Hn Hnear.
  destruct (nearest_finite_inv s s n p e Hn Hnear) as (_ & Hk & Hp & Hb).
  assert (HT : 0 < 2 ^ (e + 1127)) by (apply Z.pow_pos_nonneg; lia).
  replace e with (e + 1127 - 1127) at 2 by lia.
  unfold hundredths. destruct (Z.leb_spec 0 e) as [He|He].
  - (* the float is an integer: its hundredths are exact *)
    assert (E : 2 ^ e * 2 ^ 1127 = 2 ^ (e + 1127)).
    { rewrite <- Z.pow_add_r; [reflexivity|lia|lia]. }
    assert (HD : 0 < 2 ^ e) by (apply Z.pow_pos_nonneg; lia).
    set (T := 2 ^ (e + 1127)) in *. set (D := 2 ^ e) in *.
    assert (Ea : 100 * Zpos p * D * 2 ^ 1127 = 100 * T * Zpos p)
      by (rewrite <- E; ring).
    assert (HTp : 100 * T * 2 ^ 52 <= 100 * T * Zpos p)
      by (apply Z.mul_le_mono_nonneg_l; lia).
    apply nearest_char; fold T; rewrite ?Ea; lia.
  - assert (E : 2 ^ (- e) * 2 ^ (e + 1127) = 2 ^ 1127).
    { rewrite <- Z.pow_add_r; [f_equal; lia|lia|lia]. }
    assert (HD : 0 < 2 ^ (- e)) by (apply Z.pow_pos_nonneg; lia).
    pose proof (rne_div_bounds (100 * Zpos p) (2 ^ (- e)) HD) as Hq.
    set (T := 2 ^ (e + 1127)) in *. set (D := 2 ^ (- e)) in *.
    assert (Hn' : 2 * 100 * Zpos p - 100 <= 2 * D * n <= 2 * 100 * Zpos p + 100).
    { rewrite <- E in Hb.
      assert (H1 : T * (2 * 100 * Zpos p - 100) <= T * (2 * D * n)) by lia.
      assert (H2 : T * (2 * D * n) <= T * (2 * 100 * Zpos p + 100)) by lia.
      apply Z.mul_le_mono_pos_l in H1; [|lia].
      apply Z.mul_le_mono_pos_l in H2; [|lia]. lia. }
    destruct (Z.le_gt_cases e (-7)) as [Hfine|Hcoarse].
    + (* the unit in the last place is below 0.01: same hundredths *)
      assert (HD7 : 2 ^ 7 <= D) by (apply Z.pow_le_mono_r; lia).
      rewrite (rne_div_unique (100 * Zpos p) D n) by lia.
      replace (e + 1127 - 1127) with e by lia. exact Hnear.
    + (* the unit in the last place is above 0.01: the float is the
         nearest one to its own hundredths *)
      assert (HD6 : D <= 2 ^ 6) by (apply Z.pow_le_mono_r; lia).
      assert (Ec : D * 2 ^ (52 + e) = 2 ^ 52).
      { unfold D. rewrite <- Z.pow_add_r; [f_equal; lia|lia|lia]. }
      assert (Hc : 0 < 2 ^ (52 + e)) by (apply Z.pow_pos_nonneg; lia).
      set (c := 2 ^ (52 + e)) in *.
      set (n' := rne_div (100 * Zpos p) D) in *.
      assert (Hlow : 100 * c <= n').
      { assert (H1 : D * (2 * (100 * c)) <= D * (2 * n' + 1)) by nia.
        apply Z.mul_le_mono_pos_l in H1; lia. }
      assert (Hn'pos : 0 < n') by lia.
      apply nearest_char; try lia; fold T; rewrite <- E.
      * replace (100 * T * 2 ^ 52) with (T * (100 * (D * c))) by (rewrite Ec; ring).
        replace (n' * (D * T)) with (T * (D * n')) by ring.
        apply Z.mul_le_mono_nonneg_l; [lia|].
        replace (100 * (D * c)) with (D * (100 * c)) by ring.
        apply Z.mul_le_mono_nonneg_l; lia.
      * assert (H1 : T * (2 * 100 * Zpos p - 100) < T * (2 * D * n')).
        { apply Z.mul_lt_mono_pos_l; lia. }
        assert (H2 : T * (2 * D * n') < T * (2 * 100 * Zpos p + 100)).
        { apply Z.mul_lt_mono_pos_l; lia. }
        lia.
Qed.

(** Python's [round(x, 2)] is idempotent on binary64. *)
Lemma py_round2_idempotent (x : float64) :
  py_round2 (py_round2 x) = py_round2 x.
Proof.
  destruct x as [s|s| |s m e]; try reflexivity.
  change (py_round2 (S754_finite s m e)) with (nearest s (hundredths m e) 100).
  destruct (nearest s (hundredths m e) 100) as [s'|s'| |s' p e'] eqn:E;
    try reflexivity.
  assert (Hh : 0 < hundredths m e \/ hundredths m e <= 0) by lia.
  destruct Hh as [Hh|Hh].
  - destruct (nearest_finite_inv _ _ _ _ _ Hh E) as [-> _].
    unfold py_round2. apply (nearest_hundredths_fixed s _ p e' Hh E).
  - exfalso. unfold nearest in E.
    destruct (Z.eqb_spec (hundredths m e) 0) as [_|NE]; [discriminate|].
    assert (Hnn : 0 <= hundredths m e).
    { unfold hundredths. destruct (Z.leb_spec 0 e).
      - assert (0 <= 2 ^ e) by (apply Z.pow_nonneg; lia). nia.
      - apply rne_div_nonneg; [lia|]. apply Z.pow_pos_nonneg; lia. }
    lia.
Qed.

Lemma digits2_pos_bounds (m : positive) :
  2 ^ (Zpos (digits2_pos m) - 1) <= Zpos m < 2 ^ Zpos (digits2_pos m).
Proof.
  induction m as [m IH|m IH|]; cbn [digits2_pos].
  - rewrite Pos2Z.inj_succ.
    replace (Z.succ (Zpos (digits2_pos m)) - 1) with (Z.succ (Zpos (digits2_pos m) - 1)) by lia.
    rewrite !Z.pow_succ_r by lia. lia.
  - rewrite Pos2Z.inj_succ.
    replace (Z.succ (Zpos (digits2_pos m)) - 1) with (Z.succ (Zpos (digits2_pos m) - 1)) by lia.
    rewrite !Z.pow_succ_r by lia. lia.
  - cbn. lia.
Qed.

(** On a binary64 value [round(x, 2)] never overflows: the result of
    rounding a finite float is finite (or a zero). *)
Lemma py_round2_no_overflow (s : bool) (m : positive) (e : Z) :
  SpecFloat.valid_binary prec emax (S754_finite s m e) = true ->
  forall s', py_round2 (S754_finite s m e) <> S754_infinity s'.
Proof.
  unfold SpecFloat.valid_binary, bounded, canonical_mantissa, fexp, SpecFloat.emin.
  intros Hv s'. apply andb_prop in Hv as [Hc He].
  apply Z.eqb_eq in Hc. apply Z.leb_le in He.
  change prec with 53 in *. change emax with 1024 in *.
  pose proof (digits2_pos_bounds m) as Hd.
  unfold py_round2, hundredths.
  destruct (Z.leb_spec 0 e) as [Hpos|Hneg].
  - assert (Hdig : Zpos (digits2_pos m) = 53) by lia.
    rewrite Hdig in Hd. change (2 ^ (53 - 1)) with (2 ^ 52) in Hd.
    assert (E : 2 ^ e * 2 ^ 1127 = 2 ^ (e + 1127)).
    { rewrite <- Z.pow_add_r; [reflexivity|lia|lia]. }
    assert (HT : 0 < 2 ^ (e + 1127)) by (apply Z.pow_pos_nonneg; lia).
    assert (HD : 0 < 2 ^ e) by (apply Z.pow_pos_nonneg; lia).
    set (T := 2 ^ (e + 1127)) in *. set (D := 2 ^ e) in *.
    assert (Ea : 100 * Zpos m * D * 2 ^ 1127 = 100 * T * Zpos m)
      by (rewrite <- E; ring).
    assert (HTp : 100 * T * 2 ^ 52 <= 100 * T * Zpos m)
      by (apply Z.mul_le_mono_nonneg_l; lia).
    rewrite (nearest_char s (100 * Zpos m * D) 100 m (e + 1127));
      fold T; rewrite ?Ea; try lia. discriminate.
  - assert (Hdig : Zpos (digits2_pos m) <= 53) by lia.
    assert (Hm : Zpos m < 2 ^ 53).
    { eapply Z.lt_le_trans; [apply Hd|]. apply Z.pow_le_mono_r; lia. }
    assert (HD : 2 <= 2 ^ (- e)).
    { change 2 with (2 ^ 1) at 1. apply Z.pow_le_mono_r; lia. }
    pose proof (rne_div_bounds (100 * Zpos m) (2 ^ (- e)) ltac:(lia)) as Hq.
    pose proof (rne_div_nonneg (100 * Zpos m) (2 ^ (- e)) ltac:(lia) ltac:(lia)) as Hq0.
    set (n := rne_div (100 * Zpos m) (2 ^ (- e))) in *.
    set (D := 2 ^ (- e)) in *.
    assert (Hn : n < 2 ^ 60) by nia.
    unfold nearest. destruct (Z.eqb_spec n 0); [discriminate|].
    set (A := n * 2 ^ 1127).
    assert (HQ : 0 < A / 100 < 2 ^ 1187).
    { split.
      - apply Z.div_str_pos. unfold A. lia.
      - apply Z.div_lt_upper_bound; [lia|]. unfold A. lia. }
    assert (HL : Z.log2 (A / 100) < 1187).
    { apply Z.log2_lt_pow2; lia. }
    pose proof (Z.log2_nonneg (A / 100)) as HL0.
    set (k := Z.max (Z.log2 (A / 100) - 52) 53).
    assert (Hk : k <= 1135) by lia.
    destruct (rne_div A (100 * 2 ^ k) =? 2 ^ 53).
    + change (2 ^ 52) with (Zpos 4503599627370496).
      destruct (Z.leb_spec (k + 1) 2098); [discriminate|lia].
    + destruct (rne_div A (100 * 2 ^ k)); try discriminate.
      destruct (Z.leb_spec k 2098); [discriminate|lia].
Qed.

End Float64Facts.

(** * The builtins against known values of Python *)

Module PyFacts.
Import Py.

(** [int(s)] for [" 4_5 "], ["+7"], ["-0"], ["007"], ["5 "] and ["-12_3  "];
    ValueError for the others. *)
Example int_of_str_samples :
  map int_of_str
    [" 4_5 "; "+7"; "-0"; "007"; "5 "; "-12_3  "; ""; " "; "4__5"; "_4"; "4_";
     "+ 4"; "0x10"; "1.0"; "--1"; "+"; "1 2"]
  = [Some 45; Some 7; Some 0; Some 7; Some 5; Some (-123); None; None; None;
     None; None; None; None; None; None; None; None].
Proof. vm_compute. reflexivity. Qed.

(** [repr] of 0.1, 1e16, 1e15, 1234.5, 1e-5, 0.0001, 5e-324,
    1.7976931348623157e308, 0.1 + 0.2, 100.0, -2.5, 2 ** -1022 and
    2 ** -24. *)
Example float_repr_samples :
  map (fun x => float_repr (Prim2SF x))
    [0x1.999999999999ap-4; 0x1.1c37937e08p+53; 0x1.c6bf52634p+49; 1234.5;
     0x1.4f8b588e368f1p-17; 0x1.a36e2eb1c432dp-14; 0x0.0000000000001p-1022;
     0x1.fffffffffffffp+1023; 0x1.3333333333334p-2; 100; -2.5; 0x1p-1022;
     0x1p-24]%float
  = ["0.1"; "1e+16"; "1000000000000000.0"; "1234.5"; "1e-05"; "0.0001";
     "5e-324"; "1.7976931348623157e+308"; "0.30000000000000004"; "100.0";
     "-2.5"; "2.2250738585072014e-308"; "5.960464477539063e-08"].
Proof. vm_compute. reflexivity. Qed.

(** [str([1, 'a', None, True, 2.5, {'k': []}, "it's"])]. *)
Example py_str_sample :
  py_str (PList [PInt 1; PStr "a"; PNone; PBool true; PFloat (Prim2SF 2.5);
                 PDict [("k", PList [])]; PStr "it's"])
  = "[1, 'a', None, True, 2.5, {'k': []}, " +:+
    String dquote ("it's" +:+ String dquote "]").
Proof. vm_compute. reflexivity. Qed.

(** [lower], [in] and [startswith]. *)
Example string_samples :
  lower "Shot - GOAL" = "shot - goal" /\
  contains "goal" "own goal" = true /\ contains "goal" "gaol" = false /\
  contains "injur" "injured" = true /\ startswith "goal" "goalkeeper" = true.
Proof. vm_compute. repeat split; reflexivity. Qed.

End PyFacts.

(** * Properties of the pricing engine *)

Module PricingFacts.
Import Pricing.

Lemma run_alone_bind {A B : Type} (c : Coro A) (f : A -> Coro B) eng log :
  run_alone (c ≫= f) eng log =
  match run_alone c eng log with
  | (eng', log', inr a) => run_alone (f a) eng' log'
  | (eng', log', inl e) => (eng', log', inl e)
  end.
Proof.
  unfold mbind, coro_bind. revert eng log.
  induction c as [a|e|k IH|eng0 k IH|line k IH|k IH]; intros eng log;
    cbn; auto.
Qed.

Lemma run_alone_ensure pid eng log :
  run_alone (_ensure pid) eng log
  = (ensured pid eng, log, inr (current_price eng pid)).
Proof.
  unfold _ensure, ensured, current_price, mbind, coro_bind. cbn.
  destruct (prices eng !! pid) as [p|] eqn:E; cbn.
  - rewrite E. reflexivity.
  - rewrite lookup_insert_eq. reflexivity.
Qed.

Lemma set_price_ensured pid v eng :
  set_price pid v (ensured pid eng) = set_price pid v eng.
Proof.
  unfold ensured, set_price.
  destruct (prices eng !! pid); cbn; [reflexivity|].
  now rewrite insert_insert_eq.
Qed.

Lemma run_alone_fmul_int {B : Type} x n (f : float64 -> Coro B) eng log :
  run_alone (fmul_int x n ≫= f) eng log =
  match of_int n with
  | inr y => run_alone (f (fmul x y)) eng log
  | inl e => (eng, log, inl e)
  end.
Proof. unfold fmul_int. destruct (of_int n); reflexivity. Qed.

(** A call awaited alone: the engine, the log and the result. *)
Lemma run_alone_apply_stat stat eng log :
  run_alone (apply_stat stat) eng log =
  match delta_of stat with
  | inr delta =>
      let v := price_rule (current_price eng (player_id stat))
                 (injury stat) delta in
      (set_price (player_id stat) v eng,
       log ++ [mkLine (player_id stat) v delta], inr v)
  | inl e => (ensured (player_id stat) eng, log, inl e)
  end.
Proof.
  unfold apply_stat.
  rewrite run_alone_bind, run_alone_ensure.
  rewrite run_alone_fmul_int. unfold delta_of.
  destruct (of_int (goals stat)) as [e|g]; [reflexivity|].
  rewrite run_alone_fmul_int.
  destruct (of_int (assists stat)) as [e|a]; [reflexivity|].
  rewrite run_alone_fmul_int.
  destruct (of_int (minutes stat)) as [e|m]; [reflexivity|].
  unfold mbind, coro_bind. cbn.
  rewrite !lookup_insert_eq. cbn. rewrite !lookup_insert_eq.
  rewrite set_price_ensured. reflexivity.
Qed.

Lemma delta_of_raises stat e : delta_of stat = inl e -> e = OverflowError.
Proof.
  assert (Hof : forall n e', of_int n = inl e' -> e' = OverflowError).
  { intros n e'. unfold of_int.
    destruct (binary_normalize prec emax n 0 false); congruence. }
  unfold delta_of.
  destruct (of_int (goals stat)) as [e1|g] eqn:E1;
    destruct (of_int (assists stat)) as [e2|a] eqn:E2;
    destruct (of_int (minutes stat)) as [e3|m] eqn:E3;
    intros H; try discriminate; injection H as <-; eauto.
Qed.

(** C1 (amended).  Awaited with no other task in between, [apply_stat] for
    a StatUpdate whose [delta = 100*goals + 50*assists + 0.1*minutes] can
    be evaluated in binary64 stores and returns
    [round((P*0.7 if injury else P) + delta, 2)], where [P] is the price on
    record for the player (the base price when the player is absent): the
    penalty is applied to the prior price before the delta is added.  When
    a count is too large for a float, evaluating [delta] raises
    OverflowError and so does [apply_stat], after [_ensure] has put an
    absent player on record at the base price; no rounded price is stored
    and nothing is printed.  No other exception is raised.  The next call
    reads the stored result, so updates compound: two single-goal updates
    from base 1000 return 1100.0 and then 1200.0. *)
Theorem apply_stat_price_rule :
  (forall (stat : StatUpdate) (eng : PricingEngine) (log : list log_line),
     run_alone (apply_stat stat) eng log =
     match delta_of stat with
     | inr delta =>
         let v := price_rule (current_price eng (player_id stat))
                    (injury stat) delta in
         (set_price (player_id stat) v eng,
          log ++ [mkLine (player_id stat) v delta], inr v)
     | inl e => (ensured (player_id stat) eng, log, inl e)
     end) /\
  (forall (pid : string) (v : float64) (eng : PricingEngine),
     current_price (set_price pid v eng) pid = v) /\
  (let r1 := run_alone (apply_stat (one_goal "p6")) (new f1000) [] in
   let r2 := run_alone (apply_stat (one_goal "p6")) r1.1.1 [] in
   r1.2 = inr f1100 /\ r2.2 = inr f1200) /\
  (forall (stat : StatUpdate) (e : exn),
     delta_of stat = inl e -> e = OverflowError).
Proof.
  split; [|split; [|split]].
  - exact run_alone_apply_stat.
  - intros pid v eng. unfold current_price, set_price. cbn.
    now rewrite lookup_insert_eq.
  - vm_compute. split; reflexivity.
  - exact delta_of_raises.
Qed.

(** One goal, two assists and 45 minutes from base 1000: 1204.5. *)
Lemma apply_stat_price_rule_witness :
  (run_alone (apply_stat (mkStat "p5" 1 2 45 false)) (new f1000) []).2 = inr f1204_5.
Proof.
  rewrite (proj1 apply_stat_price_rule). vm_compute. reflexivity.
Defined.

(** C1 as stated, for every StatUpdate, does not hold.  For goals = 2**1024
    the product [100.0 * goals] raises OverflowError: called on a fresh
    engine with base price 1000.0, [apply_stat] raises, the player is on
    record at the bare base price and nothing is returned. *)
Lemma huge_count_raises :
  delta_of (huge_goals "p7") = inl OverflowError /\
  run_alone (apply_stat (huge_goals "p7")) (new f1000) []
  = (set_price "p7" f1000 (new f1000), [], inl OverflowError).
Proof. vm_compute. split; reflexivity. Qed.

(** The scenarios of the specification, from base price 1000.0. *)
Example scenarios :
  let price stat := (run_alone (apply_stat stat) (new f1000) []).2 in
  price (mkStat "p1" 2 0 0 false) = inr f1200 /\
  price (mkStat "p3" 0 0 90 false) = inr f1009 /\
  price (mkStat "p4" 0 0 0 true) = inr f700 /\
  price (mkStat "p5" 1 2 45 false) = inr f1204_5 /\
  price (mkStat "999" 2 0 75 false) = inr f1207_5.
Proof. vm_compute. repeat split; reflexivity. Qed.

Lemma run_segment_bind {A B : Type} (c : Coro A) (f : A -> Coro B) eng log :
  run_segment (c ≫= f) eng log =
  match run_segment c eng log with
  | (eng', log', Finished a) => run_segment (f a) eng' log'
  | (eng', log', Failed e) => (eng', log', Failed e)
  | (eng', log', Suspended k) => (eng', log', Suspended (k ≫= f))
  end.
Proof.
  unfold mbind, coro_bind. revert eng log.
  induction c as [a|e|k IH|eng0 k IH|line k IH|k IH]; intros eng log;
    cbn; auto.
Qed.

Lemma run_segment_ensure pid eng log :
  run_segment (_ensure pid) eng log
  = (ensured pid eng, log, Finished (current_price eng pid)).
Proof.
  unfold _ensure, ensured, current_price, mbind, coro_bind. cbn.
  destruct (prices eng !! pid) as [p|] eqn:E; cbn.
  - rewrite E. reflexivity.
  - rewrite lookup_insert_eq. reflexivity.
Qed.

Lemma run_segment_fmul_int {B : Type} x n (f : float64 -> Coro B) eng log :
  run_segment (fmul_int x n ≫= f) eng log =
  match of_int n with
  | inr y => run_segment (f (fmul x y)) eng log
  | inl e => (eng, log, Failed e)
  end.
Proof. unfold fmul_int. destruct (of_int n); reflexivity. Qed.

Lemma run_segment_getitem pid eng log :
  run_segment (getitem pid) eng log =
  (eng, log, match prices eng !! pid with
             | Some p => Finished p
             | None => Failed KeyError
             end).
Proof.
  unfold getitem, mbind, coro_bind. cbn. destruct (prices eng !! pid); reflexivity.
Qed.

Lemma run_segment_apply_stat stat eng log :
  run_segment (apply_stat stat) eng log =
  match delta_of stat with
  | inr delta =>
      (committed stat eng,
       log ++ [mkLine (player_id stat)
                 (price_rule (current_price eng (player_id stat)) (injury stat) delta)
                 delta],
       Suspended (getitem (player_id stat)))
  | inl e => (committed stat eng, log, Failed e)
  end.
Proof.
  unfold apply_stat, committed.
  rewrite run_segment_bind, run_segment_ensure.
  rewrite run_segment_fmul_int. unfold delta_of.
  destruct (of_int (goals stat)) as [e|g]; [reflexivity|].
  rewrite run_segment_fmul_int.
  destruct (of_int (assists stat)) as [e|a]; [reflexivity|].
  rewrite run_segment_fmul_int.
  destruct (of_int (minutes stat)) as [e|m]; [reflexivity|].
  unfold mbind, coro_bind. cbn.
  rewrite !lookup_insert_eq. cbn.
  rewrite set_price_ensured. reflexivity.
Qed.

Lemma resume_ok stats t eng log :
  task_ok stats t ->
  observed_step stats eng (resume t eng log).1.1 /\
  task_ok stats (resume t eng log).2.
Proof.
  intros [(stat & Hin & ->)|[(pid & ->)|(r & ->)]]; unfold resume.
  - rewrite run_segment_apply_stat.
    destruct (delta_of stat) as [e|d] eqn:E; cbn.
    + split; [right; exists stat; auto|]. right; right; eauto.
    + split; [right; exists stat; auto|]. right; left; eauto.
  - rewrite run_segment_getitem.
    destruct (prices eng !! pid); cbn; (split; [left; reflexivity|right; right; eauto]).
  - split; [left; reflexivity|right; right; eauto].
Qed.

Lemma run_schedule_adjacent stats sch : forall eng log pool,
  Forall (task_ok stats) pool ->
  adjacent (observed_step stats) (run_schedule sch eng log pool) /\
  exists tl, run_schedule sch eng log pool = eng :: tl.
Proof.
  induction sch as [|i sch IH]; intros eng log pool Hpool; cbn.
  - split; eauto.
  - destruct (pool !! i) as [t|] eqn:Ei.
    + assert (Ht : task_ok stats t).
      { eapply Forall_forall in Hpool; [exact Hpool|]. eapply list_elem_of_lookup_2; eauto. }
      destruct (resume_ok stats t eng log Ht) as [Hs Ht'].
      destruct (resume t eng log) as [[eng' log'] t'] eqn:Er. cbn in *.
      destruct (IH eng' log' (<[i := t']> pool)) as [Hadj [tl Htl]].
      { apply Forall_insert; auto. }
      split; [|eauto]. rewrite Htl in *. split; auto.
    + destruct (IH eng log pool Hpool) as [Hadj [tl Htl]].
      split; [|eauto]. rewrite Htl in *. split; auto. left; reflexivity.
Qed.

Lemma effects_apply_stat stat eng :
  effects (apply_stat stat) eng =
  EGet ::
  match prices eng !! player_id stat with
  | None => [EGet; EPut (ensured (player_id stat) eng)]
  | Some _ => []
  end ++
  EGet ::
  match delta_of stat with
  | inr delta =>
      [EGet; EPut (committed stat eng); EGet;
       EPrint (mkLine (player_id stat)
                 (price_rule (current_price eng (player_id stat)) (injury stat) delta)
                 delta);
       ESleep; EGet]
  | inl _ => []
  end.
Proof.
  unfold apply_stat, _ensure, committed, delta_of, current_price, ensured, fmul_int,
    getitem, setitem, get, put, print, sleep0, mbind, coro_bind.
  destruct (prices eng !! player_id stat) as [P|] eqn:EP;
    destruct (of_int (goals stat)) as [e1|g];
    destruct (of_int (assists stat)) as [e2|a];
    destruct (of_int (minutes stat)) as [e3|m];
    repeat (progress (cbn -[fmul fadd py_round2]; rewrite ?EP, ?lookup_insert_eq));
    try reflexivity.
  unfold set_price; cbn -[fmul fadd py_round2]. rewrite insert_insert_eq. reflexivity.
Qed.

(** C5. The price update of [apply_stat] is one uninterrupted unit.  Between
    the first read of the price map and the store of the final rounded
    price the coroutine only reads and writes the map: the [print] and the
    [await asyncio.sleep(0)] come after the store.  So, run from its start,
    it reaches its first suspension point with the final price stored (or
    fails before any price is computed), and what is left after the
    suspension only reads the map.  Hence, whatever the order in which the
    event loop resumes any number of concurrent [apply_stat] tasks, the
    engine states seen at task switches differ by whole updates: no task
    observes a price with the penalty applied but the delta missing. *)
Theorem apply_stat_atomic :
  (forall (stat : StatUpdate) (eng : PricingEngine),
     exists before : list effect,
       forallb synchronous before = true /\
       effects (apply_stat stat) eng =
       before ++
       match delta_of stat with
       | inr delta =>
           [EPut (committed stat eng); EGet;
            EPrint (mkLine (player_id stat)
                      (price_rule (current_price eng (player_id stat))
                         (injury stat) delta)
                      delta);
            ESleep; EGet]
       | inl _ => []
       end) /\
  (forall (stat : StatUpdate) (eng : PricingEngine) (log : list log_line),
     run_segment (apply_stat stat) eng log =
     match delta_of stat with
     | inr delta =>
         (committed stat eng,
          log ++ [mkLine (player_id stat)
                    (price_rule (current_price eng (player_id stat))
                       (injury stat) delta)
                    delta],
          Suspended (getitem (player_id stat)))
     | inl e => (committed stat eng, log, Failed e)
     end) /\
  (forall (pid : string) (eng : PricingEngine) (log : list log_line),
     (run_segment (getitem pid) eng log).1 = (eng, log)) /\
  (forall (stats : list StatUpdate) (sch : list nat) (eng : PricingEngine)
          (log : list log_line),
     adjacent (observed_step stats)
       (run_schedule sch eng log ((fun stat => Ready (apply_stat stat)) <$> stats))).
Proof.
  split_and!.
  - intros stat eng. rewrite effects_apply_stat.
    destruct (delta_of stat) as [e|delta].
    + eexists. split; [|rewrite app_nil_r; reflexivity].
      destruct (prices eng !! player_id stat); reflexivity.
    + exists (EGet ::
              match prices eng !! player_id stat with
              | Some _ => []
              | None => [EGet; EPut (ensured (player_id stat) eng)]
              end ++ [EGet; EGet]).
      split; [destruct (prices eng !! player_id stat); reflexivity|].
      destruct (prices eng !! player_id stat); reflexivity.
  - apply run_segment_apply_stat.
  - intros pid eng log. now rewrite run_segment_getitem.
  - intros stats sch eng log.
    apply run_schedule_adjacent.
    apply Forall_fmap, Forall_forall. intros stat Hin.
    left. exists stat. split; [exact Hin|reflexivity].
Qed.

(** Two concurrent updates of one player under the schedule [0; 1; 0; 1]:
    the second task starts from the price the first one committed. *)
Example interleaved_goals :
  run_schedule [0%nat; 1%nat; 0%nat; 1%nat] (new f1000) []
    [Ready (apply_stat (one_goal "p6")); Ready (apply_stat (one_goal "p6"))]
  = [new f1000;
     set_price "p6" f1100 (new f1000);
     set_price "p6" f1200 (new f1000);
     set_price "p6" f1200 (new f1000);
     set_price "p6" f1200 (new f1000)].
Proof. vm_compute. reflexivity. Qed.

(** The value returned is read after the suspension: when a second update of
    the same player runs in between, the first call returns the price the
    second one stored. *)
Example return_after_suspension :
  let r1 := resume (Ready (apply_stat (one_goal "p6"))) (new f1000) [] in
  let r2 := resume (Ready (apply_stat (one_goal "p6"))) r1.1.1 r1.1.2 in
  let r3 := resume r1.2 r2.1.1 r2.1.2 in
  prices r1.1.1 !! "p6" = Some f1100 /\ r3.2 = Done (inr f1200).
Proof. vm_compute. split; reflexivity. Qed.

(** *** The zero update *)

Lemma delta_of_zero pid : delta_of (zero_stat pid) = inr (S754_zero false).
Proof. reflexivity. Qed.

Lemma fadd_zero (P : float64) : same_price P (fadd P (S754_zero false)).
Proof.
  destruct P as [[]|[]| |s m e]; unfold same_price; cbn; auto.
Qed.

(** A stored price is a value of [round(., 2)], or it is the base price. *)
Lemma reachable_settled eng :
  reachable eng ->
  forall pid P, prices eng !! pid = Some P ->
                py_round2 P = P \/ P = base_price eng.
Proof.
  induction 1 as [base|eng stat log eng' log' r _ IH Hrun].
  - intros pid P H. cbn in H. rewrite lookup_empty in H. discriminate.
  - rewrite run_alone_apply_stat in Hrun.
    destruct (delta_of stat) as [e|delta].
    + injection Hrun as <- _ _.
      assert (Hb : base_price (ensured (player_id stat) eng) = base_price eng).
      { unfold ensured. destruct (prices eng !! player_id stat); reflexivity. }
      intros pid P H. rewrite Hb. unfold ensured in H.
      destruct (prices eng !! player_id stat) eqn:E; [exact (IH _ _ H)|].
      cbn in H. destruct (decide (player_id stat = pid)) as [<-|Hne].
      * rewrite lookup_insert_eq in H. injection H as <-. now right.
      * rewrite lookup_insert_ne in H by exact Hne. exact (IH _ _ H).
    + cbn in Hrun. injection Hrun as <- _ _.
      intros pid P H. cbn in H.
      destruct (decide (player_id stat = pid)) as [<-|Hne].
      * rewrite lookup_insert_eq in H. injection H as <-. left.
        unfold price_rule. apply Float64Facts.py_round2_idempotent.
      * rewrite lookup_insert_ne in H by exact Hne. exact (IH _ _ H).
Qed.

(** The zero update of a player on record stores and returns the rounded
    stored price. *)
Lemma run_alone_zero_stat eng pid P log :
  prices eng !! pid = Some P ->
  run_alone (apply_stat (zero_stat pid)) eng log
  = (set_price pid (price_rule P false (S754_zero false)) eng,
     log ++ [mkLine pid (price_rule P false (S754_zero false)) (S754_zero false)],
     inr (price_rule P false (S754_zero false))).
Proof.
  intros HP. rewrite run_alone_apply_stat, delta_of_zero. cbn.
  unfold current_price. rewrite HP. reflexivity.
Qed.

Lemma zero_stat_rounded eng pid P log :
  prices eng !! pid = Some P ->
  py_round2 P = P ->
  exists P' : float64,
    run_alone (apply_stat (zero_stat pid)) eng log
    = (set_price pid P' eng, log ++ [mkLine pid P' (S754_zero false)], inr P') /\
    same_price P P' /\
    (P' = P -> set_price pid P' eng = eng).
Proof.
  intros HP Hround.
  exists (price_rule P false (S754_zero false)). split; [|split].
  - now apply run_alone_zero_stat.
  - unfold price_rule.
    destruct (fadd_zero P) as [->|[-> ->]].
    + left. exact Hround.
    + right. split; reflexivity.
  - intros ->. unfold set_price. rewrite insert_id by exact HP.
    destruct eng; reflexivity.
Qed.

(** C9 (amended).  For a player on record whose stored price is a value of
    [round(., 2)], an update with no goals, no assists, no minutes and no
    injury stores and returns the price that was stored: the delta is 0.0
    and the price rounds to itself.  (A stored -0.0 comes back as 0.0; the
    two are equal for Python.)  The prices of the other players are
    untouched.  In an engine reached from a fresh one by [apply_stat]
    calls, returned or raised, every stored price is such a value or is the
    base price: a call that returns stores a value of [round(., 2)], and a
    call that raises leaves an absent player at the base price.  So when
    the base price is itself a value of [round(., 2)], as the default
    1000.0 is, the zero update leaves every player on record at the stored
    price. *)
Theorem zero_stat_keeps_two_decimal_price :
  (forall (eng : PricingEngine) (pid : string) (P : float64) (log : list log_line),
     prices eng !! pid = Some P ->
     py_round2 P = P ->
     exists P' : float64,
       run_alone (apply_stat (zero_stat pid)) eng log
       = (set_price pid P' eng, log ++ [mkLine pid P' (S754_zero false)], inr P') /\
       same_price P P' /\
       (P' = P -> set_price pid P' eng = eng)) /\
  (forall (eng : PricingEngine) (pid : string) (P : float64),
     reachable eng ->
     prices eng !! pid = Some P ->
     py_round2 P = P \/ P = base_price eng) /\
  (forall (eng : PricingEngine) (stat : StatUpdate) (log : list log_line)
          (eng' : PricingEngine) (log' : list log_line) (v : float64),
     run_alone (apply_stat stat) eng log = (eng', log', inr v) ->
     prices eng' !! player_id stat = Some v /\ py_round2 v = v) /\
  (forall (eng : PricingEngine) (pid : string) (P : float64) (log : list log_line),
     reachable eng ->
     py_round2 (base_price eng) = base_price eng ->
     prices eng !! pid = Some P ->
     exists P' : float64,
       run_alone (apply_stat (zero_stat pid)) eng log
       = (set_price pid P' eng, log ++ [mkLine pid P' (S754_zero false)], inr P') /\
       same_price P P').
Proof.
  split; [|split; [|split]].
  - exact zero_stat_rounded.
  - intros eng pid P Hreach. now apply reachable_settled.
  - intros eng stat log eng' log' v Hrun.
    rewrite run_alone_apply_stat in Hrun.
    destruct (delta_of stat) as [e|delta]; [discriminate|].
    cbn in Hrun. injection Hrun as <- _ <-. split.
    + cbn. now rewrite lookup_insert_eq.
    + unfold price_rule. apply Float64Facts.py_round2_idempotent.
  - intros eng pid P log Hreach Hbase HP.
    assert (Hround : py_round2 P = P).
    { destruct (reachable_settled eng Hreach pid P HP) as [H| ->]; assumption. }
    destruct (zero_stat_rounded eng pid P log HP Hround) as (P' & H1 & H2 & _).
    exists P'. split; assumption.
Qed.

(** After a goal from base 1000 the price 1100.0 is on record; the zero
    update returns 1100.0. *)
Lemma zero_stat_keeps_two_decimal_price_witness :
  let eng1 := set_price "p6" f1100 (new f1000) in
  reachable eng1 /\
  prices eng1 !! "p6" = Some f1100 /\
  py_round2 f1100 = f1100 /\
  (run_alone (apply_stat (zero_stat "p6")) eng1 []).2 = inr f1100 /\
  exists P' : float64,
    run_alone (apply_stat (zero_stat "p6")) eng1 []
    = (set_price "p6" P' eng1, [mkLine "p6" P' (S754_zero false)], inr P') /\
    same_price f1100 P'.
Proof.
  assert (Hreach : reachable (set_price "p6" f1100 (new f1000))).
  { apply (reach_apply (new f1000) (one_goal "p6") []
             (set_price "p6" f1100 (new f1000))
             [mkLine "p6" f1100 f100] (inr f1100) (reach_new f1000)).
    vm_compute. reflexivity. }
  split; [exact Hreach|]. split; [vm_compute; reflexivity|].
  split; [vm_compute; reflexivity|].
  split; [vm_compute; reflexivity|].
  destruct (proj1 zero_stat_keeps_two_decimal_price
              (set_price "p6" f1100 (new f1000)) "p6" f1100 []
              ltac:(vm_compute; reflexivity) ltac:(vm_compute; reflexivity))
    as (P' & H1 & H2 & _).
  exists P'. split; assumption.
Defined.

(** C9 as stated, for every player present in the price map, does not
    hold.  On an engine with base price 0.125 a call whose goal count is
    too large raises after [_ensure] has put the player on record at 0.125;
    the zero update of that player then stores and returns
    [round(0.125, 2)], which is 0.12. *)
Lemma zero_stat_rounds_base_price :
  let r1 := run_alone (apply_stat (huge_goals "p8")) (new f0_125) [] in
  let eng1 := r1.1.1 in
  let r2 := run_alone (apply_stat (zero_stat "p8")) eng1 [] in
  r1.2 = inl OverflowError /\
  prices eng1 !! "p8" = Some f0_125 /\
  r2 = (set_price "p8" f0_12 eng1, [mkLine "p8" f0_12 (S754_zero false)], inr f0_12) /\
  prices r2.1.1 !! "p8" = Some f0_12 /\
  SFcompare f0_12 f0_125 = Some Lt.
Proof. vm_compute. repeat split; reflexivity. Qed.

End PricingFacts.

(** * Properties of the event normaliser *)

Module NormalizerFacts.
Import Py Normalizer.

(** The payloads of tests/test_integration.py. *)
Example test_parse_goals_and_assists :
  process_statsbomb
    (events [PDict [("type", PDict [("name", PStr "Goal")]);
                    ("player", PDict [("id", PInt 123); ("name", PStr "Player A")]);
                    ("minute", PInt 10)];
             PDict [("type", PDict [("name", PStr "Goal")]);
                    ("player", PDict [("id", PInt 123)]);
                    ("minute", PInt 45);
                    ("related_players",
                     PList [PDict [("player", PDict [("id", PInt 456)]);
                                   ("role", PStr "Assist")]])]])
  = inr [mkStat "123" 2 0 45 false; mkStat "456" 0 1 45 false].
Proof. vm_compute. reflexivity. Qed.

Example test_parse_injury :
  process_statsbomb (events [event "Injury" 789 30])
  = inr [mkStat "789" 0 0 0 true].
Proof. vm_compute. reflexivity. Qed.

Example test_parse_empty_events : process_statsbomb (events []) = inr [].
Proof. vm_compute. reflexivity. Qed.

Example test_parse_list_input :
  process_statsbomb (PList [event "Goal" 111 5]) = inr [mkStat "111" 1 0 5 false].
Proof. vm_compute. reflexivity. Qed.

Lemma max_minute_app l m : max_minute (l ++ [m]) = Z.max (max_minute l) m.
Proof.
  unfold max_minute. induction l as [|a l IH]; cbn.
  - lia.
  - rewrite IH. lia.
Qed.

Lemma Inv_ext c c' bp : (forall k, c k = c' k) -> Inv c bp -> Inv c' bp.
Proof.
  intros E (Hnd & Hm & Hn). split; [exact Hnd|]. split.
  - intros k s Hin. rewrite <- E. auto.
  - intros k Hk. rewrite <- E. auto.
Qed.

Lemma setdefault_keys k bp :
  (setdefault k bp).*1 = if decide (k ∈ bp.*1) then bp.*1 else bp.*1 ++ [k].
Proof.
  induction bp as [|[k' s] bp IH]; cbn.
  - rewrite decide_False; [reflexivity|]. apply not_elem_of_nil.
  - destruct (String.eqb k' k) eqn:E.
    + apply String.eqb_eq in E. subst. rewrite decide_True; [reflexivity|]. left.
    + apply String.eqb_neq in E. cbn. rewrite IH.
      destruct (decide (k ∈ bp.*1)) as [Hin|Hin].
      * rewrite decide_True; [reflexivity|]. now right.
      * rewrite decide_False; [reflexivity|].
        intros H. apply elem_of_cons in H as [->|H]; tauto.
Qed.

Lemma setdefault_elem k bp x :
  x ∈ setdefault k bp <-> x ∈ bp \/ ((k ∉ bp.*1) /\ x = (k, fresh)).
Proof.
  induction bp as [|[k' s] bp IH]; simpl setdefault.
  - rewrite list_elem_of_singleton. split.
    + intros ->. right. split; [apply not_elem_of_nil|reflexivity].
    + intros [H|[_ ->]]; [by apply elem_of_nil in H|reflexivity].
  - destruct (String.eqb k' k) eqn:E.
    + apply String.eqb_eq in E. subst. split; [auto|].
      intros [H|[H _]]; [exact H|]. exfalso. apply H. left.
    + apply String.eqb_neq in E. split.
      * intros H. apply elem_of_cons in H as [->|H]; [left; left|].
        apply IH in H as [H|[H ->]]; [left; now right|].
        right. split; [|reflexivity].
        intros H'. apply elem_of_cons in H' as [H'|H']; [cbn in H'; congruence|tauto].
      * intros [H|[H ->]].
        -- apply elem_of_cons in H as [->|H]; [left|]. right. apply IH. now left.
        -- right. apply IH. right. split; [|reflexivity].
           intros H'. apply H. now right.
Qed.

Lemma inv_setdefault c bp k :
  Inv c bp -> Inv c (setdefault k bp) /\ k ∈ (setdefault k bp).*1.
Proof.
  intros (Hnd & Hm & Hn). unfold Inv. rewrite setdefault_keys.
  destruct (decide (k ∈ bp.*1)) as [Hin|Hin].
  - split; [|exact Hin]. split; [exact Hnd|]. split.
    + intros k' s H. apply setdefault_elem in H as [H|[H _]]; [auto|tauto].
    + exact Hn.
  - split; [|apply elem_of_app; right; left]. split; [|split].
    + apply NoDup_app. split; [exact Hnd|]. split; [|apply NoDup_singleton].
      intros x Hx Hx'. apply list_elem_of_singleton in Hx'. subst. tauto.
    + intros k' s H. apply setdefault_elem in H as [H|[_ H]]; [auto|].
      inversion H; subst. rewrite (Hn _ Hin). reflexivity.
    + intros k' Hk'. apply Hn. intros H. apply Hk'. apply elem_of_app. now left.
Qed.

Lemma update_keys k f bp : (update k f bp).*1 = bp.*1.
Proof.
  induction bp as [|[k' s] bp IH]; cbn; [reflexivity|].
  destruct (String.eqb k' k); cbn; [reflexivity|]. now rewrite IH.
Qed.

Lemma update_elem k f bp k' s' :
  NoDup bp.*1 ->
  (k', s') ∈ update k f bp ->
  exists s, (k', s) ∈ bp /\ s' = if String.eqb k k' then f s else s.
Proof.
  induction bp as [|[k0 s0] bp IH]; simpl update; intros Hnd H.
  - by apply elem_of_nil in H.
  - apply NoDup_cons in Hnd as [Hk0 Hnd].
    destruct (String.eqb k0 k) eqn:E.
    + apply String.eqb_eq in E. subst k0.
      apply elem_of_cons in H as [H|H].
      * injection H as -> ->. exists s0. split; [left|]. now rewrite String.eqb_refl.
      * exists s'. split; [now right|].
        destruct (String.eqb k k') eqn:E'; [|reflexivity].
        apply String.eqb_eq in E'. subst k'. exfalso. apply Hk0.
        apply (list_elem_of_fmap_2 fst) in H. exact H.
    + apply String.eqb_neq in E.
      apply elem_of_cons in H as [H|H].
      * injection H as -> ->. exists s0. split; [left|].
        destruct (String.eqb k k0) eqn:E'; [|reflexivity].
        apply String.eqb_eq in E'. congruence.
      * destruct (IH Hnd H) as (s & Hs & ->). exists s. split; [now right|reflexivity].
Qed.

Lemma inv_update_minute c bp k m f :
  (forall s, s_minutes (f s) = Z.max (s_minutes s) m) ->
  k ∈ bp.*1 ->
  Inv c bp ->
  Inv (fun k' => c k' ++ if String.eqb k k' then [m] else []) (update k f bp).
Proof.
  intros Hf Hk (Hnd & Hm & Hn). split; [|split].
  - now rewrite update_keys.
  - intros k' s' H. destruct (update_elem _ _ _ _ _ Hnd H) as (s & Hs & ->).
    destruct (String.eqb k k').
    + rewrite Hf, max_minute_app. now rewrite (Hm _ _ Hs).
    + rewrite app_nil_r. auto.
  - intros k'. rewrite update_keys. intros Hk'.
    rewrite (Hn _ Hk'). destruct (String.eqb k k') eqn:E; [|reflexivity].
    apply String.eqb_eq in E. subst. tauto.
Qed.

Lemma inv_update_same c bp k f :
  (forall s, s_minutes (f s) = s_minutes s) -> Inv c bp -> Inv c (update k f bp).
Proof.
  intros Hf (Hnd & Hm & Hn). split; [|split].
  - now rewrite update_keys.
  - intros k' s' H. destruct (update_elem _ _ _ _ _ Hnd H) as (s & Hs & ->).
    destruct (String.eqb k k'); [rewrite Hf|]; auto.
  - intros k'. rewrite update_keys. auto.
Qed.

Lemma inv_process_related c minute r bp bp' :
  Inv c bp ->
  process_related minute r bp = inr bp' ->
  Inv (fun k => c k ++ credits_related k minute r) bp'.
Proof.
  intros HI H. unfold process_related, credits_related in *.
  destruct r as [| | | | |?|r];
    try (inversion H; subst; eapply Inv_ext; [|exact HI];
         intros; now rewrite app_nil_r).
  destruct (lower_or_empty _) as [e|role]; [discriminate|]. cbn in H.
  unfold _ensure in H.
  destruct (key_of (resolve_id (related_player r))) as [k|].
  - destruct (inv_setdefault c bp k HI) as [HI' Hk].
    destruct (is_assist role); cbn in *; inversion H; subst.
    + eapply Inv_ext; [|apply (inv_update_minute c _ k minute); eauto].
      intros k'. cbn. reflexivity.
    + eapply Inv_ext; [|exact HI']. intros; now rewrite app_nil_r.
  - inversion H; subst. eapply Inv_ext; [|exact HI]. intros; now rewrite app_nil_r.
Qed.

Lemma inv_for_each {A : Type} (body : A -> by_player -> exn + by_player)
    (credit : string -> A -> list Z) :
  (forall c a bp bp', Inv c bp -> body a bp = inr bp' ->
                      Inv (fun k => c k ++ credit k a) bp') ->
  forall l c bp bp', Inv c bp -> for_each body l bp = inr bp' ->
                     Inv (fun k => c k ++ flat_map (credit k) l) bp'.
Proof.
  intros Hbody l. induction l as [|a l IH]; intros c bp bp' HI H; cbn in *.
  - inversion H; subst. eapply Inv_ext; [|exact HI]. intros; now rewrite app_nil_r.
  - destruct (body a bp) as [e|bp1] eqn:E; [discriminate|]. cbn in H.
    eapply Inv_ext; [|eapply IH; [eapply Hbody; eauto|exact H]].
    intros k. cbn. now rewrite app_assoc.
Qed.

Lemma inv_credit_main c tname minute k bp :
  k ∈ bp.*1 -> Inv c bp ->
  Inv (fun k' => c k' ++ if is_goal tname && String.eqb k k' then [minute] else [])
      (credit_main tname minute (Some k) bp).
Proof.
  intros Hk HI. unfold credit_main.
  assert (HI' : Inv (fun k' => c k' ++ if is_goal tname && String.eqb k k' then [minute] else [])
                 (if is_goal tname then update k (add_goal minute) bp else bp)).
  { destruct (is_goal tname); cbn.
    - apply inv_update_minute; auto.
    - eapply Inv_ext; [|exact HI]. intros; now rewrite app_nil_r. }
  destruct (is_injury tname); [|exact HI'].
  apply inv_update_same; auto.
Qed.

Lemma inv_process_event c ev bp bp' :
  Inv c bp ->
  process_event ev bp = inr bp' ->
  Inv (fun k => c k ++ credits_event k ev) bp'.
Proof.
  intros HI H. unfold process_event, credits_event in *.
  destruct ev as [| | | | |?|ev];
    try (inversion H; subst; eapply Inv_ext; [|exact HI];
         intros; now rewrite app_nil_r).
  unfold credits_main.
  destruct (type_name ev) as [e|tname]; [discriminate|]. cbn in H.
  unfold _ensure in H.
  set (main := fun k : string =>
         match key_of (resolve_id (main_player ev)) with
         | Some k0 => if is_goal tname && String.eqb k0 k then [minute_of ev] else []
         | None => []
         end).
  assert (Hmain : exists bp1,
    (let '(bp0, rec) := match key_of (resolve_id (main_player ev)) with
                        | Some k => (setdefault k bp, Some k)
                        | None => (bp, None)
                        end in credit_main tname (minute_of ev) rec bp0) = bp1 /\
    Inv (fun k => c k ++ main k) bp1).
  { unfold main. destruct (key_of (resolve_id (main_player ev))) as [k|].
    - destruct (inv_setdefault c bp k HI) as [HI' Hk].
      eexists. split; [reflexivity|]. apply inv_credit_main; auto.
    - eexists. split; [reflexivity|].
      unfold credit_main. destruct (is_goal tname), (is_injury tname);
        (eapply Inv_ext; [|exact HI]; intros; now rewrite app_nil_r). }
  destruct Hmain as (bp1 & E1 & HI1).
  destruct (match key_of (resolve_id (main_player ev)) with
            | Some k => (setdefault k bp, Some k)
            | None => (bp, None)
            end) as [bp0 rec]. subst bp1.
  destruct (related_of ev) as [| | | | |related|?];
    try (inversion H; subst; eapply Inv_ext; [|exact HI1];
         intros; unfold main; now rewrite app_nil_r).
  eapply Inv_ext; [|eapply (inv_for_each _ (fun k => credits_related k (minute_of ev)));
                    [|exact HI1|exact H]].
  - intros k. unfold main. now rewrite app_assoc.
  - intros. eapply inv_process_related; eauto.
Qed.

Lemma Inv_nil : Inv (fun _ => []) [].
Proof.
  split; [constructor|]. split; [|reflexivity].
  intros k s H. by apply elem_of_nil in H.
Qed.

(** C6 (the code raises).  A truthy type name or role that is not a string
    has no [lower]: the normaliser raises AttributeError; an [events] field
    that is a number cannot be iterated: it raises TypeError.  A wrong-typed
    minute, on the other hand, defaults to 0. *)
Theorem process_statsbomb_raises :
  process_statsbomb numeric_type_name = inl AttributeError /\
  process_statsbomb numeric_role = inl AttributeError /\
  process_statsbomb numeric_events = inl TypeError /\
  process_statsbomb
    (events [PDict [("type", PDict [("name", PStr "Goal")]);
                    ("player", PDict [("id", PInt 1)]);
                    ("minute", PList [PStr "x"])]])
  = inr [mkStat "1" 1 0 0 false].
Proof. vm_compute. repeat split; reflexivity. Qed.

(** C7 (as stated, refuted).  Player 999 has two events, a goal at minute
    20 and an injury at minute 75: the update carries minutes 20, not the
    maximum minute 75 of the player's events. *)
Lemma minutes_not_max_of_all_events :
  process_statsbomb goal_then_injury = inr [mkStat "999" 1 0 20 true] /\
  event_minutes "999" goal_then_injury = [20; 75] /\
  max_minute [20; 75] = 75.
Proof. vm_compute. repeat split; reflexivity. Qed.

(** C7 (amended).  For every player of the output, [minutes] is the maximum
    of 0 and the minute marks credited to the player: those of the goal
    events of which the player is the primary athlete and those of the
    related entries that give the player an assist.  It is a maximum, not a
    sum. *)
Theorem minutes_is_max_of_credited (data : pyval) (out : list StatUpdate)
    (stat : StatUpdate) :
  process_statsbomb data = inr out ->
  stat ∈ out ->
  minutes stat = max_minute (credited_minutes (player_id stat) data).
Proof.
  unfold process_statsbomb, credited_minutes.
  destruct (py_iter (events_of data)) as [e|evs]; [discriminate|]. cbn.
  destruct (for_each process_event evs []) as [e|bp] eqn:E; [discriminate|]. cbn.
  intros H Hin. injection H as <-.
  apply list_elem_of_In, in_map_iff in Hin as ([k s] & <- & Hin).
  apply list_elem_of_In in Hin.
  pose proof (inv_for_each process_event credits_event inv_process_event
                evs _ _ _ Inv_nil E) as (_ & Hm & _).
  cbn. apply (Hm _ _ Hin).
Qed.

(** Goal events at minutes 20 and 75 yield minutes = 75. *)
Lemma minutes_is_max_of_credited_witness :
  process_statsbomb two_goals = inr [mkStat "999" 2 0 75 false] /\
  credited_minutes "999" two_goals = [20; 75] /\
  minutes (mkStat "999" 2 0 75 false)
  = max_minute (credited_minutes "999" two_goals).
Proof.
  split; [vm_compute; reflexivity|]. split; [vm_compute; reflexivity|].
  apply (minutes_is_max_of_credited two_goals [mkStat "999" 2 0 75 false]).
  - vm_compute. reflexivity.
  - apply list_elem_of_singleton. reflexivity.
Defined.

(** C10 as stated does not hold.  A 0 in the last alternative of an
    or-chain is the value of the chain, and it is not None: the player
    object [{"id": 0, "player_id": 0}] and the related entry
    [{"id": 0, "role": "assist"}] each produce an update for player "0". *)
Lemma zero_id_emitted :
  process_statsbomb zero_player_object = inr [mkStat "0" 1 0 10 false] /\
  process_statsbomb zero_related_entry = inr [mkStat "0" 0 1 10 false].
Proof. vm_compute. split; reflexivity. Qed.

Lemma credit_main_None tname minute bp : credit_main tname minute None bp = bp.
Proof. unfold credit_main. destruct (is_goal tname), (is_injury tname); reflexivity. Qed.

End NormalizerFacts.

(** * Properties of the live match feed *)

Module FeedFacts.
Import Feed.

(** *** The key is read back unambiguously *)

Lemma append_nil s : "" +:+ s = s.
Proof. reflexivity. Qed.

Lemma append_cons c s t : String c s +:+ t = String c (s +:+ t).
Proof. reflexivity. Qed.

Lemma plain_app s t : plain (s +:+ t) = plain s && plain t.
Proof.
  induction s as [|c s IH]; [reflexivity|].
  rewrite append_cons. simpl. rewrite IH. now rewrite andb_assoc.
Qed.

Lemma pretty_N_char_plain x : Ascii.eqb (pretty_N_char x) "_" = false.
Proof. unfold pretty_N_char. repeat case_match; reflexivity. Qed.

Lemma pretty_N_go_plain x s : plain s = true -> plain (pretty_N_go x s) = true.
Proof.
  revert s. induction (N.lt_wf_0 x) as [x _ IH]; intros s Hs.
  assert (x = 0 \/ 0 < x)%N as [->|Hx] by lia.
  - now rewrite pretty_N_go_0.
  - rewrite pretty_N_go_step by done. apply IH.
    + now apply N.div_lt.
    + cbn. now rewrite pretty_N_char_plain.
Qed.

Lemma pretty_N_plain (x : N) : plain (pretty x) = true.
Proof.
  unfold pretty, pretty_N. case_decide; [reflexivity|].
  now apply pretty_N_go_plain.
Qed.

Lemma pretty_Z_plain (x : Z) : plain (pretty x) = true.
Proof.
  unfold pretty, pretty_Z. destruct x as [|p|p]; [reflexivity| |].
  - apply pretty_N_plain.
  - rewrite plain_app. simpl. apply pretty_N_plain.
Qed.

(** A plain prefix before the first underscore is determined. *)
Lemma split_first a a' r r' :
  plain a = true -> plain a' = true ->
  a +:+ "_" +:+ r = a' +:+ "_" +:+ r' -> a = a' /\ r = r'.
Proof.
  revert a'. induction a as [|c a IH]; intros [|c' a'] Ha Ha' H;
    repeat (rewrite append_nil in H || rewrite append_cons in H); simpl in *.
  - injection H as H. auto.
  - injection H as H1 H2. subst c'. discriminate.
  - injection H as H1 H2. subst c. discriminate.
  - injection H as H1 H2. subst c'.
    apply andb_true_iff in Ha as [_ Ha]. apply andb_true_iff in Ha' as [_ Ha'].
    destruct (IH a' Ha Ha' H2) as [-> ->]. auto.
Qed.

(** A plain suffix after the last underscore is determined. *)
Lemma split_last t t' m m' :
  plain m = true -> plain m' = true ->
  t +:+ "_" +:+ m = t' +:+ "_" +:+ m' -> t = t' /\ m = m'.
Proof.
  revert t'. induction t as [|c t IH]; intros [|c' t'] Hm Hm' H;
    repeat (rewrite append_nil in H || rewrite append_cons in H); simpl in *.
  - injection H as H. auto.
  - injection H as H1 H2. rewrite H2, plain_app in Hm.
    apply andb_true_iff in Hm as [_ Hm]. simpl in Hm. discriminate.
  - injection H as H1 H2. rewrite <- H2, plain_app in Hm'.
    apply andb_true_iff in Hm' as [_ Hm']. simpl in Hm'. discriminate.
  - injection H as H1 H2. subst c'. destruct (IH t' Hm Hm' H2) as [-> ->]. auto.
Qed.

Lemma event_key_inj fid fid' ev ev' :
  event_key fid ev = event_key fid' ev' ->
  fid = fid' /\ player_id ev = player_id ev' /\
  event_type ev = event_type ev' /\ minute ev = minute ev'.
Proof.
  unfold event_key. intros H.
  apply split_first in H as [Hf H]; try apply pretty_Z_plain.
  apply split_first in H as [Hp H]; try apply pretty_Z_plain.
  apply split_last in H as [Ht Hm]; try apply pretty_Z_plain.
  apply (inj pretty) in Hf, Hp, Hm. auto.
Qed.

(** *** Deduplication *)

Section Dedup.
Context {World : Type} (broadcast : live_event -> World -> (exn + unit) * World).

Lemma process_events_seen fid evs feed w :
  Forall (fun ev => event_key fid ev ∈ processed_events feed) evs ->
  process_events World broadcast fid evs feed w = (feed, w, [], None).
Proof.
  induction 1 as [|ev evs Hev _ IH]; simpl; [reflexivity|].
  rewrite decide_True by exact Hev. exact IH.
Qed.

Lemma subseteq_add (k : string) (X Y : gset string) : {[k]} ∪ X ⊆ Y -> X ⊆ Y.
Proof. intros H x Hx. apply H, elem_of_union. now right. Qed.

Lemma elem_of_add (k : string) (X Y : gset string) : {[k]} ∪ X ⊆ Y -> k ∈ Y.
Proof. intros H. apply H, elem_of_union. left. now apply elem_of_singleton. Qed.

(** What a pass leaves behind: only the seen-set grows; the events handed
    on have pairwise distinct keys, all new and now seen; after a pass
    that no exception ended every event of the batch is seen. *)
Lemma process_events_spec fid evs : forall feed w feed' w' passed err,
  process_events World broadcast fid evs feed w = (feed', w', passed, err) ->
  client feed' = client feed /\
  pricing_engine feed' = pricing_engine feed /\
  player_mapping feed' = player_mapping feed /\
  processed_events feed ⊆ processed_events feed' /\
  NoDup (event_key fid <$> passed) /\
  Forall (fun ev => (event_key fid ev ∉ processed_events feed) /\
                    event_key fid ev ∈ processed_events feed') passed /\
  (err = None ->
   Forall (fun ev => event_key fid ev ∈ processed_events feed') evs).
Proof.
  induction evs as [|ev evs IH]; intros feed w feed' w' passed err H; simpl in H.
  - injection H as <- <- <- <-.
    split_and!; auto; constructor.
  - destruct (decide (event_key fid ev ∈ processed_events feed)) as [Hin|Hin].
    + destruct (IH _ _ _ _ _ _ H) as (H1 & H2 & H3 & H4 & H5 & H6 & H7).
      split_and!; auto.
    + destruct (broadcast _ w) as [[e|[]] w1].
      * injection H as <- <- <- <-. simpl. split_and!; auto.
        -- intros x Hx. apply elem_of_union. now right.
        -- apply NoDup_singleton.
        -- constructor; [|constructor]. split; [exact Hin|].
           apply elem_of_union. left. now apply elem_of_singleton.
        -- discriminate.
      * destruct (process_events World broadcast fid evs (add_key _ feed) w1)
          as [[[feed2 w2] passed2] err2] eqn:E.
        injection H as <- <- <- <-.
        destruct (IH _ _ _ _ _ _ E) as (H1 & H2 & H3 & H4 & H5 & H6 & H7).
        simpl in H1, H2, H3, H4, H6.
        pose proof (subseteq_add _ _ _ H4) as Hsub.
        pose proof (elem_of_add _ _ _ H4) as Hk.
        split_and!; auto.
        -- rewrite fmap_cons. apply NoDup_cons. split; [|exact H5].
           intros Hk'. apply list_elem_of_fmap in Hk' as (ev' & Heq & Hev').
           rewrite Forall_forall in H6. destruct (H6 _ Hev') as [Hn _].
           apply Hn. rewrite <- Heq. apply elem_of_union. left.
           now apply elem_of_singleton.
        -- constructor; [split; [exact Hin|exact Hk]|].
           eapply Forall_impl; [exact H6|]. simpl. intros ev' [Hn Hy].
           split; [|exact Hy]. intros Hx. apply Hn, elem_of_union. now right.
Qed.

End Dedup.

(** C2. Deduplication in [_process_fixture].  An event whose key is in the
    seen-set is skipped and nothing else happens for it; otherwise its key
    is inserted and the event is handed to the broadcast callback.  Polling
    a fixture again after a pass that no exception ended hands on nothing
    and changes nothing.  In every case no key is handed on twice, within a
    batch or across two passes over it, and the feed never touches the
    pricing engine. *)
Theorem dedup_at_most_once :
  (forall (World : Type) (broadcast : live_event -> World -> (exn + unit) * World)
          (fid : Z) (ev : PlayerEvent) (evs : list PlayerEvent)
          (feed : LiveMatchFeed) (w : World),
     event_key fid ev ∈ processed_events feed ->
     process_events World broadcast fid (ev :: evs) feed w
     = process_events World broadcast fid evs feed w) /\
  (forall (World : Type) (broadcast : live_event -> World -> (exn + unit) * World)
          (fid : Z) (ev : PlayerEvent) (feed : LiveMatchFeed) (w : World),
     event_key fid ev ∉ processed_events feed ->
     process_events World broadcast fid [ev] feed w
     = let feed' := add_key (event_key fid ev) feed in
       let r := broadcast (message feed' fid ev) w in
       (feed', r.2, [ev], match r.1 with inl e => Some e | inr _ => None end)) /\
  (forall (World : Type) (broadcast : live_event -> World -> (exn + unit) * World)
          (fid : Z) (feed feed1 : LiveMatchFeed) (w w1 : World)
          (passed1 : list PlayerEvent),
     _process_fixture World broadcast fid feed w = (feed1, w1, passed1, None) ->
     _process_fixture World broadcast fid feed1 w1 = (feed1, w1, [], None)) /\
  (forall (World : Type) (broadcast : live_event -> World -> (exn + unit) * World)
          (fid : Z) (feed feed1 feed2 : LiveMatchFeed) (w w1 w2 : World)
          (passed1 passed2 : list PlayerEvent) (err1 err2 : option exn),
     _process_fixture World broadcast fid feed w = (feed1, w1, passed1, err1) ->
     _process_fixture World broadcast fid feed1 w1 = (feed2, w2, passed2, err2) ->
     NoDup (event_key fid <$> (passed1 ++ passed2)) /\
     pricing_engine feed2 = pricing_engine feed).
Proof.
  split_and!.
  - intros World broadcast fid ev evs feed w Hin. simpl.
    now rewrite decide_True.
  - intros World broadcast fid ev feed w Hin. simpl.
    rewrite decide_False by exact Hin.
    destruct (broadcast _ w) as [[e|u] w1]; reflexivity.
  - intros World broadcast fid feed feed1 w w1 passed1 H.
    unfold _process_fixture in *.
    destruct (get_fixture_events (client feed) fid) as [e|evs] eqn:E;
      [discriminate|].
    destruct (process_events_spec broadcast _ _ _ _ _ _ _ _ H)
      as (Hc & _ & _ & _ & _ & _ & Hseen).
    rewrite Hc, E. apply process_events_seen. auto.
  - intros World broadcast fid feed feed1 feed2 w w1 w2 passed1 passed2 err1 err2
           H1 H2.
    unfold _process_fixture in *.
    destruct (get_fixture_events (client feed) fid) as [e|evs] eqn:E.
    + injection H1 as <- <- <- <-. rewrite E in H2.
      injection H2 as <- <- <- <-. split; [constructor|reflexivity].
    + destruct (process_events_spec broadcast _ _ _ _ _ _ _ _ H1)
        as (Hc & Hp & _ & _ & Hnd1 & Hf1 & _).
      rewrite Hc, E in H2.
      destruct (process_events_spec broadcast _ _ _ _ _ _ _ _ H2)
        as (_ & Hp2 & _ & _ & Hnd2 & Hf2 & _).
      split; [|congruence].
      rewrite fmap_app. apply NoDup_app. split_and!; [exact Hnd1| |exact Hnd2].
      intros k Hk1 Hk2.
      apply list_elem_of_fmap in Hk1 as (e1 & -> & He1).
      apply list_elem_of_fmap in Hk2 as (e2 & Heq & He2).
      rewrite Forall_forall in Hf1, Hf2.
      destruct (Hf1 _ He1) as [_ Hin]. destruct (Hf2 _ He2) as [Hnin _].
      apply Hnin. now rewrite <- Heq.
Qed.

(** A batch that repeats a goal: the goal is handed on once; a second poll
    of the fixture hands on nothing. *)
Lemma dedup_at_most_once_witness :
  let r1 := _process_fixture _ record_message 7 (fresh_feed provider_repeating) [] in
  r1.1.2 = [goal_event; other_event] /\ r1.2 = None /\
  _process_fixture _ record_message 7 r1.1.1.1 r1.1.1.2
  = (r1.1.1.1, r1.1.1.2, [], None).
Proof.
  split; [vm_compute; reflexivity|]. split; [vm_compute; reflexivity|].
  apply (proj1 (proj2 (proj2 dedup_at_most_once))
           _ record_message 7 (fresh_feed provider_repeating) _ [] _
           [goal_event; other_event]).
  vm_compute. reflexivity.
Defined.

(** The clients of the scenarios are those the constructor builds; without
    a key it raises. *)
Example clients_as_constructed :
  APIFootballClient_init (Some "direct-key") None goal_provider = inr provider_direct /\
  APIFootballClient_init None (Some "rapid-key") goal_provider = inr provider_rapid /\
  APIFootballClient_init (Some "direct-key") None (get_fixture_events provider_repeating)
  = inr provider_repeating /\
  APIFootballClient_init None (Some "") goal_provider = inl RuntimeError.
Proof. vm_compute. repeat split; reflexivity. Qed.

(** C3 as stated, with a source id among five components, does not hold.
    The key inserted for a goal of player 10 at minute 23 of fixture 7 is
    ["7_10_Goal_23"]: it names the fixture, the player, the event type and
    the minute, and nothing of the client that was polled.  A feed on the
    client built from [API_FOOTBALL_KEY] and a feed on the client built
    from [RAPIDAPI_KEY] insert the same key for the goal (each into its own
    seen-set, and each hands the goal on). *)
Lemma key_has_no_source_component :
  APIFootballClient_init (Some "direct-key") None goal_provider = inr provider_direct /\
  APIFootballClient_init None (Some "rapid-key") goal_provider = inr provider_rapid /\
  api_key provider_direct = Some "direct-key" /\
  api_key provider_rapid = None /\
  event_key 7 goal_event = "7_10_Goal_23" /\
  (let r1 := _process_fixture _ record_message 7 (fresh_feed provider_direct) [] in
   let r2 := _process_fixture _ record_message 7 (fresh_feed provider_rapid) [] in
   processed_events r1.1.1.1 = {["7_10_Goal_23"]} /\
   processed_events r2.1.1.1 = {["7_10_Goal_23"]} /\
   r1.1.2 = [goal_event] /\ r2.1.2 = [goal_event]).
Proof.
  cbv zeta. split_and!; try (vm_compute; reflexivity);
    apply (bool_decide_unpack _); vm_compute; exact I.
Qed.

Lemma event_key_agree fid fid' ev ev' :
  event_key fid ev = event_key fid' ev' <->
  fid = fid' /\ player_id ev = player_id ev' /\
  event_type ev = event_type ev' /\ minute ev = minute ev'.
Proof.
  split; [apply event_key_inj|].
  intros (-> & Hp & Ht & Hm). unfold event_key. now rewrite Hp, Ht, Hm.
Qed.

(** C3 (amended).  The key inserted into the seen-set for an event that is
    handed on is [event_key], the composite of exactly four components,
    fixture id, player id, event type and minute; there is no source id,
    and the seen-set belongs to one feed, which is created with an empty
    one.  Two events have the same key exactly when they agree on all
    four.  So, once the key of an event is in the seen-set of a feed,
    another event is in it exactly when it agrees with that event on the
    four components or was seen before: events that differ in one of the
    four are never taken for duplicates of each other, and an event that
    agrees on the four with one already seen, whatever its player name,
    team or detail, is skipped. *)
Theorem event_key_four_components :
  (forall (fid fid' : Z) (ev ev' : PlayerEvent),
     event_key fid ev = event_key fid' ev' <->
     fid = fid' /\ player_id ev = player_id ev' /\
     event_type ev = event_type ev' /\ minute ev = minute ev') /\
  (forall (World : Type) (broadcast : live_event -> World -> (exn + unit) * World)
          (fid : Z) (ev : PlayerEvent) (feed : LiveMatchFeed) (w : World),
     event_key fid ev ∉ processed_events feed ->
     processed_events (process_events World broadcast fid [ev] feed w).1.1.1
     = {[event_key fid ev]} ∪ processed_events feed) /\
  (forall (fid fid' : Z) (ev ev' : PlayerEvent) (feed : LiveMatchFeed),
     event_key fid' ev' ∈ processed_events (add_key (event_key fid ev) feed) <->
     (fid = fid' /\ player_id ev = player_id ev' /\
      event_type ev = event_type ev' /\ minute ev = minute ev') \/
     event_key fid' ev' ∈ processed_events feed) /\
  (forall (World : Type) (broadcast : live_event -> World -> (exn + unit) * World)
          (fid : Z) (ev ev' : PlayerEvent) (evs : list PlayerEvent)
          (feed : LiveMatchFeed) (w : World),
     player_id ev = player_id ev' ->
     event_type ev = event_type ev' ->
     minute ev = minute ev' ->
     event_key fid ev ∈ processed_events feed ->
     process_events World broadcast fid (ev' :: evs) feed w
     = process_events World broadcast fid evs feed w) /\
  (forall c : APIFootballClient, processed_events (fresh_feed c) = ∅).
Proof.
  split_and!.
  - exact event_key_agree.
  - intros World broadcast fid ev feed w Hin. simpl.
    rewrite decide_False by exact Hin.
    destruct (broadcast _ w) as [[e|u] w1]; reflexivity.
  - intros fid fid' ev ev' feed. simpl.
    rewrite elem_of_union, elem_of_singleton, <- event_key_agree.
    split; (intros [H|H]; [left; congruence|right; exact H]).
  - intros World broadcast fid ev ev' evs feed w Hp Ht Hm Hin. simpl.
    rewrite decide_True; [reflexivity|].
    assert (E : event_key fid ev' = event_key fid ev).
    { apply event_key_agree. auto. }
    now rewrite E.
  - reflexivity.
Qed.

(** Two reports of one goal that differ only in their detail text have the
    same key: once the first is seen, the second is skipped. *)
Lemma event_key_four_components_witness :
  event_key 7 goal_event = event_key 7 goal_event_var /\
  (let seen := add_key (event_key 7 goal_event) (fresh_feed provider_direct) in
     process_events _ record_message 7 [goal_event_var] seen []
     = (seen, [], [], None)).
Proof.
  split.
  - apply (proj2 (proj1 event_key_four_components 7 7 goal_event goal_event_var)).
    repeat split; reflexivity.
  - apply (proj1 (proj2 (proj2 (proj2 event_key_four_components)))
             _ record_message 7 goal_event goal_event_var []);
      [reflexivity|reflexivity|reflexivity|].
    apply (bool_decide_unpack _). vm_compute. exact I.
Defined.

End FeedFacts.

(** * Properties of the broadcast hub *)

Module HubFacts.
Import Hub.

Section Facts.
Context {M : Type} (message : M).

Lemma send_json_clients ws (st : State M) :
  clients (send_json ws message st).2 = clients st.
Proof.
  unfold send_json. destruct (sockets st !! ws) as [sock|]; [|reflexivity].
  destruct (is_open sock); reflexivity.
Qed.

Lemma send_json_result ws (st : State M) :
  (send_json ws message st).1 = if alive st ws then inr tt else inl RuntimeError.
Proof.
  unfold send_json, alive. destruct (sockets st !! ws) as [sock|]; [|reflexivity].
  destruct (is_open sock); reflexivity.
Qed.

Lemma send_json_alive ws (st : State M) ws' :
  alive (send_json ws message st).2 ws' = alive st ws'.
Proof.
  unfold send_json, alive. destruct (sockets st !! ws) as [sock|] eqn:E; [|reflexivity].
  destruct (is_open sock) eqn:O; [|reflexivity]. simpl.
  destruct (decide (ws = ws')) as [<-|Hne].
  - rewrite lookup_insert_eq, E. simpl. now rewrite O.
  - now rewrite lookup_insert_ne.
Qed.

Lemma send_json_inbox ws (st : State M) ws' :
  inbox (send_json ws message st).2 ws' =
  inbox st ws' ++ if decide (ws = ws') then
                    if alive st ws then [message] else []
                  else [].
Proof.
  unfold send_json, alive, inbox.
  destruct (decide (ws = ws')) as [<-|Hne].
  - destruct (sockets st !! ws) as [sock|] eqn:E; simpl.
    + destruct (is_open sock) eqn:O; simpl.
      * now rewrite lookup_insert_eq.
      * rewrite E. now rewrite app_nil_r.
    + now rewrite E.
  - rewrite app_nil_r.
    destruct (sockets st !! ws) as [sock|] eqn:E; simpl; [|reflexivity].
    destruct (is_open sock) eqn:O; simpl; [|reflexivity].
    now rewrite lookup_insert_ne.
Qed.

Lemma send_all_clients l (st : State M) : clients (send_all message l st) = clients st.
Proof.
  revert st. induction l as [|ws l IH]; intros st; simpl; [reflexivity|].
  unfold send_all in *. simpl. rewrite IH. apply send_json_clients.
Qed.

Lemma send_all_alive l (st : State M) ws : alive (send_all message l st) ws = alive st ws.
Proof.
  revert st. induction l as [|x l IH]; intros st; simpl; [reflexivity|].
  unfold send_all in *. simpl. rewrite IH. apply send_json_alive.
Qed.

Lemma send_all_inbox l (st : State M) ws :
  inbox (send_all message l st) ws =
  inbox st ws ++ if alive st ws then replicate (occurrences ws l) message else [].
Proof.
  revert st. induction l as [|x l IH]; intros st.
  - simpl. destruct (alive st ws); now rewrite app_nil_r.
  - unfold send_all in *. simpl. rewrite IH, send_json_alive, send_json_inbox.
    unfold occurrences. rewrite filter_cons.
    destruct (decide (x = ws)) as [->|Hne].
    + destruct (alive st ws); simpl; [|now rewrite !app_nil_r].
      now rewrite <- app_assoc.
    + rewrite app_nil_r. reflexivity.
Qed.

Lemma deliver_spec l2 : forall l1 (st : State M) to_remove fuel,
  clients st = l1 ++ l2 ->
  (length l2 <= fuel)%nat ->
  deliver fuel message (length l1) st to_remove
  = Some (send_all message l2 st, to_remove ++ failing st l2).
Proof.
  induction l2 as [|ws l2 IH]; intros l1 st to_remove fuel Hc Hf.
  - destruct fuel; simpl; rewrite Hc, app_nil_r, lookup_ge_None_2 by lia;
      unfold failing; now rewrite filter_nil, app_nil_r.
  - destruct fuel as [|fuel]; [simpl in Hf; lia|]. cbn [deliver].
    rewrite Hc, lookup_app_r by lia. rewrite Nat.sub_diag. cbn [lookup list_lookup].
    pose proof (send_json_result ws st) as Hr.
    pose proof (send_json_clients ws st) as Hcl.
    destruct (send_json ws message st) as [r st1] eqn:E. simpl in Hr, Hcl.
    assert (Hsa : send_all message (ws :: l2) st = send_all message l2 st1).
    { unfold send_all. simpl. now rewrite E. }
    assert (Hal : forall x, alive st1 x = alive st x).
    { intros x. pose proof (send_json_alive ws st x) as H. now rewrite E in H. }
    assert (Hfl : failing st1 l2 = failing st l2).
    { unfold failing. apply list_filter_iff. intros x. now rewrite Hal. }
    assert (Hc1 : clients st1 = (l1 ++ [ws]) ++ l2).
    { rewrite Hcl, Hc, <- app_assoc. reflexivity. }
    assert (Hlen : S (length l1) = length (l1 ++ [ws])).
    { rewrite length_app. simpl. lia. }
    simpl in Hf.
    unfold failing at 1. rewrite filter_cons. fold (failing st l2).
    destruct (alive st ws) eqn:A; subst r.
    + rewrite decide_False by discriminate.
      rewrite Hlen, (IH _ _ _ _ Hc1) by lia. now rewrite Hsa, Hfl.
    + rewrite decide_True by reflexivity.
      rewrite Hlen, (IH _ _ _ _ Hc1) by lia.
      rewrite Hsa, Hfl, <- app_assoc. reflexivity.
Qed.

Lemma remove_first pre ws l :
  ws ∉ pre -> remove ws (pre ++ ws :: l) = inr (pre ++ l).
Proof.
  induction pre as [|x pre IH]; intros Hn; simpl.
  - now rewrite decide_True.
  - apply not_elem_of_cons in Hn as [Hne Hn].
    rewrite decide_False by congruence. now rewrite IH.
Qed.

Lemma evict_spec l : forall pre (st st0 : State M),
  Forall (fun ws => alive st0 ws = true) pre ->
  clients st = pre ++ l ->
  evict (failing st0 l) st = inr (mkState (pre ++ surviving st0 l) (sockets st)).
Proof.
  induction l as [|ws l IH]; intros pre st st0 Hpre Hc.
  - unfold failing, surviving. rewrite !filter_nil. simpl.
    rewrite <- Hc. destruct st; reflexivity.
  - unfold failing, surviving. rewrite !filter_cons.
    fold (failing st0 l). fold (surviving st0 l).
    destruct (alive st0 ws) eqn:A.
    + rewrite decide_False by discriminate. rewrite decide_True by reflexivity.
      rewrite (IH (pre ++ [ws]) st st0).
      * now rewrite <- app_assoc.
      * apply Forall_app. split; [exact Hpre|]. constructor; [exact A|constructor].
      * now rewrite Hc, <- app_assoc.
    + rewrite decide_True by reflexivity. rewrite decide_False by discriminate.
      simpl. rewrite Hc, remove_first.
      * rewrite (IH pre (mkState (pre ++ l) (sockets st)) st0 Hpre eq_refl).
        reflexivity.
      * intros Hin. rewrite Forall_forall in Hpre. specialize (Hpre _ Hin).
        congruence.
Qed.

End Facts.

(** C4. One broadcast of [message] to the subscriber list.  No delivery
    changes the list; the delivery loop visits every handle of the list and
    ends by reaching its end, with the list as it was: a handle whose
    delivery raises is only recorded in [to_remove].  Every subscriber whose
    delivery does not fail has the message appended to what it was sent,
    once per occurrence in the list, whatever happens to the others; nothing
    is sent to a failing one.  The failing handles are removed after the
    loop: [broadcast] returns without raising and leaves exactly the
    surviving handles, in order. *)
Theorem broadcast_isolates_failures (M : Type) (message : M) (st : State M) :
  exists st1 st',
    (forall ws st0, clients (send_json ws message st0).2 = clients st0) /\
    deliver (length (clients st)) message 0 st [] = Some (st1, failing st (clients st)) /\
    clients st1 = clients st /\
    (forall ws, inbox st1 ws =
                inbox st ws ++ if alive st ws
                               then replicate (occurrences ws (clients st)) message
                               else []) /\
    broadcast (length (clients st)) message st = Some (inr st') /\
    clients st' = surviving st (clients st) /\
    sockets st' = sockets st1 /\
    (forall ws, ws ∈ clients st -> alive st ws = true ->
                message ∈ inbox st' ws /\ ws ∈ clients st') /\
    (forall ws, alive st ws = false -> ws ∉ clients st').
Proof.
  pose proof (deliver_spec message (clients st) [] st [] (length (clients st))
                eq_refl (le_n _)) as Hd.
  simpl in Hd.
  pose proof (evict_spec (clients st) [] (send_all message (clients st) st) st
                (Forall_nil_2 _)) as He.
  rewrite send_all_clients in He. specialize (He eq_refl). simpl in He.
  exists (send_all message (clients st) st).
  exists (mkState (surviving st (clients st))
            (sockets (send_all message (clients st) st))).
  split_and!.
  - intros ws st0. apply send_json_clients.
  - exact Hd.
  - apply send_all_clients.
  - apply send_all_inbox.
  - unfold broadcast. rewrite Hd, He. reflexivity.
  - reflexivity.
  - reflexivity.
  - intros ws Hin Ha. split.
    + change (message ∈ inbox (send_all message (clients st) st) ws).
      rewrite send_all_inbox, Ha. apply elem_of_app. right.
      unfold occurrences.
      assert (Hf : ws ∈ filter (fun x => x = ws) (clients st)).
      { apply list_elem_of_filter. split; [reflexivity|exact Hin]. }
      destruct (filter (fun x => x = ws) (clients st)); [by apply elem_of_nil in Hf|].
      simpl. left.
    + simpl. unfold surviving. apply list_elem_of_filter. split; assumption.
  - intros ws Ha Hin. simpl in Hin. unfold surviving in Hin.
    apply list_elem_of_filter in Hin as [Hin _]. congruence.
Qed.

(** The second of three subscribers is closed: the first and the third
    receive the update, the second is evicted. *)
Lemma broadcast_isolates_failures_witness :
  broadcast 3 "update" three_clients
  = Some (inr (mkState [1%nat; 3%nat]
                 (<[1%nat := mkSocket true ["update"]]>
                    (<[2%nat := mkSocket false []]>
                       (<[3%nat := mkSocket true ["snapshot"; "update"]]> ∅))))) /\
  exists st1 st',
    deliver 3 "update" 0 three_clients [] = Some (st1, [2%nat]) /\
    clients st1 = [1%nat; 2%nat; 3%nat] /\
    broadcast 3 "update" three_clients = Some (inr st') /\
    clients st' = [1%nat; 3%nat].
Proof.
  split; [vm_compute; reflexivity|].
  destruct (broadcast_isolates_failures string "update" three_clients)
    as (st1 & st' & _ & H1 & H2 & _ & H4 & H5 & _).
  exists st1, st'. split_and!; assumption.
Defined.

End HubFacts.

(** * Properties of the event sources *)

Module SourcesFacts.
Import Sources.

(** C8 (the code differs between the variants).  [Simulator.start] is
    idempotent: on a running simulator it changes nothing and creates no
    task.  [LiveDataProvider.start] and [LiveMatchFeed.start] have no such
    guard: every call creates one more polling task, and on a running
    source the handle of the first task is overwritten. *)
Theorem start_while_running :
  (forall (s : Source) (loop : EventLoop),
     _running s = true -> Simulator_start s loop = (s, loop)) /\
  (forall (s : Source) (loop : EventLoop),
     Simulator_start (Simulator_start s loop).1 (Simulator_start s loop).2
     = Simulator_start s loop) /\
  (forall (s : Source) (loop : EventLoop),
     length (tasks (LiveDataProvider_start s loop).2) = S (length (tasks loop)) /\
     length (tasks (LiveMatchFeed_start s loop).2) = S (length (tasks loop))) /\
  LiveDataProvider_start (mkSource true (Some 0%nat)) (mkLoop [0%nat])
  = (mkSource true (Some 1%nat), mkLoop [0%nat; 1%nat]) /\
  LiveMatchFeed_start (mkSource true (Some 0%nat)) (mkLoop [0%nat])
  = (mkSource true (Some 1%nat), mkLoop [0%nat; 1%nat]).
Proof.
  split_and!.
  - intros s loop H. unfold Simulator_start. now rewrite H.
  - intros [[] t] loop; reflexivity.
  - intros s loop. unfold LiveDataProvider_start, LiveMatchFeed_start, create_task.
    simpl. rewrite length_app. simpl. lia.
  - reflexivity.
  - reflexivity.
Qed.

End SourcesFacts.
(** * More properties of the event normaliser *)

Module SummaryFacts.
Import Py Normalizer Summary NormalizerFacts.


(** *** The records are the tallies of the credits *)

Lemma tally_snoc l c : tally (l ++ [c]) = give (tally l) c.
Proof. unfold tally. now rewrite fold_left_app. Qed.

Lemma Tallied_ext c c' bp : (forall k, c k = c' k) -> Tallied c bp -> Tallied c' bp.
Proof.
  intros E (Hnd & Hs & Hk). split; [exact Hnd|]. split.
  - intros k s Hin. rewrite <- E. auto.
  - intros k. rewrite <- E. apply Hk.
Qed.

Lemma Tallied_nil : Tallied (fun _ => []) [].
Proof.
  split; [constructor|]. split.
  - intros k s H. by apply elem_of_nil in H.
  - intros k. split; [intros H; by apply elem_of_nil in H|congruence].
Qed.

Lemma tallied_setdefault c bp k :
  Tallied c bp ->
  Tallied (fun k' => c k' ++ if String.eqb k k' then [Mentioned] else [])
    (setdefault k bp) /\
  k ∈ (setdefault k bp).*1.
Proof.
  intros (Hnd & Hs & Hk).
  assert (Hin' : k ∈ (setdefault k bp).*1).
  { rewrite setdefault_keys. case_decide; [assumption|].
    apply elem_of_app. right. left. }
  split; [|exact Hin']. split; [|split].
  - rewrite setdefault_keys. case_decide as Hin; [exact Hnd|].
    apply NoDup_app. split; [exact Hnd|]. split; [|apply NoDup_singleton].
    intros x Hx Hx'. apply list_elem_of_singleton in Hx'. subst. tauto.
  - intros k' s H. apply setdefault_elem in H as [H|[Hn H]].
    + destruct (String.eqb k k'); [|rewrite app_nil_r; auto].
      rewrite tally_snoc. cbn. auto.
    + injection H as -> ->. rewrite String.eqb_refl.
      assert (E : c k = []).
      { destruct (c k) eqn:E; [reflexivity|]. exfalso. apply Hn, Hk. congruence. }
      rewrite E. reflexivity.
  - intros k'. rewrite setdefault_keys.
    destruct (String.eqb k k') eqn:E.
    + apply String.eqb_eq in E. subst k'. split.
      * intros _ H. by apply app_nil in H as [_ H].
      * intros _. case_decide; [assumption|]. apply elem_of_app. right. left.
    + apply String.eqb_neq in E. rewrite app_nil_r. rewrite <- Hk.
      case_decide; [reflexivity|]. rewrite elem_of_app, list_elem_of_singleton.
      split; [intros [H'|H']; [exact H'|congruence]|auto].
Qed.

Lemma tallied_update c bp k cr :
  k ∈ bp.*1 ->
  Tallied c bp ->
  Tallied (fun k' => c k' ++ if String.eqb k k' then [cr] else [])
    (update k (fun s => give s cr) bp).
Proof.
  intros Hin (Hnd & Hs & Hk). split; [|split].
  - now rewrite update_keys.
  - intros k' s' H. destruct (update_elem _ _ _ _ _ Hnd H) as (s & Hs' & ->).
    destruct (String.eqb k k').
    + rewrite tally_snoc. now rewrite <- (Hs _ _ Hs').
    + rewrite app_nil_r. auto.
  - intros k'. rewrite update_keys.
    destruct (String.eqb k k') eqn:E.
    + apply String.eqb_eq in E. subst k'. split; [|auto].
      intros _ H. by apply app_nil in H as [_ H].
    + rewrite app_nil_r. apply Hk.
Qed.

Lemma for_each_tallied {A : Type} (body : A -> by_player -> exn + by_player)
    (given : string -> A -> list credit) :
  (forall c a bp bp', Tallied c bp -> body a bp = inr bp' ->
                      Tallied (fun k => c k ++ given k a) bp') ->
  forall l c bp bp', Tallied c bp -> for_each body l bp = inr bp' ->
                     Tallied (fun k => c k ++ flat_map (given k) l) bp'.
Proof.
  intros Hbody l. induction l as [|a l IH]; intros c bp bp' HI H; cbn in *.
  - injection H as <-. eapply Tallied_ext; [|exact HI]. intros; now rewrite app_nil_r.
  - destruct (body a bp) as [e|bp1] eqn:E; [discriminate|]. cbn in H.
    eapply Tallied_ext; [|eapply IH; [eapply Hbody; eauto|exact H]].
    intros k. cbn. now rewrite app_assoc.
Qed.

Lemma tallied_process_related c minute r bp bp' :
  Tallied c bp ->
  process_related minute r bp = inr bp' ->
  Tallied (fun k => c k ++ related_credits k minute r) bp'.
Proof.
  intros HI H. unfold process_related, related_credits in *.
  destruct r as [| | | | |?|r];
    try (injection H as <-; eapply Tallied_ext; [|exact HI];
         intros; now rewrite app_nil_r).
  destruct (lower_or_empty _) as [e|role]; [discriminate|]. cbn in H.
  unfold _ensure in H.
  destruct (key_of (resolve_id (related_player r))) as [k|].
  - destruct (tallied_setdefault c bp k HI) as [HI' Hk].
    destruct (is_assist role); cbn in H; injection H as <-.
    + eapply Tallied_ext;
        [|apply (tallied_update _ _ k (Assisted minute) Hk HI')].
      intros k'. cbn. rewrite <- app_assoc.
      destruct (String.eqb k k'); reflexivity.
    + eapply Tallied_ext; [|exact HI']. intros k'. cbn.
      destruct (String.eqb k k'); reflexivity.
  - injection H as <-. eapply Tallied_ext; [|exact HI]. intros; now rewrite app_nil_r.
Qed.

Lemma tallied_credit_main c tname minute k bp :
  k ∈ bp.*1 -> Tallied c bp ->
  Tallied (fun k' => c k' ++ if String.eqb k k' then
                               (if is_goal tname then [Scored minute] else [])
                               ++ (if is_injury tname then [Hurt] else [])
                             else [])
    (credit_main tname minute (Some k) bp).
Proof.
  intros Hk HI. unfold credit_main.
  destruct (is_goal tname), (is_injury tname); cbn.
  - pose proof (tallied_update _ _ k (Scored minute) Hk HI) as H1.
    assert (Hk' : k ∈ (update k (fun s => give s (Scored minute)) bp).*1)
      by now rewrite update_keys.
    pose proof (tallied_update _ _ k Hurt Hk' H1) as H2.
    eapply Tallied_ext; [|exact H2].
    intros k'. cbn. rewrite <- app_assoc. destruct (String.eqb k k'); reflexivity.
  - apply (tallied_update _ _ k (Scored minute) Hk HI).
  - apply (tallied_update _ _ k Hurt Hk HI).
  - eapply Tallied_ext; [|exact HI]. intros k'.
    destruct (String.eqb k k'); now rewrite app_nil_r.
Qed.

Lemma tallied_process_event c ev bp bp' :
  Tallied c bp ->
  process_event ev bp = inr bp' ->
  Tallied (fun k => c k ++ event_credits k ev) bp'.
Proof.
  intros HI H. unfold process_event, event_credits in *.
  destruct ev as [| | | | |?|ev];
    try (injection H as <-; eapply Tallied_ext; [|exact HI];
         intros; now rewrite app_nil_r).
  unfold main_credits.
  destruct (type_name ev) as [e|tname]; [discriminate|]. cbn in H.
  unfold _ensure in H.
  destruct (key_of (resolve_id (main_player ev))) as [k|].
  - destruct (tallied_setdefault c bp k HI) as [HI' Hk].
    pose proof (tallied_credit_main _ tname (minute_of ev) k _ Hk HI') as HI1.
    destruct (related_of ev) as [| | | | |related|?];
      try (injection H as <-; eapply Tallied_ext; [|exact HI1];
           intros k'; cbn; rewrite app_nil_r, <- app_assoc;
           destruct (String.eqb k k'); reflexivity).
    eapply Tallied_ext;
      [|eapply (for_each_tallied _ (fun k => related_credits k (minute_of ev)));
        [|exact HI1|exact H]].
    + intros k'. cbn. rewrite <- !app_assoc. f_equal.
      destruct (String.eqb k k'); reflexivity.
    + intros. eapply tallied_process_related; eauto.
  - rewrite credit_main_None in H.
    destruct (related_of ev) as [| | | | |related|?];
      try (injection H as <-; eapply Tallied_ext; [|exact HI];
           intros k'; cbn; now rewrite app_nil_r).
    eapply Tallied_ext;
      [|eapply (for_each_tallied _ (fun k => related_credits k (minute_of ev)));
        [|exact HI|exact H]].
    + intros k'. reflexivity.
    + intros. eapply tallied_process_related; eauto.
Qed.

Lemma tallied_events evs bp :
  for_each process_event evs [] = inr bp -> Tallied (fun k => credits k evs) bp.
Proof.
  intros H.
  apply (for_each_tallied process_event event_credits tallied_process_event
           evs _ _ _ Tallied_nil H).
Qed.

(** The fields of a tally in closed form. *)
Lemma tally_fields l :
  s_goals (tally l) = goals_of l /\ s_assists (tally l) = assists_of l /\
  s_minutes (tally l) = max_minute (marks_of l) /\ s_injury (tally l) = hurt_in l.
Proof.
  induction l as [|c l (Hg & Ha & Hm & Hi)] using rev_ind; [repeat split|].
  rewrite tally_snoc. unfold goals_of, assists_of, marks_of, hurt_in in *.
  rewrite !List.filter_app, !length_app, flat_map_app, existsb_app.
  destruct c; cbn [give add_goal add_assist set_injury s_goals s_assists s_minutes
                   s_injury List.filter is_scored is_assisted is_hurt flat_map
                   existsb length app];
    rewrite ?app_nil_r, ?max_minute_app, ?orb_false_r, ?orb_true_r, ?Nat.add_0_r, ?Hg, ?Ha, ?Hm, ?Hi;
    repeat split; lia.
Qed.

Lemma emit_tally k l : emit (k, tally l) = summary k l.
Proof.
  destruct (tally_fields l) as (Hg & Ha & Hm & Hi).
  unfold emit, summary. cbn. now rewrite Hg, Ha, Hm, Hi.
Qed.

Lemma process_statsbomb_inv data out :
  process_statsbomb data = inr out ->
  exists evs bp, py_iter (events_of data) = inr evs /\
                 for_each process_event evs [] = inr bp /\ out = map emit bp.
Proof.
  unfold process_statsbomb.
  destruct (py_iter (events_of data)) as [e|evs]; [discriminate|]. cbn.
  destruct (for_each process_event evs []) as [e|bp] eqn:E; [discriminate|]. cbn.
  intros H. injection H as <-. exists evs, bp. repeat split. exact E.
Qed.

(** The updates emitted are the summaries of the players that have a
    credit. *)
Lemma emitted_iff (data : pyval) (out : list StatUpdate) :
  process_statsbomb data = inr out ->
  forall stat : StatUpdate,
    stat ∈ out <->
    credits_in (player_id stat) data <> [] /\
    stat = summary (player_id stat) (credits_in (player_id stat) data).
Proof.
  intros H. destruct (process_statsbomb_inv _ _ H) as (evs & bp & Hevs & Hbp & ->).
  destruct (tallied_events _ _ Hbp) as (Hnd & Hs & Hk).
  unfold credits_in. rewrite Hevs. intros stat. split.
  - intros Hin. apply list_elem_of_fmap in Hin as ([k s] & -> & Hin).
    rewrite (Hs _ _ Hin), emit_tally. cbn. split; [|reflexivity].
    apply Hk. apply (list_elem_of_fmap_2 fst) in Hin. exact Hin.
  - intros [Hne ->]. cbn in Hne. apply Hk in Hne.
    apply list_elem_of_fmap in Hne as ([k s] & Ek & Hin). cbn in Ek. subst k.
    apply list_elem_of_fmap. exists (player_id (summary (player_id stat) (credits (player_id stat) evs)), s).
    cbn. split; [|exact Hin]. rewrite (Hs _ _ Hin), emit_tally. reflexivity.
Qed.

Lemma emitted_nodup (data : pyval) (out : list StatUpdate) :
  process_statsbomb data = inr out -> NoDup (player_id <$> out).
Proof.
  intros H. destruct (process_statsbomb_inv _ _ H) as (evs & bp & Hevs & Hbp & ->).
  destruct (tallied_events _ _ Hbp) as (Hnd & _ & _).
  replace (player_id <$> map emit bp) with (bp.*1); [exact Hnd|].
  clear. induction bp as [|[k s] bp IH]; cbn; [reflexivity|]. now rewrite IH.
Qed.

(** *** When the normaliser raises *)

Lemma lower_or_empty_cases v :
  if str_or_falsy v then exists s, lower_or_empty v = inr s
  else lower_or_empty v = inl AttributeError.
Proof.
  unfold lower_or_empty, py_or, str_or_falsy.
  destruct v as [|b|n|f|s|l|d]; cbn; eauto.
  - destruct b; cbn; eauto.
  - destruct (n =? 0); cbn; eauto.
  - destruct f; cbn; eauto.
  - destruct (String.eqb s ""); cbn; eauto.
  - destruct l; cbn; eauto.
  - destruct d; cbn; eauto.
Qed.

Lemma process_related_cases minute r bp :
  if role_ok r then exists bp', process_related minute r bp = inr bp'
  else process_related minute r bp = inl AttributeError.
Proof.
  unfold role_ok, process_related. destruct r as [| | | | |?|r]; eauto.
  pose proof (lower_or_empty_cases (py_or (dict_get r "role") (dict_get r "type"))) as H.
  destruct (str_or_falsy _).
  - destruct H as [s ->]. cbn. destruct (_ensure _ bp) as [bp1 [k|]]; eauto.
  - rewrite H. reflexivity.
Qed.

Lemma for_each_cases {A : Type} (body : A -> by_player -> exn + by_player)
    (ok : A -> bool) :
  (forall a bp, if ok a then exists bp', body a bp = inr bp'
                else body a bp = inl AttributeError) ->
  forall l bp, if forallb ok l then exists bp', for_each body l bp = inr bp'
               else for_each body l bp = inl AttributeError.
Proof.
  intros Hbody l. induction l as [|a l IH]; intros bp; cbn; [eauto|].
  specialize (Hbody a bp). destruct (ok a); cbn.
  - destruct Hbody as [bp1 ->]. cbn. apply IH.
  - now rewrite Hbody.
Qed.

Lemma type_name_cases ev :
  if match py_or (dict_get ev "type") (PDict []) with
     | PDict t => str_or_falsy (dict_get t "name")
     | _ => true
     end
  then exists s, type_name ev = inr s
  else type_name ev = inl AttributeError.
Proof.
  unfold type_name. destruct (py_or (dict_get ev "type") (PDict [])); eauto.
  apply lower_or_empty_cases.
Qed.

Lemma process_event_cases ev bp :
  if event_ok ev then exists bp', process_event ev bp = inr bp'
  else process_event ev bp = inl AttributeError.
Proof.
  unfold event_ok, process_event. destruct ev as [| | | | |?|ev]; eauto.
  pose proof (type_name_cases ev) as Ht.
  destruct (match py_or (dict_get ev "type") (PDict []) with
            | PDict t => str_or_falsy (dict_get t "name")
            | _ => true
            end).
  - destruct Ht as [tname ->]. cbn.
    destruct (_ensure _ bp) as [bp1 rec].
    destruct (related_of ev); eauto.
    apply (for_each_cases _ role_ok). intros. apply process_related_cases.
  - rewrite Ht. reflexivity.
Qed.

(** The normaliser returns, or raises TypeError or AttributeError, by the
    shape of the payload alone. *)
Lemma process_statsbomb_cases (data : pyval) :
  match py_iter (events_of data) with
  | inl _ => process_statsbomb data = inl TypeError
  | inr evs =>
      if forallb event_ok evs then exists out, process_statsbomb data = inr out
      else process_statsbomb data = inl AttributeError
  end.
Proof.
  unfold process_statsbomb.
  destruct (py_iter (events_of data)) as [e|evs] eqn:E.
  - unfold py_iter in E. destruct (events_of data); try discriminate; now injection E as <-.
  - cbn. pose proof (for_each_cases _ _ process_event_cases evs []) as H.
    destruct (forallb event_ok evs).
    + destruct H as [bp ->]. cbn. eauto.
    + rewrite H. reflexivity.
Qed.

(** *** Events that are not objects *)

Lemma for_each_skip_non_dict evs : forall bp,
  for_each process_event (List.filter is_dict evs) bp = for_each process_event evs bp.
Proof.
  induction evs as [|ev evs IH]; intros bp; [reflexivity|].
  destruct ev; cbn [List.filter is_dict for_each]; rewrite ?IH; try reflexivity.
  unfold mbind. destruct (process_event _ bp); cbn; [reflexivity|]. apply IH.
Qed.

Lemma py_iter_events evs : py_iter (events_of (events evs)) = inr evs.
Proof. destruct evs; reflexivity. Qed.

(** *** The order of the events *)

Lemma filter_length_perm {A : Type} (f : A -> bool) l l' :
  l ≡ₚ l' -> length (List.filter f l) = length (List.filter f l').
Proof.
  induction 1 as [|x l l' _ IH|x y l|l l' l'' _ IH1 _ IH2]; cbn;
    [reflexivity| | |congruence].
  - destruct (f x); cbn; congruence.
  - destruct (f x), (f y); reflexivity.
Qed.

Lemma max_minute_perm l l' : l ≡ₚ l' -> max_minute l = max_minute l'.
Proof.
  unfold max_minute.
  induction 1 as [|x l l' _ IH|x y l|l l' l'' _ IH1 _ IH2]; cbn;
    [reflexivity|congruence|lia|congruence].
Qed.

Lemma existsb_perm {A : Type} (f : A -> bool) l l' :
  l ≡ₚ l' -> existsb f l = existsb f l'.
Proof.
  induction 1 as [|x l l' _ IH|x y l|l l' l'' _ IH1 _ IH2]; cbn;
    [reflexivity|congruence| |congruence].
  destruct (f x), (f y); reflexivity.
Qed.

Lemma forallb_perm {A : Type} (f : A -> bool) l l' :
  l ≡ₚ l' -> forallb f l = forallb f l'.
Proof.
  induction 1 as [|x l l' _ IH|x y l|l l' l'' _ IH1 _ IH2]; cbn;
    [reflexivity|congruence| |congruence].
  destruct (f x), (f y); reflexivity.
Qed.

Lemma summary_perm k l l' : l ≡ₚ l' -> summary k l = summary k l'.
Proof.
  intros H. unfold summary, goals_of, assists_of, hurt_in, marks_of.
  rewrite (filter_length_perm is_scored _ _ H), (filter_length_perm is_assisted _ _ H),
    (existsb_perm is_hurt _ _ H).
  f_equal. apply max_minute_perm. now apply Permutation_flat_map.
Qed.

(** X1. Each update emitted is the summary of what the events give to its
    player: goals and assists are the numbers of goal events (as primary
    athlete) and of assist entries (as related athlete), minutes is the
    largest of their minute marks and 0, injury tells whether an injury
    event names the player.  A player has an update exactly when an event
    or a related entry names him, whatever its type: a player only
    mentioned gets an update with no goals, no assists and no minutes. *)
Theorem emitted_update_is_summary (data : pyval) (out : list StatUpdate) :
  process_statsbomb data = inr out ->
  forall stat : StatUpdate,
    stat ∈ out <->
    credits_in (player_id stat) data <> [] /\
    stat = summary (player_id stat) (credits_in (player_id stat) data).
Proof. apply emitted_iff. Qed.

(** A goal at minute 20 and an injury at minute 75 for player 999. *)
Lemma emitted_update_is_summary_witness :
  process_statsbomb goal_then_injury = inr [mkStat "999" 1 0 20 true] /\
  credits_in "999" goal_then_injury = [Mentioned; Scored 20; Mentioned; Hurt] /\
  (mkStat "999" 1 0 20 true ∈ [mkStat "999" 1 0 20 true] <->
   credits_in "999" goal_then_injury <> [] /\
   mkStat "999" 1 0 20 true = summary "999" (credits_in "999" goal_then_injury)).
Proof.
  split; [vm_compute; reflexivity|]. split; [vm_compute; reflexivity|].
  apply (emitted_update_is_summary goal_then_injury [mkStat "999" 1 0 20 true]).
  vm_compute. reflexivity.
Defined.

(** X2. A pass emits at most one update per player: the player ids of the
    updates are pairwise distinct. *)
Theorem one_update_per_player (data : pyval) (out : list StatUpdate) :
  process_statsbomb data = inr out -> NoDup (player_id <$> out).
Proof. apply emitted_nodup. Qed.

(** The payload with two goals of player 999. *)
Lemma one_update_per_player_witness :
  NoDup (player_id <$> [mkStat "999" 2 0 75 false]).
Proof.
  apply (one_update_per_player two_goals). vm_compute. reflexivity.
Defined.

(** X3. The normaliser raises exactly on two shapes of payload.  When the
    value of "events" (or "event") cannot be iterated it raises TypeError.
    Otherwise it raises AttributeError when some event object has a type
    name, or some related entry a role, that is neither a string nor a
    value that [or] replaces (null, 0, false, an empty list or object); and
    it returns in every other case. *)
Theorem raises_exactly_on_bad_names (data : pyval) :
  match py_iter (events_of data) with
  | inl _ => process_statsbomb data = inl TypeError
  | inr evs =>
      if forallb event_ok evs then exists out, process_statsbomb data = inr out
      else process_statsbomb data = inl AttributeError
  end.
Proof. apply process_statsbomb_cases. Qed.

(** X4. Events that are not objects (numbers, strings, lists, null) are
    skipped: a payload gives what it gives without them, exceptions
    included, as a raw list and under the key "events". *)
Theorem non_dict_events_ignored (evs : list pyval) :
  process_statsbomb (PList (List.filter is_dict evs)) = process_statsbomb (PList evs) /\
  process_statsbomb (events (List.filter is_dict evs)) = process_statsbomb (events evs).
Proof.
  unfold process_statsbomb. rewrite !py_iter_events. cbn.
  now rewrite for_each_skip_non_dict.
Qed.

(** X5. The order of the events does not matter to the statistics: when
    the normaliser returns on a list of events it returns on every
    reordering of it, with the same updates up to their order. *)
Theorem event_order_irrelevant (evs evs' : list pyval) (out : list StatUpdate) :
  evs ≡ₚ evs' ->
  process_statsbomb (PList evs) = inr out ->
  exists out', process_statsbomb (PList evs') = inr out' /\ out ≡ₚ out'.
Proof.
  intros Hp H.
  pose proof (process_statsbomb_cases (PList evs')) as H'. cbn [py_iter events_of] in H'.
  pose proof (process_statsbomb_cases (PList evs)) as H0. cbn [py_iter events_of] in H0.
  rewrite <- (forallb_perm event_ok _ _ Hp) in H'.
  destruct (forallb event_ok evs); [|congruence].
  destruct H' as [out' H']. exists out'. split; [exact H'|].
  assert (Hc : forall k, credits k evs ≡ₚ credits k evs').
  { intros k. unfold credits. now apply Permutation_flat_map. }
  apply NoDup_Permutation.
  - eapply NoDup_fmap_1, emitted_nodup, H.
  - eapply NoDup_fmap_1, emitted_nodup, H'.
  - intros stat. rewrite (emitted_iff _ _ H stat), (emitted_iff _ _ H' stat).
    unfold credits_in. cbn.
    rewrite (summary_perm _ _ _ (Hc (player_id stat))).
    specialize (Hc (player_id stat)).
    split; intros [Hne E]; (split; [|exact E]); intros Hnil; apply Hne;
      rewrite Hnil in Hc.
    + now apply Permutation_nil_r in Hc.
    + now apply Permutation_nil in Hc.
Qed.

(** A goal and an injury for player 999, in both orders. *)
Lemma event_order_irrelevant_witness :
  exists out',
    process_statsbomb (PList [event "Injury" 999 75; event "Goal" 999 20]) = inr out' /\
    [mkStat "999" 1 0 20 true] ≡ₚ out'.
Proof.
  apply (event_order_irrelevant [event "Goal" 999 20; event "Injury" 999 75]).
  - apply perm_swap.
  - vm_compute. reflexivity.
Defined.

(** X6. No update carries a negative count: goals, assists and minutes are
    at least 0, whatever the minute marks of the payload (a negative mark
    never lowers minutes below its initial 0). *)
Theorem emitted_counts_are_nonnegative (data : pyval) (out : list StatUpdate)
    (stat : StatUpdate) :
  process_statsbomb data = inr out ->
  stat ∈ out ->
  0 <= goals stat /\ 0 <= assists stat /\ 0 <= minutes stat.
Proof.
  intros H Hin. apply (emitted_iff _ _ H) in Hin as [_ ->].
  unfold summary, goals_of, assists_of. cbn [goals assists minutes].
  split_and!; try lia.
  generalize (marks_of (credits_in (player_id stat) data)). intros l.
  unfold max_minute. induction l as [|m l IH]; cbn; lia.
Qed.

(** A goal with the minute mark -3. *)
Lemma emitted_counts_are_nonnegative_witness :
  process_statsbomb (events [event "Goal" 5 (-3)]) = inr [mkStat "5" 1 0 0 false] /\
  0 <= goals (mkStat "5" 1 0 0 false) /\ 0 <= assists (mkStat "5" 1 0 0 false) /\
  0 <= minutes (mkStat "5" 1 0 0 false).
Proof.
  split; [vm_compute; reflexivity|].
  apply (emitted_counts_are_nonnegative (events [event "Goal" 5 (-3)])
           [mkStat "5" 1 0 0 false]).
  - vm_compute. reflexivity.
  - apply list_elem_of_singleton. reflexivity.
Defined.

End SummaryFacts.

(** * Identifiers that are absent, and identifiers that are 0 *)

Module ZeroIdFacts.
Import Py Normalizer Summary NormalizerFacts SummaryFacts.

Lemma key_of_None (pid : pyval) : key_of pid = None <-> pid = PNone.
Proof. destruct pid; cbn; split; congruence. Qed.

Lemma py_or_falsy (a b : pyval) : truthy a = false -> py_or a b = b.
Proof. unfold py_or. now intros ->. Qed.

Lemma flat_map_nonempty {A B : Type} (f : A -> list B) (p : A -> bool) (l : list A) :
  (forall a, a ∈ l -> (f a <> [] <-> p a = true)) ->
  flat_map f l <> [] <-> existsb p l = true.
Proof.
  induction l as [|a l IH]; intros H; cbn.
  - split; [congruence|discriminate].
  - rewrite orb_true_iff, <- IH, <- (H a) by (intros; try apply H; now constructor).
    destruct (f a); cbn.
    + split; [now right|]. intros [Hn|Hn]; [congruence|exact Hn].
    + split; [intros _; left; discriminate|intros _; discriminate].
Qed.

Lemma main_credits_named key ev tname :
  type_name ev = inr tname ->
  main_credits key ev <> [] <-> names_main key ev = true.
Proof.
  intros Ht. unfold main_credits, names_main. rewrite Ht, bool_decide_eq_true.
  destruct (key_of (resolve_id (main_player ev))) as [k|]; [|split; congruence].
  destruct (String.eqb k key) eqn:E.
  - apply String.eqb_eq in E. subst. split; [reflexivity|discriminate].
  - apply String.eqb_neq in E. split; congruence.
Qed.

Lemma related_credits_named key minute r :
  role_ok r = true ->
  related_credits key minute r <> [] <-> names_related key r = true.
Proof.
  unfold related_credits, names_related, role_ok.
  destruct r as [| | | | | |r]; try (intros _; split; [congruence|discriminate]).
  intros Hok. pose proof (lower_or_empty_cases
                            (py_or (dict_get r "role") (dict_get r "type"))) as Hc.
  rewrite Hok in Hc. destruct Hc as [role ->]. rewrite bool_decide_eq_true.
  destruct (key_of (resolve_id (related_player r))) as [k|]; [|split; congruence].
  destruct (String.eqb k key) eqn:E.
  - apply String.eqb_eq in E. subst. split; [reflexivity|discriminate].
  - apply String.eqb_neq in E. split; congruence.
Qed.

Lemma event_credits_named key ev :
  event_ok ev = true ->
  event_credits key ev <> [] <-> names key ev = true.
Proof.
  unfold event_credits, names, event_ok.
  destruct ev as [| | | | | |ev]; try (intros _; split; [congruence|discriminate]).
  intros Hok. apply andb_true_iff in Hok as [Ht Hr].
  pose proof (type_name_cases ev) as Hc. rewrite Ht in Hc. destruct Hc as [tname Hn].
  rewrite orb_true_iff, <- (main_credits_named key ev tname Hn).
  assert (Hrel : match related_of ev with
                 | PList related => flat_map (related_credits key (minute_of ev)) related
                 | _ => []
                 end <> [] <->
                 match related_of ev with
                 | PList related => existsb (names_related key) related
                 | _ => false
                 end = true).
  { destruct (related_of ev) as [| | | | |related|]; try (split; [congruence|discriminate]).
    apply flat_map_nonempty. intros r Hin. apply related_credits_named.
    rewrite forallb_forall in Hr. apply Hr. now apply list_elem_of_In. }
  rewrite <- Hrel.
  destruct (main_credits key ev); cbn.
  - split; [now right|]. intros [Hn'|Hn']; [congruence|exact Hn'].
  - split; [intros _; left; discriminate|intros _; discriminate].
Qed.

(** On a payload that the normaliser accepts, an update for a player is
    emitted exactly when some event names the player. *)
Lemma emitted_named (data : pyval) (out : list StatUpdate) (key : string) :
  process_statsbomb data = inr out ->
  (exists stat : StatUpdate, stat ∈ out /\ player_id stat = key) <->
  named_in key data = true.
Proof.
  intros H.
  assert (Hcr : (exists stat : StatUpdate, stat ∈ out /\ player_id stat = key) <->
                credits_in key data <> []).
  { split.
    - intros (stat & Hin & <-). now apply (emitted_iff data out H stat).
    - intros Hne. exists (summary key (credits_in key data)). split; [|reflexivity].
      apply (emitted_iff data out H). split; [exact Hne|reflexivity]. }
  rewrite Hcr. unfold credits_in, named_in, credits.
  pose proof (process_statsbomb_cases data) as Hc.
  destruct (py_iter (events_of data)) as [e|evs]; [congruence|].
  destruct (forallb event_ok evs) eqn:Hok; [|congruence].
  apply flat_map_nonempty. intros ev Hin. apply event_credits_named.
  rewrite forallb_forall in Hok. apply Hok. now apply list_elem_of_In.
Qed.

(** C10 (amended).  Only None is an absent identifier.  An event whose
    resolved primary identifier is None creates no record and credits
    nothing, and likewise a related entry.  The number 0 is falsy: in an
    or-chain it is replaced by the next alternative, whatever that is, and
    the last alternative is the value of the chain as it stands.  So a
    player object [{"id": 0}] resolves to its [player_id], which is None
    when the object has none; and a 0 in the last alternative, be it the
    [player_id] of a player object, the [playerId] of an event or the [id]
    of a related entry, is the identifier 0, for which [_ensure] creates
    the record "0".  On a payload that the normaliser accepts, an update
    for a player is emitted exactly when some event names the player, as
    its primary athlete or in a related entry, by an identifier that is not
    None; hence an event or a related entry whose identifier resolves to 0
    yields an update with player_id "0", and a payload whose player objects
    are all [{"id": 0}] emits nothing. *)
Theorem only_none_is_absent :
  (forall pid : pyval, key_of pid = None <-> pid = PNone) /\
  (forall (pid : pyval) (tname : string) (minute : Z) (bp : by_player),
     key_of pid = None ->
     _ensure pid bp = (bp, None) /\ credit_main tname minute None bp = bp) /\
  (forall (r : list (string * pyval)) (minute : Z) (bp : by_player) (role : string),
     lower_or_empty (py_or (dict_get r "role") (dict_get r "type")) = inr role ->
     key_of (resolve_id (related_player r)) = None ->
     process_related minute (PDict r) bp = inr bp) /\
  (forall bp : by_player, _ensure (PInt 0) bp = (setdefault "0" bp, Some "0")) /\
  (forall (p : list (string * pyval)),
     truthy (dict_get p "id") = false ->
     resolve_id (PDict p) = dict_get p "player_id") /\
  (forall (ev : list (string * pyval)),
     truthy (dict_get ev "player") = false ->
     truthy (dict_get ev "player_id") = false ->
     main_player ev = dict_get ev "playerId") /\
  (forall (r : list (string * pyval)),
     truthy (dict_get r "player") = false ->
     truthy (dict_get r "player_id") = false ->
     related_player r = dict_get r "id") /\
  (forall (data : pyval) (out : list StatUpdate) (key : string),
     process_statsbomb data = inr out ->
     (exists stat : StatUpdate, stat ∈ out /\ player_id stat = key) <->
     named_in key data = true) /\
  (forall (data : pyval) (out : list StatUpdate) (evs : list pyval)
          (ev : list (string * pyval)),
     process_statsbomb data = inr out ->
     py_iter (events_of data) = inr evs ->
     PDict ev ∈ evs ->
     resolve_id (main_player ev) = PInt 0 ->
     exists stat : StatUpdate, stat ∈ out /\ player_id stat = "0") /\
  (forall (data : pyval) (out : list StatUpdate) (evs related : list pyval)
          (ev r : list (string * pyval)),
     process_statsbomb data = inr out ->
     py_iter (events_of data) = inr evs ->
     PDict ev ∈ evs ->
     related_of ev = PList related ->
     PDict r ∈ related ->
     resolve_id (related_player r) = PInt 0 ->
     exists stat : StatUpdate, stat ∈ out /\ player_id stat = "0") /\
  process_statsbomb zero_id_only = inr [].
Proof.
  split_and!.
  - exact key_of_None.
  - intros pid tname minute bp H. unfold _ensure. rewrite H.
    split; [reflexivity|apply credit_main_None].
  - intros r minute bp role Hrole Hkey. unfold process_related, _ensure.
    rewrite Hrole, Hkey. reflexivity.
  - reflexivity.
  - intros p H. unfold resolve_id. now apply py_or_falsy.
  - intros ev H1 H2. unfold main_player. now rewrite (py_or_falsy _ _ H1), (py_or_falsy _ _ H2).
  - intros r H1 H2. unfold related_player. now rewrite (py_or_falsy _ _ H1), (py_or_falsy _ _ H2).
  - intros data out key H. now apply emitted_named.
  - intros data out evs ev H Hevs Hin Hid.
    apply (emitted_named data out "0" H). unfold named_in. rewrite Hevs.
    apply existsb_exists. exists (PDict ev). split; [now apply list_elem_of_In|].
    cbn [names]. apply orb_true_iff. left.
    unfold names_main. rewrite Hid. reflexivity.
  - intros data out evs related ev r H Hevs Hin Hrel Hr Hid.
    apply (emitted_named data out "0" H). unfold named_in. rewrite Hevs.
    apply existsb_exists. exists (PDict ev). split; [now apply list_elem_of_In|].
    cbn [names]. apply orb_true_iff. right. rewrite Hrel.
    apply existsb_exists. exists (PDict r). split; [now apply list_elem_of_In|].
    cbn [names_related]. rewrite Hid. reflexivity.
  - vm_compute. reflexivity.
Qed.

(** A goal whose only identifier is ["playerId": 0] is a goal of player
    "0"; the player object [{"id": 0}] names nobody. *)
Lemma only_none_is_absent_witness :
  process_statsbomb zero_playerId = inr [mkStat "0" 1 0 10 false] /\
  (exists stat : StatUpdate,
     stat ∈ [mkStat "0" 1 0 10 false] /\ player_id stat = "0") /\
  key_of (resolve_id (PDict [("id", PInt 0)])) = None.
Proof.
  split; [vm_compute; reflexivity|]. split.
  - apply (proj1 (proj2 (proj2 (proj2 (proj2 (proj2 (proj2 (proj2 (proj2
             only_none_is_absent))))))))
             zero_playerId [mkStat "0" 1 0 10 false]
             [PDict [("type", PDict [("name", PStr "Goal")]);
                     ("playerId", PInt 0); ("minute", PInt 10)]]
             [("type", PDict [("name", PStr "Goal")]);
              ("playerId", PInt 0); ("minute", PInt 10)]).
    + vm_compute. reflexivity.
    + vm_compute. reflexivity.
    + apply list_elem_of_singleton. reflexivity.
    + vm_compute. reflexivity.
  - apply (proj2 (proj1 only_none_is_absent _)).
    rewrite (proj1 (proj2 (proj2 (proj2 (proj2 only_none_is_absent))))
               [("id", PInt 0)]); reflexivity.
Defined.

End ZeroIdFacts.

(** * More properties of the pricing engine and of its callers *)

Module SeriesFacts.
Import Pricing Py Normalizer Series Integrate App PricingFacts SummaryFacts.


(** The engine a call leaves behind, and its entries. *)
Lemma run_alone_engine stat eng log :
  (run_alone (apply_stat stat) eng log).1.1 = committed stat eng.
Proof.
  rewrite run_alone_apply_stat. unfold committed.
  destruct (delta_of stat); reflexivity.
Qed.

Lemma committed_other stat eng q :
  q <> player_id stat -> prices (committed stat eng) !! q = prices eng !! q.
Proof.
  intros Hq. unfold committed, ensured, set_price.
  destruct (delta_of stat); [destruct (prices eng !! player_id stat)|]; cbn;
    rewrite ?lookup_insert_ne by congruence; reflexivity.
Qed.

Lemma committed_own stat eng :
  prices (committed stat eng) !! player_id stat =
  Some match delta_of stat with
       | inr delta => price_rule (current_price eng (player_id stat)) (injury stat) delta
       | inl _ => current_price eng (player_id stat)
       end.
Proof.
  unfold committed, ensured, set_price, current_price.
  destruct (delta_of stat); [destruct (prices eng !! player_id stat) eqn:E|]; cbn;
    rewrite ?lookup_insert_eq; auto.
Qed.

Lemma committed_base stat eng : base_price (committed stat eng) = base_price eng.
Proof.
  unfold committed, ensured, set_price.
  destruct (delta_of stat); [destruct (prices eng !! player_id stat)|]; reflexivity.
Qed.

(** X7. An update touches one player: whether the call returns or raises,
    the prices of all other players are what they were, the player of the
    update is on record afterwards, and the base price is unchanged. *)
Theorem apply_stat_touches_one_player (stat : StatUpdate) (eng : PricingEngine)
    (log : list log_line) :
  let eng' := (run_alone (apply_stat stat) eng log).1.1 in
  (forall q : string, q <> player_id stat -> prices eng' !! q = prices eng !! q) /\
  is_Some (prices eng' !! player_id stat) /\
  base_price eng' = base_price eng.
Proof.
  cbn zeta. rewrite run_alone_engine. split; [|split].
  - intros q Hq. now apply committed_other.
  - rewrite committed_own. eauto.
  - apply committed_base.
Qed.

Lemma engine_eq e1 e2 :
  prices e1 = prices e2 -> base_price e1 = base_price e2 -> e1 = e2.
Proof. destruct e1, e2; cbn; congruence. Qed.

Lemma current_price_committed_other stat eng q :
  q <> player_id stat -> current_price (committed stat eng) q = current_price eng q.
Proof.
  intros Hq. unfold current_price. rewrite committed_other by exact Hq.
  now rewrite committed_base.
Qed.

Lemma committed_comm a b eng :
  player_id a <> player_id b ->
  committed b (committed a eng) = committed a (committed b eng).
Proof.
  intros Hne. apply engine_eq; [|now rewrite !committed_base].
  apply map_eq. intros q.
  destruct (decide (q = player_id a)) as [->|Ha].
  - rewrite committed_other by exact Hne. rewrite !committed_own.
    now rewrite current_price_committed_other by exact Hne.
  - destruct (decide (q = player_id b)) as [->|Hb].
    + rewrite committed_own, committed_other by congruence.
      rewrite committed_own. now rewrite current_price_committed_other by congruence.
    + now rewrite !committed_other by assumption.
Qed.

Lemma run_alone_result stat eng log :
  (run_alone (apply_stat stat) eng log).2 =
  match delta_of stat with
  | inr delta => inr (price_rule (current_price eng (player_id stat)) (injury stat) delta)
  | inl e => inl e
  end.
Proof. rewrite run_alone_apply_stat. destruct (delta_of stat); reflexivity. Qed.

(** X8. Updates of two different players commute: awaited one after the
    other in either order they leave the same engine, and each call returns
    (or raises) the same in both orders. *)
Theorem updates_of_two_players_commute (a b : StatUpdate) (eng : PricingEngine)
    (log : list log_line) :
  player_id a <> player_id b ->
  let ra := run_alone (apply_stat a) eng log in
  let rab := run_alone (apply_stat b) ra.1.1 ra.1.2 in
  let rb := run_alone (apply_stat b) eng log in
  let rba := run_alone (apply_stat a) rb.1.1 rb.1.2 in
  rab.1.1 = rba.1.1 /\ ra.2 = rba.2 /\ rb.2 = rab.2.
Proof.
  intros Hne. cbn zeta. rewrite !run_alone_engine, !run_alone_result.
  rewrite !current_price_committed_other by congruence.
  split; [now apply committed_comm|]. split; reflexivity.
Qed.

Lemma rounded_committed stat eng :
  py_round2 (base_price eng) = base_price eng ->
  rounded eng -> rounded (committed stat eng).
Proof.
  intros Hb Hr q P H.
  destruct (decide (q = player_id stat)) as [->|Hq].
  - rewrite committed_own in H. injection H as <-.
    destruct (delta_of stat).
    + unfold current_price. destruct (prices eng !! player_id stat) eqn:E; cbn; eauto.
    + unfold price_rule. apply Float64Facts.py_round2_idempotent.
  - rewrite committed_other in H by exact Hq. eauto.
Qed.

Lemma after_calls_inv stats : forall eng,
  py_round2 (base_price eng) = base_price eng ->
  rounded eng ->
  rounded (after_calls stats eng) /\
  base_price (after_calls stats eng) = base_price eng.
Proof.
  unfold after_calls.
  induction stats as [|stat stats IH]; intros eng Hb Hr; cbn [fold_left]; [auto|].
  rewrite run_alone_engine.
  destruct (IH (committed stat eng)) as [H1 H2].
  - now rewrite committed_base.
  - now apply rounded_committed.
  - split; [exact H1|]. now rewrite H2, committed_base.
Qed.

(** X9. When the base price is itself a value of [round(., 2)], as the
    default 1000.0 is, every price on record is one after any series of
    calls, the calls that raised included; so the zero update returns the
    price that was stored (a stored -0.0 as 0.0). *)
Theorem rounded_base_keeps_prices_rounded (base : float64) (stats : list StatUpdate)
    (pid : string) (P : float64) (log : list log_line) :
  py_round2 base = base ->
  prices (after_calls stats (new base)) !! pid = Some P ->
  py_round2 P = P /\
  exists P' : float64,
    (run_alone (apply_stat (zero_stat pid)) (after_calls stats (new base)) log).2 = inr P' /\
    same_price P P'.
Proof.
  intros Hb HP.
  destruct (after_calls_inv stats (new base) Hb) as [Hr _].
  { intros q Q H. cbn in H. rewrite lookup_empty in H. discriminate. }
  pose proof (Hr _ _ HP) as HPr. split; [exact HPr|].
  rewrite run_alone_result, delta_of_zero.
  change (player_id (zero_stat pid)) with pid.
  change (injury (zero_stat pid)) with false.
  unfold current_price. rewrite HP. cbn [default from_option]. unfold id.
  eexists. split; [reflexivity|]. unfold price_rule.
  destruct (fadd_zero P) as [->|[-> ->]].
  - left. exact HPr.
  - right. split; reflexivity.
Qed.


Lemma simple_apply_stat stat : Simple.apply_stat stat = apply_stat stat.
Proof. reflexivity. Qed.

Lemma apply_all_spec out : forall eng log eng' log',
  apply_all out eng log = (eng', log', inr tt) ->
  NoDup (player_id <$> out) ->
  (forall stat, stat ∈ out ->
     exists delta, delta_of stat = inr delta /\
       prices eng' !! player_id stat
       = Some (price_rule (current_price eng (player_id stat)) (injury stat) delta)) /\
  (forall k, k ∉ player_id <$> out -> prices eng' !! k = prices eng !! k) /\
  base_price eng' = base_price eng /\
  log_player <$> log' = (log_player <$> log) ++ (player_id <$> out).
Proof.
  induction out as [|stat out IH]; intros eng log eng' log' H Hnd.
  - cbn in H. injection H as <- <-. split_and!; auto.
    + intros stat Hin. by apply elem_of_nil in Hin.
    + cbn. now rewrite app_nil_r.
  - cbn [apply_all] in H. rewrite simple_apply_stat, run_alone_apply_stat in H.
    rewrite fmap_cons in Hnd. apply NoDup_cons in Hnd as [Hfresh Hnd].
    destruct (delta_of stat) as [e|delta] eqn:Ed; [discriminate|]. cbn zeta in H.
    destruct (IH _ _ _ _ H Hnd) as (Hp & Hk & Hb & Hl).
    split_and!.
    + intros s Hin. apply elem_of_cons in Hin as [->|Hin].
      * exists delta. split; [exact Ed|].
        rewrite (Hk _ Hfresh). cbn. now rewrite lookup_insert_eq.
      * destruct (Hp _ Hin) as (d & Hd & Hs). exists d. split; [exact Hd|].
        rewrite Hs. do 2 f_equal.
        unfold current_price, set_price. cbn.
        rewrite lookup_insert_ne; [reflexivity|].
        intros E. apply Hfresh. rewrite E. now apply list_elem_of_fmap_2.
    + intros k Hn. rewrite fmap_cons in Hn. apply not_elem_of_cons in Hn as [Hne Hn].
      rewrite (Hk _ Hn). cbn. now rewrite lookup_insert_ne.
    + now rewrite Hb.
    + rewrite Hl, fmap_app, fmap_cons, <- app_assoc. reflexivity.
Qed.

(** X10. Pricing a payload with a fresh engine: when [run] returns, the
    normaliser returned, every player it emitted is priced at
    [round((1000.0*0.7 if injury else 1000.0) + delta, 2)] for the delta of
    his update, no other player is on record, and one PRICE_UPDATE line
    was printed per update, in the order of emission. *)
Theorem run_prices_every_emitted_player (payload : pyval) (eng : PricingEngine)
    (log : list log_line) :
  run payload = (eng, log, inr tt) ->
  exists out : list StatUpdate,
    process_statsbomb payload = inr out /\
    (forall stat, stat ∈ out ->
       exists delta, delta_of stat = inr delta /\
         prices eng !! player_id stat
         = Some (price_rule f1000 (injury stat) delta)) /\
    (forall k, k ∉ player_id <$> out -> prices eng !! k = None) /\
    log_player <$> log = player_id <$> out.
Proof.
  unfold run. cbn zeta. intros H.
  destruct (process_statsbomb payload) as [e|out] eqn:E; [discriminate|].
  exists out. split; [reflexivity|].
  destruct (apply_all_spec _ _ _ _ _ H (emitted_nodup _ _ E)) as (Hp & Hk & _ & Hl).
  split_and!.
  - exact Hp.
  - intros k Hn. rewrite (Hk _ Hn). apply lookup_empty.
  - exact Hl.
Qed.


(** What the callback does, for any message. *)
Lemma pricing_callback_spec {World : Type}
    (message : StatUpdate -> float64 -> pyval)
    (broadcast : pyval -> World -> (exn + unit) * World)
    (stat : StatUpdate) (eng : PricingEngine) (log : list log_line) (w : World) :
  pricing_callback message broadcast stat (Some eng) log w =
  match delta_of stat with
  | inl e => (Some (ensured (player_id stat) eng), log, w, inl e)
  | inr delta =>
      let v := price_rule (current_price eng (player_id stat)) (injury stat) delta in
      let r := broadcast (message stat v) w in
      (Some (set_price (player_id stat) v eng),
       log ++ [mkLine (player_id stat) v delta], r.2, r.1)
  end.
Proof.
  unfold pricing_callback. rewrite run_alone_apply_stat.
  destruct (delta_of stat) as [e|delta]; [reflexivity|]. cbn zeta.
  cbn [prices set_price]. rewrite lookup_insert_eq. cbn [default from_option].
  unfold id. destruct (broadcast _ w); reflexivity.
Qed.

(** X11. The pricing callback of either application.  Without an engine it
    does nothing.  With one it awaits [apply_stat] and then broadcasts
    once, and the price in the message is the price just stored and
    returned (the default 1000.0 of the lookup is never used); what
    [broadcast] answers is what the callback answers.  When [apply_stat]
    raises nothing is broadcast and the exception goes to the caller. *)
Theorem callback_broadcasts_stored_price {World : Type}
    (broadcast : pyval -> World -> (exn + unit) * World)
    (stat : StatUpdate) (eng : PricingEngine) (log : list log_line) (w : World) :
  (forall message,
     pricing_callback message broadcast stat None log w = (None, log, w, inr tt)) /\
  (forall message e,
     delta_of stat = inl e ->
     pricing_callback message broadcast stat (Some eng) log w
     = (Some (ensured (player_id stat) eng), log, w, inl e)) /\
  (forall delta,
     delta_of stat = inr delta ->
     let v := price_rule (current_price eng (player_id stat)) (injury stat) delta in
     let after := (Some (set_price (player_id stat) v eng),
                   log ++ [mkLine (player_id stat) v delta]) in
     prices (set_price (player_id stat) v eng) !! player_id stat = Some v /\
     (run_alone (apply_stat stat) eng log).2 = inr v /\
     pricing_callback price_update broadcast stat (Some eng) log w
     = (after, (broadcast (price_update stat v) w).2,
        (broadcast (price_update stat v) w).1) /\
     pricing_callback price_update_production broadcast stat (Some eng) log w
     = (after, (broadcast (price_update_production stat v) w).2,
        (broadcast (price_update_production stat v) w).1)).
Proof.
  split_and!.
  - reflexivity.
  - intros message e He. now rewrite pricing_callback_spec, He.
  - intros delta Hd. cbn zeta. split_and!.
    + cbn. apply lookup_insert_eq.
    + now rewrite run_alone_result, Hd.
    + now rewrite pricing_callback_spec, Hd.
    + now rewrite pricing_callback_spec, Hd.
Qed.

(** A goal for p1 and an injury for p4, from a fresh engine. *)
Lemma updates_of_two_players_commute_witness :
  let ra := run_alone (apply_stat (one_goal "p1")) (new f1000) [] in
  let rab := run_alone (apply_stat (mkStat "p4" 0 0 0 true)) ra.1.1 ra.1.2 in
  let rb := run_alone (apply_stat (mkStat "p4" 0 0 0 true)) (new f1000) [] in
  let rba := run_alone (apply_stat (one_goal "p1")) rb.1.1 rb.1.2 in
  rab.1.1 = rba.1.1 /\ ra.2 = rba.2 /\ rb.2 = rab.2.
Proof.
  apply (updates_of_two_players_commute (one_goal "p1") (mkStat "p4" 0 0 0 true)).
  discriminate.
Defined.

(** After a goal and a call that raises, from the default base price. *)
Lemma rounded_base_keeps_prices_rounded_witness :
  let calls := [one_goal "p6"; mkStat "p7" (2 ^ 1024) 0 0 false] in
  prices (after_calls calls (new f1000)) !! "p7" = Some f1000 /\
  py_round2 f1000 = f1000 /\
  exists P' : float64,
    (run_alone (apply_stat (zero_stat "p7")) (after_calls calls (new f1000)) []).2
    = inr P' /\
    same_price f1000 P'.
Proof.
  split; [vm_compute; reflexivity|].
  apply (rounded_base_keeps_prices_rounded f1000
           [one_goal "p6"; mkStat "p7" (2 ^ 1024) 0 0 false] "p7" f1000 []);
    vm_compute; reflexivity.
Defined.

(** The payload with two goals of player 999. *)
Lemma run_prices_every_emitted_player_witness :
  (run two_goals).2 = inr tt /\
  prices (run two_goals).1.1 !! "999" = Some f1207_5 /\
  exists out : list StatUpdate,
    process_statsbomb two_goals = inr out /\
    (forall stat, stat ∈ out ->
       exists delta, delta_of stat = inr delta /\
         prices (run two_goals).1.1 !! player_id stat
         = Some (price_rule f1000 (injury stat) delta)) /\
    (forall k, k ∉ player_id <$> out -> prices (run two_goals).1.1 !! k = None) /\
    log_player <$> (run two_goals).1.2 = player_id <$> out.
Proof.
  split; [vm_compute; reflexivity|]. split; [vm_compute; reflexivity|].
  apply (run_prices_every_emitted_player two_goals). vm_compute. reflexivity.
Defined.


(** *** Concurrent updates *)

Lemma last_run_schedule sch eng log pool x :
  last (x :: run_schedule sch eng log pool) = last (run_schedule sch eng log pool).
Proof. destruct sch; reflexivity. Qed.

Lemma resume_read pid eng log :
  (resume (Ready (getitem pid)) eng log).1 = (eng, log) /\
  ((exists pid', (resume (Ready (getitem pid)) eng log).2 = Ready (getitem pid')) \/
   exists r, (resume (Ready (getitem pid)) eng log).2 = Done r).
Proof.
  unfold resume. rewrite run_segment_getitem.
  destruct (prices eng !! pid); cbn; split; eauto.
Qed.

Lemma resume_update stat eng log :
  (resume (Ready (apply_stat stat)) eng log).1.1 = committed stat eng /\
  ((exists pid', (resume (Ready (apply_stat stat)) eng log).2 = Ready (getitem pid')) \/
   exists r, (resume (Ready (apply_stat stat)) eng log).2 = Done r).
Proof.
  unfold resume. rewrite run_segment_apply_stat.
  destruct (delta_of stat); cbn; split; eauto.
Qed.

Lemma run_schedule_serial stats sch : forall started eng log pool,
  Underway stats started pool ->
  last (run_schedule sch eng log pool) = Some (serial stats sch started eng).
Proof.
  induction sch as [|i sch IH]; intros started eng log pool [Hlen Hpool];
    [reflexivity|].
  cbn [run_schedule serial].
  destruct (stats !! i) as [stat|] eqn:Es.
  - destruct (Hpool _ _ Es) as (t & Et & Ht). rewrite Et.
    destruct (decide (i ∈ started)) as [Hin|Hnin].
    + assert (Hsame : (resume t eng log).1 = (eng, log) /\
                      ((exists pid', (resume t eng log).2 = Ready (getitem pid')) \/
                       exists r, (resume t eng log).2 = Done r)).
      { destruct Ht as [[pid ->]|[r ->]]; [apply resume_read|]. cbn. eauto. }
      destruct (resume t eng log) as [[eng' log'] t']. cbn in Hsame.
      destruct Hsame as [Heq Ht']. injection Heq as -> ->.
      rewrite last_run_schedule. apply IH. split; [now rewrite length_insert|].
      intros j sj Ej. destruct (decide (j = i)) as [->|Hne].
      * exists t'. rewrite list_lookup_insert_eq by (apply lookup_lt_Some in Et; lia).
        split; [reflexivity|]. rewrite decide_True by exact Hin. exact Ht'.
      * rewrite list_lookup_insert_ne by congruence. apply Hpool, Ej.
    + subst t. pose proof (resume_update stat eng log) as [Heng Ht'].
      destruct (resume (Ready (apply_stat stat)) eng log) as [[eng' log'] t'].
      cbn in Heng, Ht'. subst eng'.
      rewrite last_run_schedule. apply IH. split; [now rewrite length_insert|].
      intros j sj Ej. destruct (decide (j = i)) as [->|Hne].
      * exists t'. rewrite list_lookup_insert_eq by (apply lookup_lt_Some in Et; lia).
        split; [reflexivity|]. rewrite decide_True by left. exact Ht'.
      * rewrite list_lookup_insert_ne by congruence.
        destruct (Hpool _ _ Ej) as (tj & Etj & Htj). exists tj. split; [exact Etj|].
        destruct (decide (j ∈ started)) as [Hj|Hj].
        -- rewrite decide_True by now right. exact Htj.
        -- rewrite decide_False; [exact Htj|].
           intros H. apply elem_of_cons in H as [H|H]; tauto.
  - assert (Ep : pool !! i = None).
    { apply lookup_ge_None. rewrite Hlen. now apply lookup_ge_None. }
    rewrite Ep, last_run_schedule. apply IH. split; assumption.
Qed.

(** X12. Concurrent updates are serial.  Whatever the order in which the
    event loop resumes a pool of [apply_stat] tasks, the engine it ends
    with is the one the updates give when made one after the other, in the
    order in which the tasks were first resumed: no update is lost and
    none is made twice. *)
Theorem interleaving_is_serial (stats : list StatUpdate) (sch : list nat)
    (eng : PricingEngine) (log : list log_line) :
  last (run_schedule sch eng log ((fun stat => Ready (apply_stat stat)) <$> stats))
  = Some (serial stats sch [] eng).
Proof.
  apply run_schedule_serial. split; [now rewrite length_fmap|].
  intros i stat Es. exists (Ready (apply_stat stat)).
  rewrite list_lookup_fmap, Es. split; [reflexivity|].
  rewrite decide_False; [reflexivity|]. apply not_elem_of_nil.
Qed.

Lemma distinct_players stats j k sj sk :
  NoDup (player_id <$> stats) ->
  stats !! j = Some sj -> stats !! k = Some sk ->
  player_id sj = player_id sk -> j = k.
Proof.
  intros Hnd Hj Hk Heq.
  apply (NoDup_lookup _ j k (player_id sj) Hnd); rewrite list_lookup_fmap.
  - now rewrite Hj.
  - rewrite Hk. cbn. now rewrite Heq.
Qed.

Lemma serial_distinct stats eng0 :
  NoDup (player_id <$> stats) ->
  forall sch started e,
    base_price e = base_price eng0 ->
    (forall j s, stats !! j = Some s -> j ∈ started ->
       prices e !! player_id s = prices (committed s eng0) !! player_id s) ->
    (forall j s, stats !! j = Some s -> j ∉ started ->
       prices e !! player_id s = prices eng0 !! player_id s) ->
    forall i s, stats !! i = Some s -> i ∈ started \/ i ∈ sch ->
      prices (serial stats sch started e) !! player_id s
      = prices (committed s eng0) !! player_id s.
Proof.
  intros Hnd sch. induction sch as [|k sch IH]; intros started e Hb Hin Hout i s Es Hi.
  - destruct Hi as [Hi|Hi]; [exact (Hin _ _ Es Hi)|by apply elem_of_nil in Hi].
  - cbn [serial]. destruct (stats !! k) as [sk|] eqn:Ek.
    + destruct (decide (k ∈ started)) as [Hk|Hk].
      * apply (IH started e Hb Hin Hout i s Es).
        destruct Hi as [Hi|Hi]; [now left|].
        apply elem_of_cons in Hi as [->|Hi]; [now left|now right].
      * apply (IH (k :: started) (committed sk e)) with (i := i); [| | |exact Es|].
        -- now rewrite committed_base.
        -- intros j sj Ej Hj. apply elem_of_cons in Hj as [->|Hj].
           ++ assert (sj = sk) by congruence. subst sj.
              rewrite !committed_own. unfold current_price.
              now rewrite (Hout _ _ Ek Hk), Hb.
           ++ rewrite committed_other; [exact (Hin _ _ Ej Hj)|].
              intros Heq. apply Hk.
              now rewrite <- (distinct_players _ _ _ _ _ Hnd Ej Ek Heq).
        -- intros j sj Ej Hj. apply not_elem_of_cons in Hj as [Hne Hj].
           rewrite committed_other; [exact (Hout _ _ Ej Hj)|].
           intros Heq. apply Hne. exact (distinct_players _ _ _ _ _ Hnd Ej Ek Heq).
        -- destruct Hi as [Hi|Hi]; [left; now right|].
           apply elem_of_cons in Hi as [->|Hi]; [left; left|now right].
    + apply (IH started e Hb Hin Hout i s Es).
      destruct Hi as [Hi|Hi]; [now left|].
      apply elem_of_cons in Hi as [->|Hi]; [congruence|now right].
Qed.

(** X13. Concurrent updates of different players do not depend on the
    schedule: when the players of the pool are pairwise distinct, the
    price the engine ends with for a player whose task was resumed is the
    price his update gives on the engine at the start. *)
Theorem concurrent_updates_of_distinct_players (stats : list StatUpdate)
    (sch : list nat) (eng final : PricingEngine) (log : list log_line)
    (i : nat) (stat : StatUpdate) :
  NoDup (player_id <$> stats) ->
  stats !! i = Some stat ->
  i ∈ sch ->
  last (run_schedule sch eng log ((fun stat => Ready (apply_stat stat)) <$> stats))
  = Some final ->
  prices final !! player_id stat = prices (committed stat eng) !! player_id stat.
Proof.
  intros Hnd Es Hi Hlast.
  rewrite (run_schedule_serial stats sch [] eng log) in Hlast.
  - injection Hlast as <-.
    apply (serial_distinct stats eng Hnd sch [] eng eq_refl) with (i := i);
      [|reflexivity|exact Es|now right].
    intros j s _ Hj. by apply elem_of_nil in Hj.
  - split; [now rewrite length_fmap|].
    intros j s Ej. exists (Ready (apply_stat s)).
    rewrite list_lookup_fmap, Ej. split; [reflexivity|].
    rewrite decide_False; [reflexivity|]. apply not_elem_of_nil.
Qed.

(** A goal for p1 and an injury for p4, the second task resumed first. *)
Lemma concurrent_updates_of_distinct_players_witness :
  let pool := [one_goal "p1"; mkStat "p4" 0 0 0 true] in
  let final := set_price "p1" f1100 (set_price "p4" f700 (new f1000)) in
  last (run_schedule [1%nat; 0%nat; 0%nat; 1%nat] (new f1000) []
          ((fun stat => Ready (apply_stat stat)) <$> pool)) = Some final /\
  prices final !! "p1" = prices (committed (one_goal "p1") (new f1000)) !! "p1".
Proof.
  split; [vm_compute; reflexivity|].
  apply (concurrent_updates_of_distinct_players
           [one_goal "p1"; mkStat "p4" 0 0 0 true] [1%nat; 0%nat; 0%nat; 1%nat]
           (new f1000) _ [] 0%nat (one_goal "p1")).
  - apply (bool_decide_unpack _). vm_compute. exact I.
  - reflexivity.
  - apply (bool_decide_unpack _). vm_compute. exact I.
  - vm_compute. reflexivity.
Defined.

End SeriesFacts.

(** * More properties of the live match feed *)

Module PollFacts.
Import Feed Poll FeedFacts.


#[local] Set Warnings "-clear-no-such-hyp".

Section More.
Context {World : Type} (broadcast : live_event -> World -> (exn + unit) * World).

(** The events handed on are events of the batch, in their order. *)
Lemma process_events_sublist fid evs : forall feed w,
  (process_events World broadcast fid evs feed w).1.2 `sublist_of` evs.
Proof.
  induction evs as [|ev evs IH]; intros feed w; simpl; [constructor|].
  destruct (decide (event_key fid ev ∈ processed_events feed)).
  - apply sublist_cons, IH.
  - destruct (broadcast _ w) as [[e|[]] w1]; simpl.
    + apply sublist_skip, sublist_nil_l.
    + specialize (IH (add_key (event_key fid ev) feed) w1).
      destruct (process_events World broadcast fid evs _ w1) as [[[feed2 w2] passed2] err2].
      simpl in *. now apply sublist_skip.
Qed.

Lemma process_events_complete fid evs : forall feed w feed' w' passed err,
  (forall m w0, (broadcast m w0).1 = inr tt) ->
  process_events World broadcast fid evs feed w = (feed', w', passed, err) ->
  err = None /\
  processed_events feed' = list_to_set (event_key fid <$> evs) ∪ processed_events feed /\
  (forall ev, ev ∈ evs -> event_key fid ev ∉ processed_events feed ->
              event_key fid ev ∈ event_key fid <$> passed).
Proof.
  induction evs as [|ev evs IH]; intros feed w feed' w' passed err Hb H; simpl in H.
  - injection H as <- <- <- <-. split_and!; [reflexivity|set_solver|].
    intros ev Hin. by apply elem_of_nil in Hin.
  - destruct (decide (event_key fid ev ∈ processed_events feed)) as [Hin|Hin].
    + destruct (IH _ _ _ _ _ _ Hb H) as (He & Hs & Hc). split_and!; [exact He| |].
      * rewrite Hs. simpl. set_solver.
      * intros ev' Hev' Hn. apply elem_of_cons in Hev' as [->|Hev']; [tauto|]. auto.
    + pose proof (Hb (message (add_key (event_key fid ev) feed) fid ev) w) as Hr.
      destruct (broadcast _ w) as [r w1]. simpl in Hr. subst r.
      destruct (process_events World broadcast fid evs (add_key _ feed) w1)
        as [[[feed2 w2] passed2] err2] eqn:E.
      injection H as <- <- <- <-.
      destruct (IH _ _ _ _ _ _ Hb E) as (He & Hs & Hc). split_and!; [exact He| |].
      * rewrite Hs. simpl. set_solver.
      * intros ev' Hev' Hn. rewrite fmap_cons.
        destruct (decide (event_key fid ev' = event_key fid ev)) as [Heq|Hne].
        -- rewrite Heq. left.
        -- right. apply elem_of_cons in Hev' as [->|Hev']; [congruence|].
           apply Hc; [exact Hev'|]. simpl. set_solver.
Qed.

Lemma _process_fixture_spec fid feed w feed' w' passed err :
  _process_fixture World broadcast fid feed w = (feed', w', passed, err) ->
  client feed' = client feed /\
  processed_events feed ⊆ processed_events feed' /\
  NoDup (event_key fid <$> passed) /\
  Forall (fun ev => (event_key fid ev ∉ processed_events feed) /\
                    event_key fid ev ∈ processed_events feed') passed /\
  (err = None ->
   exists evs, get_fixture_events (client feed) fid = inr evs /\
               Forall (fun ev => event_key fid ev ∈ processed_events feed') evs).
Proof.
  unfold _process_fixture.
  destruct (get_fixture_events (client feed) fid) as [e|evs] eqn:E; intros H.
  - injection H as <- <- <- <-. split_and!; auto; try constructor. discriminate.
  - destruct (process_events_spec broadcast _ _ _ _ _ _ _ _ H)
      as (Hc & _ & _ & Hs & Hnd & Hf & Hall).
    split_and!; auto. intros ->. exists evs. auto.
Qed.

Lemma process_fixtures_spec fids : forall feed w feed' w' delivered errs,
  process_fixtures World broadcast fids feed w = (feed', w', delivered, errs) ->
  client feed' = client feed /\
  processed_events feed ⊆ processed_events feed' /\
  NoDup (key_of_passed <$> delivered) /\
  Forall (fun p => (key_of_passed p ∉ processed_events feed) /\
                   key_of_passed p ∈ processed_events feed') delivered /\
  length errs = length fids /\
  (Forall (fun err => err = None) errs ->
   Forall (fun fid => exists evs, get_fixture_events (client feed) fid = inr evs /\
             Forall (fun ev => event_key fid ev ∈ processed_events feed') evs) fids).
Proof.
  induction fids as [|fid fids IH]; intros feed w feed' w' delivered errs H;
    cbn [process_fixtures] in H.
  - injection H as <- <- <- <-. split_and!; auto; constructor.
  - destruct (_process_fixture World broadcast fid feed w)
      as [[[feed1 w1] passed] err] eqn:E1.
    destruct (process_fixtures World broadcast fids feed1 w1)
      as [[[feed2 w2] passed'] errs'] eqn:E2.
    injection H as <- <- <- <-.
    destruct (_process_fixture_spec _ _ _ _ _ _ _ E1) as (Hc1 & Hs1 & Hnd1 & Hf1 & Ha1).
    destruct (IH _ _ _ _ _ _ E2) as (Hc2 & Hs2 & Hnd2 & Hf2 & Hl2 & Ha2).
    rewrite Forall_forall in Hf1. rewrite Forall_forall in Hf2.
    split_and!.
    + congruence.
    + set_solver.
    + rewrite fmap_app, <- list_fmap_compose. apply NoDup_app. split_and!.
      * exact Hnd1.
      * intros k Hk1 Hk2.
        apply list_elem_of_fmap in Hk1 as (e1 & -> & He1).
        apply list_elem_of_fmap in Hk2 as (p2 & Heq & Hp2).
        destruct (Hf1 _ He1) as [_ Hin]. destruct (Hf2 _ Hp2) as [Hnin _].
        apply Hnin. now rewrite <- Heq.
      * exact Hnd2.
    + apply Forall_app. split.
      * apply Forall_fmap, Forall_forall. intros ev Hev.
        destruct (Hf1 _ Hev) as [Hn Hy]. split; [exact Hn|]. cbn. set_solver.
      * apply Forall_forall. intros p Hp. destruct (Hf2 _ Hp) as [Hn Hy].
        split; [|exact Hy]. set_solver.
    + cbn. now rewrite Hl2.
    + intros Hall. apply Forall_cons in Hall as [-> Hall]. constructor.
      * destruct (Ha1 eq_refl) as (evs & Hg & Hseen). exists evs. split; [exact Hg|].
        eapply Forall_impl; [exact Hseen|]. cbn. set_solver.
      * specialize (Ha2 Hall). rewrite Hc1 in Ha2. exact Ha2.
Qed.

Lemma process_fixtures_seen fids : forall feed w,
  Forall (fun fid => exists evs, get_fixture_events (client feed) fid = inr evs /\
            Forall (fun ev => event_key fid ev ∈ processed_events feed) evs) fids ->
  process_fixtures World broadcast fids feed w
  = (feed, w, [], (fun _ => None) <$> fids).
Proof.
  induction fids as [|fid fids IH]; intros feed w H; cbn [process_fixtures];
    [reflexivity|].
  apply Forall_cons in H as [(evs & Hg & Hseen) H].
  unfold _process_fixture. rewrite Hg, (process_events_seen broadcast _ _ _ _ Hseen).
  now rewrite (IH _ _ H).
Qed.

End More.

(** X14. When the broadcast callback does not raise, nothing is lost: a
    pass over a fixture ends without an exception, hands on events of the
    batch in their order, puts the key of every event of the batch in the
    seen-set, and hands on an event for every key of the batch that was
    not seen before. *)
Theorem every_fresh_event_is_delivered {World : Type}
    (broadcast : live_event -> World -> (exn + unit) * World)
    (fid : Z) (evs : list PlayerEvent) (feed feed' : LiveMatchFeed) (w w' : World)
    (passed : list PlayerEvent) (err : option exn) :
  (forall m w0, (broadcast m w0).1 = inr tt) ->
  get_fixture_events (client feed) fid = inr evs ->
  _process_fixture World broadcast fid feed w = (feed', w', passed, err) ->
  err = None /\
  passed `sublist_of` evs /\
  processed_events feed' = list_to_set (event_key fid <$> evs) ∪ processed_events feed /\
  (forall ev, ev ∈ evs -> event_key fid ev ∉ processed_events feed ->
              event_key fid ev ∈ event_key fid <$> passed).
Proof.
  intros Hb Hg H. unfold _process_fixture in H. rewrite Hg in H.
  destruct (process_events_complete broadcast _ _ _ _ _ _ _ _ Hb H) as (He & Hs & Hc).
  split_and!; auto.
  pose proof (process_events_sublist broadcast fid evs feed w) as Hsub.
  now rewrite H in Hsub.
Qed.

(** A batch that repeats a goal, and a callback that records. *)
Lemma every_fresh_event_is_delivered_witness :
  let r := _process_fixture _ record_message 7 (fresh_feed provider_repeating) [] in
  r.1.2 = [goal_event; other_event] /\
  r.1.2 `sublist_of` [goal_event; other_event; goal_event] /\ r.2 = None.
Proof.
  split; [vm_compute; reflexivity|].
  destruct (every_fresh_event_is_delivered record_message 7
              [goal_event; other_event; goal_event]
              (fresh_feed provider_repeating)
              (_process_fixture _ record_message 7 (fresh_feed provider_repeating) []).1.1.1
              []
              (_process_fixture _ record_message 7 (fresh_feed provider_repeating) []).1.1.2
              (_process_fixture _ record_message 7 (fresh_feed provider_repeating) []).1.2
              (_process_fixture _ record_message 7 (fresh_feed provider_repeating) []).2)
    as (He & Hsub & _).
  - intros m w0. reflexivity.
  - reflexivity.
  - vm_compute. reflexivity.
  - split; assumption.
Defined.

(** X15. One turn of the polling loop, over any list of fixtures (a
    fixture may occur twice) or over the live fixtures: no key is handed
    on twice, every key handed on was unseen before the turn and is seen
    after it, the seen-set only grows, and the next turn hands on none of
    the keys of this one. *)
Theorem turn_hands_on_each_key_once {World : Type}
    (broadcast : live_event -> World -> (exn + unit) * World)
    (fixture_ids : list Z) (live : exn + list Z) (feed : LiveMatchFeed) (w : World) :
  let r := poll_once World broadcast fixture_ids live feed w in
  NoDup (key_of_passed <$> r.1.2) /\
  Forall (fun p => (key_of_passed p ∉ processed_events feed) /\
                   key_of_passed p ∈ processed_events r.1.1.1) r.1.2 /\
  processed_events feed ⊆ processed_events r.1.1.1 /\
  (let r2 := poll_once World broadcast fixture_ids live r.1.1.1 r.1.1.2 in
   NoDup (key_of_passed <$> (r.1.2 ++ r2.1.2))).
Proof.
  assert (Hpf : forall fids feed0 w0,
    let r := process_fixtures World broadcast fids feed0 w0 in
    NoDup (key_of_passed <$> r.1.2) /\
    Forall (fun p => (key_of_passed p ∉ processed_events feed0) /\
                     key_of_passed p ∈ processed_events r.1.1.1) r.1.2 /\
    processed_events feed0 ⊆ processed_events r.1.1.1).
  { intros fids feed0 w0. cbn zeta.
    destruct (process_fixtures World broadcast fids feed0 w0)
      as [[[feed1 w1] delivered] errs] eqn:E.
    destruct (process_fixtures_spec broadcast _ _ _ _ _ _ _ E) as (_ & Hs & Hnd & Hf & _).
    auto. }
  assert (Hpo : forall feed0 w0,
    let r := poll_once World broadcast fixture_ids live feed0 w0 in
    NoDup (key_of_passed <$> r.1.2) /\
    Forall (fun p => (key_of_passed p ∉ processed_events feed0) /\
                     key_of_passed p ∈ processed_events r.1.1.1) r.1.2 /\
    processed_events feed0 ⊆ processed_events r.1.1.1).
  { intros feed0 w0. unfold poll_once.
    destruct fixture_ids as [|fid fids]; [destruct live as [e|fids]|]; try apply Hpf.
    cbn. split_and!; [constructor|constructor|reflexivity]. }
  cbn zeta.
  destruct (Hpo feed w) as (Hnd1 & Hf1 & Hs1).
  set (r := poll_once World broadcast fixture_ids live feed w) in *.
  destruct (Hpo r.1.1.1 r.1.1.2) as (Hnd2 & Hf2 & _).
  split_and!; auto.
  rewrite fmap_app. apply NoDup_app. split_and!; auto.
  intros k Hk1 Hk2.
  apply list_elem_of_fmap in Hk1 as (p1 & -> & Hp1).
  apply list_elem_of_fmap in Hk2 as (p2 & Heq & Hp2).
  rewrite Forall_forall in Hf1, Hf2.
  destruct (Hf1 _ Hp1) as [_ Hin]. destruct (Hf2 _ Hp2) as [Hnin _].
  apply Hnin. now rewrite <- Heq.
Qed.

(** X16. A turn of the polling loop in which no exception was caught
    repeats nothing: the same turn made again hands on no event and leaves
    the feed and the world as they are. *)
Theorem clean_turn_repeats_nothing {World : Type}
    (broadcast : live_event -> World -> (exn + unit) * World)
    (fixture_ids : list Z) (live : exn + list Z) (feed feed' : LiveMatchFeed)
    (w w' : World) (delivered : list (Z * PlayerEvent)) (errs : list (option exn)) :
  poll_once World broadcast fixture_ids live feed w = (feed', w', delivered, errs) ->
  Forall (fun err => err = None) errs ->
  poll_once World broadcast fixture_ids live feed' w' = (feed', w', [], errs).
Proof.
  assert (Hpf : forall fids, 
    process_fixtures World broadcast fids feed w = (feed', w', delivered, errs) ->
    Forall (fun err => err = None) errs ->
    process_fixtures World broadcast fids feed' w' = (feed', w', [], errs)).
  { intros fids H Hall.
    destruct (process_fixtures_spec broadcast _ _ _ _ _ _ _ H)
      as (Hc & _ & _ & _ & Hl & Hseen).
    specialize (Hseen Hall). rewrite <- Hc in Hseen.
    rewrite (process_fixtures_seen broadcast _ _ _ Hseen). f_equal.
    clear -Hl Hall. revert fids Hl.
    induction Hall as [|err errs -> _ IH]; intros [|fid fids] Hl; try discriminate;
      [reflexivity|].
    cbn. f_equal. apply IH. now injection Hl. }
  unfold poll_once. destruct fixture_ids as [|fid fids]; [destruct live as [e|fids]|];
    try apply Hpf.
  intros H Hall. injection H as <- <- <- <-.
  apply Forall_cons in Hall as [Hall _]. discriminate.
Qed.

(** Two fixtures answered by the provider that repeats a goal. *)
Lemma clean_turn_repeats_nothing_witness :
  let r := poll_once _ record_message [7; 8] (inr []) (fresh_feed provider_repeating) [] in
  r.1.2 = [(7, goal_event); (7, other_event); (8, goal_event); (8, other_event)] /\
  poll_once _ record_message [7; 8] (inr []) r.1.1.1 r.1.1.2
  = (r.1.1.1, r.1.1.2, [], [None; None]).
Proof.
  split; [vm_compute; reflexivity|].
  apply (clean_turn_repeats_nothing record_message [7; 8] (inr [])
           (fresh_feed provider_repeating) _ [] _
           [(7, goal_event); (7, other_event); (8, goal_event); (8, other_event)]
           [None; None]).
  - vm_compute. reflexivity.
  - repeat constructor.
Defined.

End PollFacts.

(** * More properties of the broadcast hub *)

Module SubscribersFacts.
Import Hub Subscribers HubFacts.


Section More.
Context {M : Type}.

(** What one broadcast returns. *)
Lemma broadcast_result (message : M) (st : State M) :
  broadcast (length (clients st)) message st
  = Some (inr (mkState (surviving st (clients st))
                 (sockets (send_all message (clients st) st)))).
Proof.
  pose proof (deliver_spec message (clients st) [] st [] (length (clients st))
                eq_refl (le_n _)) as Hd.
  simpl in Hd.
  pose proof (evict_spec (clients st) [] (send_all message (clients st) st) st
                (Forall_nil_2 _)) as He.
  rewrite send_all_clients in He. specialize (He eq_refl). simpl in He.
  unfold broadcast. now rewrite Hd, He.
Qed.

Lemma alive_sockets (st st' : State M) ws :
  sockets st' = sockets st -> alive st' ws = alive st ws.
Proof. unfold alive. now intros ->. Qed.

Lemma inbox_sockets (st st' : State M) ws :
  sockets st' = sockets st -> inbox st' ws = inbox st ws.
Proof. unfold inbox. now intros ->. Qed.

Lemma occurrences_surviving (st : State M) ws l :
  alive st ws = true -> occurrences ws (surviving st l) = occurrences ws l.
Proof.
  intros Ha. unfold occurrences, surviving.
  induction l as [|x l IH]; [reflexivity|].
  rewrite !filter_cons. destruct (decide (x = ws)) as [->|Hne].
  - rewrite decide_True by exact Ha. rewrite filter_cons, decide_True by reflexivity.
    cbn. now rewrite IH.
  - case_decide; [|exact IH]. rewrite filter_cons, decide_False by exact Hne. exact IH.
Qed.

Lemma surviving_idem (st st' : State M) l :
  (forall ws, alive st' ws = alive st ws) ->
  surviving st' (surviving st l) = surviving st l.
Proof.
  intros Ha. unfold surviving. induction l as [|x l IH]; [reflexivity|].
  rewrite filter_cons. case_decide as Hx; [|exact IH].
  rewrite filter_cons, decide_True by (now rewrite Ha). now rewrite IH.
Qed.

Lemma broadcast_all_spec (messages : list M) : forall st : State M,
  exists st',
    broadcast_all messages st = Some (inr st') /\
    (forall ws, alive st' ws = alive st ws) /\
    clients st' = match messages with
                  | [] => clients st
                  | _ => surviving st (clients st)
                  end /\
    (forall ws, inbox st' ws =
                inbox st ws ++
                if alive st ws
                then flat_map (replicate (occurrences ws (clients st))) messages
                else []).
Proof.
  induction messages as [|message rest IH]; intros st.
  - exists st. split_and!; auto. intros ws. cbn. destruct (alive st ws); now rewrite app_nil_r.
  - cbn [broadcast_all]. rewrite broadcast_result.
    set (st1 := mkState (surviving st (clients st))
                  (sockets (send_all message (clients st) st))).
    assert (Ha1 : forall ws, alive st1 ws = alive st ws).
    { intros ws. rewrite (alive_sockets (send_all message (clients st) st) st1) by reflexivity.
      apply send_all_alive. }
    destruct (IH st1) as (st' & Hb & Ha & Hc & Hi).
    exists st'. split_and!.
    + exact Hb.
    + intros ws. now rewrite Ha, Ha1.
    + rewrite Hc. destruct rest; [reflexivity|]. cbn [clients st1].
      now apply surviving_idem.
    + intros ws. rewrite Hi, Ha1.
      rewrite (inbox_sockets (send_all message (clients st) st) st1) by reflexivity.
      rewrite send_all_inbox. cbn [clients st1 flat_map].
      destruct (alive st ws) eqn:A; [|now rewrite !app_nil_r].
      rewrite occurrences_surviving by exact A. now rewrite <- app_assoc.
Qed.

End More.

Lemma subscribers_receive_messages_in_order_aux {M : Type} (messages : list M)
    (st : State M) :
  exists st',
    broadcast_all messages st = Some (inr st') /\
    (forall ws, inbox st' ws =
                inbox st ws ++
                if alive st ws
                then flat_map (replicate (occurrences ws (clients st))) messages
                else []) /\
    (forall ws, NoDup (clients st) -> ws ∈ clients st -> alive st ws = true ->
                inbox st' ws = inbox st ws ++ messages) /\
    (messages <> [] -> clients st' = surviving st (clients st)) /\
    (forall ws, alive st' ws = alive st ws).
Proof.
  destruct (broadcast_all_spec messages st) as (st' & Hb & Ha & Hc & Hi).
  exists st'. split_and!; auto.
  - intros ws Hnd Hin Hal. rewrite Hi, Hal. f_equal.
    assert (Ho : occurrences ws (clients st) = 1%nat).
    { unfold occurrences. clear -Hnd Hin.
      induction Hnd as [|x l Hx Hnd IH]; [by apply elem_of_nil in Hin|].
      rewrite filter_cons. apply elem_of_cons in Hin as [->|Hin].
      - rewrite decide_True by reflexivity. cbn. f_equal.
        clear IH. induction l as [|y l IH]; [reflexivity|].
        rewrite filter_cons. apply not_elem_of_cons in Hx as [Hne Hx].
        rewrite decide_False by congruence. apply IH; [exact Hx|].
        now apply NoDup_cons in Hnd as [_ Hnd].
      - rewrite decide_False; [now apply IH|]. intros ->. tauto. }
    rewrite Ho. clear. induction messages as [|m l IH]; [reflexivity|].
    cbn [flat_map app]. now rewrite IH.
  - intros Hne. rewrite Hc. destruct messages; [congruence|reflexivity].
Qed.

(** X17. Successive broadcasts never raise, and every subscriber whose
    delivery does not fail receives all the messages, in the order of the
    broadcasts and none twice (once per occurrence of its handle in the
    list); a subscriber whose delivery fails receives nothing and is gone
    from the list after the first broadcast. *)
Theorem subscribers_receive_messages_in_order (M : Type) (messages : list M)
    (st : State M) :
  exists st',
    broadcast_all messages st = Some (inr st') /\
    (forall ws, inbox st' ws =
                inbox st ws ++
                if alive st ws
                then flat_map (replicate (occurrences ws (clients st))) messages
                else []) /\
    (forall ws, NoDup (clients st) -> ws ∈ clients st -> alive st ws = true ->
                inbox st' ws = inbox st ws ++ messages) /\
    (messages <> [] -> clients st' = surviving st (clients st)) /\
    (forall ws, alive st' ws = alive st ws).
Proof. apply subscribers_receive_messages_in_order_aux. Qed.

(** X18. A client that connects receives the snapshot first and then
    every message broadcast afterwards, in order; the subscribers that
    were there receive the messages as before. *)
Theorem new_subscriber_gets_snapshot_then_updates (M : Type) (ws : nat)
    (snapshot : M) (messages : list M) (st : State M) :
  NoDup (clients st) ->
  ws ∉ clients st ->
  exists st1 st',
    ws_prices ws snapshot st = (inr tt, st1) /\
    clients st1 = clients st ++ [ws] /\
    broadcast_all messages st1 = Some (inr st') /\
    inbox st' ws = snapshot :: messages /\
    (forall ws', ws' ≠ ws -> ws' ∈ clients st -> alive st ws' = true ->
                 inbox st' ws' = inbox st ws' ++ messages).
Proof.
  intros Hnd Hfresh.
  set (st1 := mkState (clients st ++ [ws])
                (<[ws := mkSocket true [snapshot]]> (sockets st))).
  assert (E1 : ws_prices ws snapshot st = (inr tt, st1)).
  { unfold ws_prices, send_json. cbn. rewrite lookup_insert_eq. cbn.
    now rewrite insert_insert_eq. }
  assert (Hnd1 : NoDup (clients st1)).
  { cbn. apply NoDup_app. split_and!; [exact Hnd| |apply NoDup_singleton].
    intros x Hx Hx'. apply list_elem_of_singleton in Hx'. now subst. }
  destruct (subscribers_receive_messages_in_order_aux messages st1)
    as (st' & Hb & _ & Hi & _).
  exists st1, st'. split_and!; auto.
  - rewrite (Hi ws Hnd1).
    + unfold inbox. cbn. now rewrite lookup_insert_eq.
    + cbn. apply elem_of_app. right. left.
    + unfold alive. cbn. now rewrite lookup_insert_eq.
  - intros ws' Hne Hin Hal. rewrite (Hi ws' Hnd1).
    + unfold inbox. cbn. now rewrite lookup_insert_ne by congruence.
    + cbn. apply elem_of_app. now left.
    + unfold alive in *. cbn. now rewrite lookup_insert_ne by congruence.
Qed.

(** A client connects to the three subscribers and two updates follow. *)
Lemma new_subscriber_gets_snapshot_then_updates_witness :
  exists st1 st',
    ws_prices 4%nat "snapshot" three_clients = (inr tt, st1) /\
    broadcast_all ["update 1"; "update 2"] st1 = Some (inr st') /\
    inbox st' 4%nat = ["snapshot"; "update 1"; "update 2"].
Proof.
  destruct (new_subscriber_gets_snapshot_then_updates string 4%nat "snapshot"
              ["update 1"; "update 2"] three_clients)
    as (st1 & st' & H1 & _ & H2 & H3 & _).
  - apply (bool_decide_unpack _). vm_compute. exact I.
  - apply (bool_decide_unpack _). vm_compute. exact I.
  - exists st1, st'. split_and!; assumption.
Defined.

End SubscribersFacts.

(** * Properties of series of start and stop calls *)

Module LifecycleFacts.
Import Sources Lifecycle.

Lemma pending_cancel rt t :
  pending (mkRuntime (loop rt) (cancelled rt ++ [t]))
  = filter (fun x => x <> t) (pending rt).
Proof.
  unfold pending. cbn. rewrite list_filter_filter. apply list_filter_iff.
  intros x. rewrite elem_of_app, list_elem_of_singleton. tauto.
Qed.

Lemma pending_create rt :
  (forall t, t ∈ cancelled rt -> (t < length (tasks (loop rt)))%nat) ->
  pending (mkRuntime (create_task (loop rt)).2 (cancelled rt))
  = pending rt ++ [length (tasks (loop rt))].
Proof.
  intros Hc. unfold pending, create_task. cbn.
  rewrite filter_app, filter_cons, filter_nil.
  rewrite decide_True; [reflexivity|].
  intros Hin. specialize (Hc _ Hin). lia.
Qed.

Lemma tidy_step c st : Tidy st -> Tidy (step Simulator_start c st).
Proof.
  destruct st as [[running task] rt]. unfold Tidy, step, Simulator_start, stop.
  cbn [fst snd _running _task]. intros (Hc & Ht & Hp & Hr). destruct c.
  - destruct running; [auto|].
    assert (Hp0 : pending rt = []) by (rewrite Hp; destruct task; reflexivity).
    pose proof (pending_create rt Hc) as Hp1. rewrite Hp0 in Hp1.
    unfold create_task in *. cbn in *. rewrite length_app. cbn. split_and!.
    + intros t Hin. specialize (Hc _ Hin). lia.
    + intros t Heq. injection Heq as <-. lia.
    + exact Hp1.
    + eauto.
  - cbn [fst snd _running _task]. destruct task as [t|].
    + cbn [loop cancelled]. split_and!.
      * intros x Hin. apply elem_of_app in Hin as [Hin|Hin]; [auto|].
        apply list_elem_of_singleton in Hin. subst x. auto.
      * exact Ht.
      * rewrite (pending_cancel rt t), Hp.
        destruct running; [|reflexivity].
        rewrite filter_cons, decide_False by tauto. reflexivity.
      * discriminate.
    + split_and!; auto. discriminate.
Qed.

Lemma tidy_run calls : Tidy (run Simulator_start calls).
Proof.
  unfold run.
  assert (H : Tidy (idle, boot)).
  { split_and!; cbn; [intros t Hin; by apply elem_of_nil in Hin|discriminate|reflexivity|discriminate]. }
  revert H. generalize (idle, boot).
  induction calls as [|c calls IH]; intros st H; [exact H|].
  cbn [fold_left]. apply IH, tidy_step, H.
Qed.

Lemma run_app start calls calls' :
  run start (calls ++ calls')
  = fold_left (fun st c => step start c st) calls' (run start calls).
Proof. unfold run. now rewrite fold_left_app. Qed.

(** X19. A simulator cancels what it started.  After any series of
    [start] and [stop] calls on a simulator at most one task it created
    has not been cancelled; a running simulator holds that task, and a
    stopped one has none.  After [start] the simulator is running and after
    [stop] it is not, whatever came before. *)
Theorem simulator_cancels_what_it_started (calls : list call) :
  let st := run Simulator_start calls in
  (length (pending st.2) <= 1)%nat /\
  (_running st.1 = true -> exists t, _task st.1 = Some t /\ pending st.2 = [t]) /\
  (_running st.1 = false -> pending st.2 = []) /\
  _running (run Simulator_start (calls ++ [Start])).1 = true /\
  _running (run Simulator_start (calls ++ [Stop])).1 = false.
Proof.
  cbn zeta. destruct (tidy_run calls) as (_ & _ & Hp & Hr). rewrite Hp. split_and!.
  - destruct (_task _); [destruct (_running _)|]; cbn; lia.
  - intros H. destruct (Hr H) as [t Ht]. rewrite Ht, H. eauto.
  - intros ->. destruct (_task _); reflexivity.
  - rewrite run_app. cbn [fold_left].
    destruct (run Simulator_start calls) as [[[] task] rt]; reflexivity.
  - rewrite run_app. reflexivity.
Qed.

Lemma replicate_snoc {A : Type} (n : nat) (x : A) :
  replicate (S n) x = replicate n x ++ [x].
Proof. induction n as [|n IH]; [reflexivity|]. cbn in *. now rewrite <- IH. Qed.

Lemma unguarded_starts (start : Source -> EventLoop -> Source * EventLoop) (n : nat) :
  (forall s l, start s l = LiveDataProvider_start s l) ->
  run start (replicate (S n) Start)
  = (mkSource true (Some n), mkRuntime (mkLoop (seq 0 (S n))) []).
Proof.
  intros Hs. unfold run. induction n as [|n IH].
  - cbn. rewrite Hs. reflexivity.
  - rewrite replicate_snoc, fold_left_app, IH. cbn [fold_left step fst snd loop cancelled].
    rewrite Hs. unfold LiveDataProvider_start, create_task. cbn [tasks].
    rewrite length_seq. do 3 f_equal.
    change (seq 0 (S n) ++ [S n]) with (seq 0 (S n) ++ seq (0 + S n) 1).
    rewrite <- seq_app. f_equal. lia.
Qed.

Lemma guarded_starts (n : nat) :
  run Simulator_start (replicate (S n) Start)
  = (mkSource true (Some 0%nat), mkRuntime (mkLoop [0%nat]) []).
Proof.
  unfold run. induction n as [|n IH]; [reflexivity|].
  rewrite replicate_snoc, fold_left_app, IH. reflexivity.
Qed.

Lemma other_tasks_pending (n k m : nat) :
  (k + m <= n)%nat -> filter (fun t => t ∉ [n]) (seq k m) = seq k m.
Proof.
  revert k. induction m as [|m IH]; intros k Hk; [reflexivity|].
  cbn [seq]. rewrite filter_cons, decide_True.
  - f_equal. apply IH. lia.
  - rewrite list_elem_of_singleton. lia.
Qed.

(** X20. [LiveDataProvider] and [LiveMatchFeed] cancel only the task of
    their last [start]: after [n + 1] calls of [start] and one of [stop]
    the first [n] polling tasks have never been cancelled.  The same calls
    on a simulator create one task and cancel it. *)
Theorem unguarded_start_leaves_tasks_behind (n : nat) :
  let after start := run start (replicate (S n) Start ++ [Stop]) in
  after LiveDataProvider_start
  = (mkSource false (Some n), mkRuntime (mkLoop (seq 0 (S n))) [n]) /\
  after LiveMatchFeed_start = after LiveDataProvider_start /\
  pending (after LiveDataProvider_start).2 = seq 0 n /\
  (after Simulator_start).2 = mkRuntime (mkLoop [0%nat]) [0%nat].
Proof.
  cbv beta zeta. rewrite !run_app, guarded_starts.
  rewrite !unguarded_starts by reflexivity.
  split_and!; try reflexivity.
  unfold pending. cbn [fold_left step stop snd fst _task loop tasks cancelled app].
  rewrite seq_S, filter_app. cbn [Nat.add]. rewrite filter_cons, filter_nil.
  rewrite decide_False by (intros H; apply H; left). rewrite app_nil_r.
  apply other_tasks_pending. lia.
Qed.

End LifecycleFacts.

